(** * CG-Cameras: the animated camera of [camera.h]

    The repository holds two versions of the [Camera] class: the vector
    version (position, front, up, six animation lanes) and the yaw/pitch
    version of [includes/learnopengl/camera.h].  Both are embedded below,
    once, over an abstract arithmetic, the way GLM itself is a template over
    its scalar type.  The arithmetic is then instantiated twice:

    - at IEEE-754 binary32/binary64 ([SpecFloat] of the standard library),
      which is what the C++ [float] and [double] are, so that a frame can
      be evaluated on concrete numbers, special values included;
    - at the real numbers, the idealisation in which the geometric facts
      (orthonormal basis, affine interpolation, spline end points) are
      exact. *)

From Stdlib Require Import ZArith List Bool Lia.
From Stdlib Require Import Reals Lra Psatz.
From Stdlib Require Import Floats.SpecFloat.
Import ListNotations.

Set Implicit Arguments.

(** ** The arithmetic of the source

    [F] stands for [float], [D] for [double].  The operations are those the
    source applies: the four operations, unary minus, square root, the
    comparisons, the conversions of integer and decimal literals, the
    promotion of a [float] to [double] and back, and [std::pow] with an
    integer exponent (which C++ evaluates in [double]). *)

Class Arith (F D : Type) : Type := {
  f_of_Z : Z -> F;
  f_lit  : Z -> positive -> F;
  fadd   : F -> F -> F;
  fsub   : F -> F -> F;
  fmul   : F -> F -> F;
  fdiv   : F -> F -> F;
  fneg   : F -> F;
  fsqrt  : F -> F;
  fleb   : F -> F -> bool;
  fltb   : F -> F -> bool;
  feqb   : F -> F -> bool;
  widen  : F -> D;
  narrow : D -> F;
  d_lit  : Z -> positive -> D;
  dsub   : D -> D -> D;
  dmul   : D -> D -> D;
  dleb   : D -> D -> bool;
  dpow   : D -> positive -> D
}.

(** [cos] and [sin] on [float], as [glm::rotate] calls them. *)
Class Trig (F : Type) : Type := {
  fcos : F -> F;
  fsin : F -> F
}.

(** [cos] and [sin] on [double]: the unqualified calls of
    [includes/learnopengl/camera.h], which promote their [float] argument. *)
Class TrigD (D : Type) : Type := {
  dcos : D -> D;
  dsin : D -> D
}.

Declare Scope flt_scope.
Delimit Scope flt_scope with flt.
Infix "+" := fadd : flt_scope.
Infix "-" := fsub : flt_scope.
Infix "*" := fmul : flt_scope.
Infix "/" := fdiv : flt_scope.
Notation "- x" := (fneg x) : flt_scope.

(** ** GLM: vectors, matrices and the functions the camera calls *)

Section Glm.
Context {F D : Type} {A : Arith F D}.
Local Open Scope flt_scope.

Record vec3 : Type := V3 { vx : F; vy : F; vz : F }.
Record vec4 : Type := V4 { wx : F; wy : F; wz : F; ww : F }.
(** A [mat4] is four columns; [m[i][j]] is component [j] of column [i]. *)
Record mat4 : Type := M4 { col0 : vec4; col1 : vec4; col2 : vec4; col3 : vec4 }.

Definition fzero : F := f_of_Z 0.
Definition fone  : F := f_of_Z 1.

(** [glm::vec3(s)] *)
Definition vec3_of (s : F) : vec3 := V3 s s s.

Definition vadd (a b : vec3) : vec3 :=
  V3 (vx a + vx b) (vy a + vy b) (vz a + vz b).
Definition vsub (a b : vec3) : vec3 :=
  V3 (vx a - vx b) (vy a - vy b) (vz a - vz b).
Definition vneg (a : vec3) : vec3 := V3 (- vx a) (- vy a) (- vz a).
(** [s * v] and [v * s] *)
Definition svmul (s : F) (v : vec3) : vec3 :=
  V3 (s * vx v) (s * vy v) (s * vz v).
Definition vsmul (v : vec3) (s : F) : vec3 :=
  V3 (vx v * s) (vy v * s) (vz v * s).
Definition vsdiv (v : vec3) (s : F) : vec3 :=
  V3 (vx v / s) (vy v / s) (vz v / s).
(** [a == b] and [a != b] on vectors *)
Definition veqb (a b : vec3) : bool :=
  feqb (vx a) (vx b) && feqb (vy a) (vy b) && feqb (vz a) (vz b).
Definition vneqb (a b : vec3) : bool := negb (veqb a b).

Definition dot (a b : vec3) : F :=
  (vx a * vx b + vy a * vy b) + vz a * vz b.
Definition cross (x y : vec3) : vec3 :=
  V3 (vy x * vz y - vy y * vz x)
     (vz x * vx y - vz y * vx x)
     (vx x * vy y - vx y * vy x).
Definition inversesqrt (x : F) : F := fone / fsqrt x.
Definition normalize (v : vec3) : vec3 := vsmul v (inversesqrt (dot v v)).

(** [glm::vec4(v, 1)] and the [x, y, z] of a [vec4] *)
Definition vec4_of (v : vec3) (w : F) : vec4 := V4 (vx v) (vy v) (vz v) w.
Definition xyz (v : vec4) : vec3 := V3 (wx v) (wy v) (wz v).

Definition v4add (a b : vec4) : vec4 :=
  V4 (wx a + wx b) (wy a + wy b) (wz a + wz b) (ww a + ww b).
Definition v4smul (v : vec4) (s : F) : vec4 :=
  V4 (wx v * s) (wy v * s) (wz v * s) (ww v * s).

(** [glm::mat4(1)] *)
Definition mat4_identity : mat4 :=
  M4 (V4 fone fzero fzero fzero) (V4 fzero fone fzero fzero)
     (V4 fzero fzero fone fzero) (V4 fzero fzero fzero fone).

(** [v * m], a row vector times a matrix: component [i] of the result is
    the product of [v] with column [i]. *)
Definition v4dotcol (c v : vec4) : F :=
  ((wx c * wx v + wy c * wy v) + wz c * wz v) + ww c * ww v.
Definition vec4_mul_mat4 (v : vec4) (m : mat4) : vec4 :=
  V4 (v4dotcol (col0 m) v) (v4dotcol (col1 m) v)
     (v4dotcol (col2 m) v) (v4dotcol (col3 m) v).

(** [glm::translate(m, v)] *)
Definition glm_translate (m : mat4) (v : vec3) : mat4 :=
  M4 (col0 m) (col1 m) (col2 m)
     (v4add (v4add (v4add (v4smul (col0 m) (vx v)) (v4smul (col1 m) (vy v)))
                   (v4smul (col2 m) (vz v)))
            (col3 m)).

(** [glm::rotate(m, angle, v)], angle in radians *)
Definition glm_rotate {T : Trig F} (m : mat4) (angle : F) (v : vec3) : mat4 :=
  let c := fcos angle in
  let s := fsin angle in
  let axis := normalize v in
  let temp := svmul (fone - c) axis in
  let r00 := c + vx temp * vx axis in
  let r01 := vx temp * vy axis + s * vz axis in
  let r02 := vx temp * vz axis - s * vy axis in
  let r10 := vy temp * vx axis - s * vz axis in
  let r11 := c + vy temp * vy axis in
  let r12 := vy temp * vz axis + s * vx axis in
  let r20 := vz temp * vx axis + s * vy axis in
  let r21 := vz temp * vy axis - s * vx axis in
  let r22 := c + vz temp * vz axis in
  let lin a b c' :=
    v4add (v4add (v4smul (col0 m) a) (v4smul (col1 m) b)) (v4smul (col2 m) c') in
  M4 (lin r00 r01 r02) (lin r10 r11 r12) (lin r20 r21 r22) (col3 m).

(** [glm::lookAt(eye, center, up)], right-handed *)
Definition glm_lookAt (eye center up : vec3) : mat4 :=
  let f := normalize (vsub center eye) in
  let s := normalize (cross f up) in
  let u := cross s f in
  M4 (V4 (vx s) (vx u) (- vx f) fzero)
     (V4 (vy s) (vy u) (- vy f) fzero)
     (V4 (vz s) (vz u) (- vz f) fzero)
     (V4 (- dot s eye) (- dot u eye) (dot f eye) fone).

(** [glm::catmullRom(v1, v2, v3, v4, s)] *)
Definition catmullRom (v1 v2 v3 v4 : vec3) (s : F) : vec3 :=
  let s2 := s * s in
  let s3 := s * s * s in
  let f1 := (- s3 + f_of_Z 2 * s2) - s in
  let f2 := (f_of_Z 3 * s3 - f_of_Z 5 * s2) + f_of_Z 2 in
  let f3 := (f_of_Z (-3) * s3 + f_of_Z 4 * s2) + s in
  let f4 := s3 - s2 in
  vsdiv (vadd (vadd (vadd (svmul f1 v1) (svmul f2 v2)) (svmul f3 v3))
              (svmul f4 v4))
        (f_of_Z 2).

(** [(float)pow(x, n)]: the [float] is promoted, the power is taken in
    [double] and the result is converted back. *)
Definition fpow (x : F) (n : positive) : F := narrow (dpow (widen x) n).

(** The progress fraction every step function computes, and the cap the
    translation, rotation and look-at steps apply to it. *)
Definition percentage_of (now t0 t1 : F) : F := (now - t0) / (t1 - t0).
Definition reached (p : F) : bool := fleb fone p.
Definition capped (p : F) : F := if reached p then fone else p.
End Glm.

Arguments vec3 : clear implicits.
Arguments vec4 : clear implicits.
Arguments mat4 : clear implicits.

(** ** The vector camera

    The structs of the animation commands and the [Camera] class with its
    six queues and six current-command slots.  A [std::queue] is a list with
    its front at the head: [push] appends, [pop] drops the head.  Fields the
    source leaves uninitialised are zero here; every one of them is written
    at dequeue before it is read. *)

Section VectorCamera.
Context {F D : Type} {A : Arith F D} {T : Trig F} {TD : TrigD D}.
Local Open Scope flt_scope.
Local Abbreviation vec3 := (vec3 F).
Local Abbreviation mat4 := (mat4 F).

Record lookAt : Type := Build_lookAt {
  la_Position : vec3;
  la_InicialFront : vec3;
  la_FinalFront : vec3;
  la_InicialTime : F;
  la_FinalTime : F;
  la_Ended : bool
}.

Record translation : Type := Build_translation {
  tr_InicialPosition : vec3;
  tr_Position : vec3;
  tr_InicialTime : F;
  tr_FinalTime : F;
  tr_Ended : bool
}.

Record rotationRP : Type := Build_rotationRP {
  rp_Point : vec3;
  rp_Angle : F;
  rp_InicialTime : F;
  rp_FinalTime : F;
  rp_InicialFront : vec3;
  rp_InicialPosition : vec3;
  rp_InicialUp : vec3;
  rp_Ended : bool
}.

Record rotationRA : Type := Build_rotationRA {
  ra_Axis : vec3;
  ra_Angle : F;
  ra_InicialTime : F;
  ra_FinalTime : F;
  ra_InicialFront : vec3;
  ra_InicialPosition : vec3;
  ra_InicialUp : vec3;
  ra_Ended : bool
}.

Record spline : Type := Build_spline {
  sp_p0 : vec3;
  sp_p1 : vec3;
  sp_p2 : vec3;
  sp_p3 : vec3;
  sp_InicialTime : F;
  sp_Time : F;
  sp_Ended : bool
}.

Record Camera : Type := Build_Camera {
  Position : vec3;
  Front : vec3;
  Up : vec3;
  Right : vec3;
  WorldUp : vec3;
  MovementSpeed : F;
  MouseSensitivity : F;
  Zoom : F;
  Near : F;
  Far : F;
  noiseActive : bool;
  currTime : F;
  lookAtQueue : list lookAt;
  translationQueue : list translation;
  rotationRPQueue : list rotationRP;
  rotationRAQueue : list rotationRA;
  bSplineQueue : list spline;
  bezierQueue : list spline;
  currLookAt : lookAt;
  currTranslation : translation;
  currRP : rotationRP;
  currRA : rotationRA;
  currBSpline : spline;
  currBezier : spline
}.

(** Assignments to one member. *)
Definition set_Position (v : vec3) (c : Camera) : Camera :=
  Build_Camera v (Front c) (Up c) (Right c) (WorldUp c) (MovementSpeed c)
    (MouseSensitivity c) (Zoom c) (Near c) (Far c) (noiseActive c) (currTime c)
    (lookAtQueue c) (translationQueue c) (rotationRPQueue c) (rotationRAQueue c)
    (bSplineQueue c) (bezierQueue c) (currLookAt c) (currTranslation c)
    (currRP c) (currRA c) (currBSpline c) (currBezier c).
Definition set_Front (v : vec3) (c : Camera) : Camera :=
  Build_Camera (Position c) v (Up c) (Right c) (WorldUp c) (MovementSpeed c)
    (MouseSensitivity c) (Zoom c) (Near c) (Far c) (noiseActive c) (currTime c)
    (lookAtQueue c) (translationQueue c) (rotationRPQueue c) (rotationRAQueue c)
    (bSplineQueue c) (bezierQueue c) (currLookAt c) (currTranslation c)
    (currRP c) (currRA c) (currBSpline c) (currBezier c).
Definition set_Up (v : vec3) (c : Camera) : Camera :=
  Build_Camera (Position c) (Front c) v (Right c) (WorldUp c) (MovementSpeed c)
    (MouseSensitivity c) (Zoom c) (Near c) (Far c) (noiseActive c) (currTime c)
    (lookAtQueue c) (translationQueue c) (rotationRPQueue c) (rotationRAQueue c)
    (bSplineQueue c) (bezierQueue c) (currLookAt c) (currTranslation c)
    (currRP c) (currRA c) (currBSpline c) (currBezier c).
Definition set_Right (v : vec3) (c : Camera) : Camera :=
  Build_Camera (Position c) (Front c) (Up c) v (WorldUp c) (MovementSpeed c)
    (MouseSensitivity c) (Zoom c) (Near c) (Far c) (noiseActive c) (currTime c)
    (lookAtQueue c) (translationQueue c) (rotationRPQueue c) (rotationRAQueue c)
    (bSplineQueue c) (bezierQueue c) (currLookAt c) (currTranslation c)
    (currRP c) (currRA c) (currBSpline c) (currBezier c).
Definition set_currTime (t : F) (c : Camera) : Camera :=
  Build_Camera (Position c) (Front c) (Up c) (Right c) (WorldUp c) (MovementSpeed c)
    (MouseSensitivity c) (Zoom c) (Near c) (Far c) (noiseActive c) t
    (lookAtQueue c) (translationQueue c) (rotationRPQueue c) (rotationRAQueue c)
    (bSplineQueue c) (bezierQueue c) (currLookAt c) (currTranslation c)
    (currRP c) (currRA c) (currBSpline c) (currBezier c).
Definition set_lookAtQueue (q : list lookAt) (c : Camera) : Camera :=
  Build_Camera (Position c) (Front c) (Up c) (Right c) (WorldUp c) (MovementSpeed c)
    (MouseSensitivity c) (Zoom c) (Near c) (Far c) (noiseActive c) (currTime c)
    q (translationQueue c) (rotationRPQueue c) (rotationRAQueue c)
    (bSplineQueue c) (bezierQueue c) (currLookAt c) (currTranslation c)
    (currRP c) (currRA c) (currBSpline c) (currBezier c).
Definition set_translationQueue (q : list translation) (c : Camera) : Camera :=
  Build_Camera (Position c) (Front c) (Up c) (Right c) (WorldUp c) (MovementSpeed c)
    (MouseSensitivity c) (Zoom c) (Near c) (Far c) (noiseActive c) (currTime c)
    (lookAtQueue c) q (rotationRPQueue c) (rotationRAQueue c)
    (bSplineQueue c) (bezierQueue c) (currLookAt c) (currTranslation c)
    (currRP c) (currRA c) (currBSpline c) (currBezier c).
Definition set_rotationRPQueue (q : list rotationRP) (c : Camera) : Camera :=
  Build_Camera (Position c) (Front c) (Up c) (Right c) (WorldUp c) (MovementSpeed c)
    (MouseSensitivity c) (Zoom c) (Near c) (Far c) (noiseActive c) (currTime c)
    (lookAtQueue c) (translationQueue c) q (rotationRAQueue c)
    (bSplineQueue c) (bezierQueue c) (currLookAt c) (currTranslation c)
    (currRP c) (currRA c) (currBSpline c) (currBezier c).
Definition set_rotationRAQueue (q : list rotationRA) (c : Camera) : Camera :=
  Build_Camera (Position c) (Front c) (Up c) (Right c) (WorldUp c) (MovementSpeed c)
    (MouseSensitivity c) (Zoom c) (Near c) (Far c) (noiseActive c) (currTime c)
    (lookAtQueue c) (translationQueue c) (rotationRPQueue c) q
    (bSplineQueue c) (bezierQueue c) (currLookAt c) (currTranslation c)
    (currRP c) (currRA c) (currBSpline c) (currBezier c).
Definition set_bSplineQueue (q : list spline) (c : Camera) : Camera :=
  Build_Camera (Position c) (Front c) (Up c) (Right c) (WorldUp c) (MovementSpeed c)
    (MouseSensitivity c) (Zoom c) (Near c) (Far c) (noiseActive c) (currTime c)
    (lookAtQueue c) (translationQueue c) (rotationRPQueue c) (rotationRAQueue c)
    q (bezierQueue c) (currLookAt c) (currTranslation c)
    (currRP c) (currRA c) (currBSpline c) (currBezier c).
Definition set_bezierQueue (q : list spline) (c : Camera) : Camera :=
  Build_Camera (Position c) (Front c) (Up c) (Right c) (WorldUp c) (MovementSpeed c)
    (MouseSensitivity c) (Zoom c) (Near c) (Far c) (noiseActive c) (currTime c)
    (lookAtQueue c) (translationQueue c) (rotationRPQueue c) (rotationRAQueue c)
    (bSplineQueue c) q (currLookAt c) (currTranslation c)
    (currRP c) (currRA c) (currBSpline c) (currBezier c).
Definition set_currLookAt (l : lookAt) (c : Camera) : Camera :=
  Build_Camera (Position c) (Front c) (Up c) (Right c) (WorldUp c) (MovementSpeed c)
    (MouseSensitivity c) (Zoom c) (Near c) (Far c) (noiseActive c) (currTime c)
    (lookAtQueue c) (translationQueue c) (rotationRPQueue c) (rotationRAQueue c)
    (bSplineQueue c) (bezierQueue c) l (currTranslation c)
    (currRP c) (currRA c) (currBSpline c) (currBezier c).
Definition set_currTranslation (t : translation) (c : Camera) : Camera :=
  Build_Camera (Position c) (Front c) (Up c) (Right c) (WorldUp c) (MovementSpeed c)
    (MouseSensitivity c) (Zoom c) (Near c) (Far c) (noiseActive c) (currTime c)
    (lookAtQueue c) (translationQueue c) (rotationRPQueue c) (rotationRAQueue c)
    (bSplineQueue c) (bezierQueue c) (currLookAt c) t
    (currRP c) (currRA c) (currBSpline c) (currBezier c).
Definition set_currRP (r : rotationRP) (c : Camera) : Camera :=
  Build_Camera (Position c) (Front c) (Up c) (Right c) (WorldUp c) (MovementSpeed c)
    (MouseSensitivity c) (Zoom c) (Near c) (Far c) (noiseActive c) (currTime c)
    (lookAtQueue c) (translationQueue c) (rotationRPQueue c) (rotationRAQueue c)
    (bSplineQueue c) (bezierQueue c) (currLookAt c) (currTranslation c)
    r (currRA c) (currBSpline c) (currBezier c).
Definition set_currRA (r : rotationRA) (c : Camera) : Camera :=
  Build_Camera (Position c) (Front c) (Up c) (Right c) (WorldUp c) (MovementSpeed c)
    (MouseSensitivity c) (Zoom c) (Near c) (Far c) (noiseActive c) (currTime c)
    (lookAtQueue c) (translationQueue c) (rotationRPQueue c) (rotationRAQueue c)
    (bSplineQueue c) (bezierQueue c) (currLookAt c) (currTranslation c)
    (currRP c) r (currBSpline c) (currBezier c).
Definition set_currBSpline (b : spline) (c : Camera) : Camera :=
  Build_Camera (Position c) (Front c) (Up c) (Right c) (WorldUp c) (MovementSpeed c)
    (MouseSensitivity c) (Zoom c) (Near c) (Far c) (noiseActive c) (currTime c)
    (lookAtQueue c) (translationQueue c) (rotationRPQueue c) (rotationRAQueue c)
    (bSplineQueue c) (bezierQueue c) (currLookAt c) (currTranslation c)
    (currRP c) (currRA c) b (currBezier c).
Definition set_currBezier (b : spline) (c : Camera) : Camera :=
  Build_Camera (Position c) (Front c) (Up c) (Right c) (WorldUp c) (MovementSpeed c)
    (MouseSensitivity c) (Zoom c) (Near c) (Far c) (noiseActive c) (currTime c)
    (lookAtQueue c) (translationQueue c) (rotationRPQueue c) (rotationRAQueue c)
    (bSplineQueue c) (bezierQueue c) (currLookAt c) (currTranslation c)
    (currRP c) (currRA c) (currBSpline c) b.

Definition la_set_Ended (e : bool) (l : lookAt) : lookAt :=
  Build_lookAt (la_Position l) (la_InicialFront l) (la_FinalFront l)
    (la_InicialTime l) (la_FinalTime l) e.
Definition tr_set_Ended (e : bool) (t : translation) : translation :=
  Build_translation (tr_InicialPosition t) (tr_Position t)
    (tr_InicialTime t) (tr_FinalTime t) e.
Definition rp_set_Ended (e : bool) (r : rotationRP) : rotationRP :=
  Build_rotationRP (rp_Point r) (rp_Angle r) (rp_InicialTime r) (rp_FinalTime r)
    (rp_InicialFront r) (rp_InicialPosition r) (rp_InicialUp r) e.
Definition ra_set_Ended (e : bool) (r : rotationRA) : rotationRA :=
  Build_rotationRA (ra_Axis r) (ra_Angle r) (ra_InicialTime r) (ra_FinalTime r)
    (ra_InicialFront r) (ra_InicialPosition r) (ra_InicialUp r) e.
Definition sp_set_Ended (e : bool) (b : spline) : spline :=
  Build_spline (sp_p0 b) (sp_p1 b) (sp_p2 b) (sp_p3 b)
    (sp_InicialTime b) (sp_Time b) e.

(** *** Command intake *)

Definition vzero : vec3 := vec3_of fzero.

Definition LookAt (P : vec3) (time : F) (c : Camera) : Camera :=
  let l := Build_lookAt P vzero vzero fzero time false in
  set_lookAtQueue (lookAtQueue c ++ [l]) c.

Definition Translate (P : vec3) (time : F) (c : Camera) : Camera :=
  let t := Build_translation vzero P fzero time false in
  set_translationQueue (translationQueue c ++ [t]) c.

Definition rotateRP (P : vec3) (angle time : F) (c : Camera) : Camera :=
  let r := Build_rotationRP P angle fzero time vzero vzero vzero false in
  set_rotationRPQueue (rotationRPQueue c ++ [r]) c.

Definition rotateRA (axis : vec3) (angle time : F) (c : Camera) : Camera :=
  let r := Build_rotationRA axis angle fzero time vzero vzero vzero false in
  set_rotationRAQueue (rotationRAQueue c ++ [r]) c.

Definition bSplinePath (P0 P1 P2 P3 : vec3) (time : F) (c : Camera) : Camera :=
  let b := Build_spline P0 P1 P2 P3 fzero time false in
  set_bSplineQueue (bSplineQueue c ++ [b]) c.

Definition bezierPath (P0 P1 P2 P3 : vec3) (time : F) (c : Camera) : Camera :=
  let b := Build_spline P0 P1 P2 P3 fzero time false in
  set_bezierQueue (bezierQueue c ++ [b]) c.

(** *** [updateCameraVectors] *)

Definition updateCameraVectors (c : Camera) : Camera :=
  let c1 := set_Front (normalize (Front c)) c in
  let c2 := set_Right (normalize (cross (Front c1) (WorldUp c1))) c1 in
  set_Up (normalize (cross (Right c2) (Front c2))) c2.

(** *** The step functions

    Each step function starts with the same block: when the current
    command is [Ended], take the front of the queue or return.  That block
    is the [fetch] function of the lane ([None] is the [return]); the rest
    of the function is its [step]. *)

Definition fetchBSpline (c : Camera) : option Camera :=
  if sp_Ended (currBSpline c) then
    match bSplineQueue c with
    | b :: rest =>
        let b' := Build_spline (sp_p0 b) (sp_p1 b) (sp_p2 b) (sp_p3 b)
                    (currTime c) (sp_Time b + currTime c) false in
        Some (set_bSplineQueue rest (set_currBSpline b' c))
    | [] => None
    end
  else Some c.

(** The two knots as the source writes them, [double] literals. *)
Definition knot1 : D := d_lit 333333333 1000000000.
Definition knot2 : D := d_lit 666666666 1000000000.

Definition stepBSpline (c : Camera) : Camera :=
  let b := currBSpline c in
  let percentage := percentage_of (currTime c) (sp_InicialTime b) (sp_Time b) in
  if reached percentage then
    set_Position (sp_p3 b) (set_currBSpline (sp_set_Ended true b) c)
  else
    let v :=
      if dleb (widen percentage) knot1 then
        catmullRom (sp_p0 b) (sp_p0 b) (sp_p1 b) (sp_p2 b)
          (f_of_Z 3 * percentage)
      else if dleb (widen percentage) knot2 then
        catmullRom (sp_p0 b) (sp_p1 b) (sp_p2 b) (sp_p3 b)
          (narrow (dmul (d_lit 3 1) (dsub (widen percentage) knot1)))
      else
        catmullRom (sp_p1 b) (sp_p2 b) (sp_p3 b) (sp_p3 b)
          (narrow (dmul (d_lit 3 1) (dsub (widen percentage) knot2))) in
    set_Position v c.

Definition ProcessBSPline (c : Camera) : Camera :=
  match fetchBSpline c with
  | Some c' => stepBSpline c'
  | None => c
  end.

Definition Bezier (b : spline) (t : F) : vec3 :=
  vadd (vadd (vadd (svmul (fpow (fone - t) 3) (sp_p0 b))
                   (svmul (f_of_Z 3 * fpow (fone - t) 2 * t) (sp_p1 b)))
             (svmul (f_of_Z 3 * (fone - t) * fpow t 2) (sp_p2 b)))
       (svmul (fpow t 3) (sp_p3 b)).

Definition fetchBezier (c : Camera) : option Camera :=
  if sp_Ended (currBezier c) then
    match bezierQueue c with
    | b :: rest =>
        let b' := Build_spline (sp_p0 b) (sp_p1 b) (sp_p2 b) (sp_p3 b)
                    (currTime c) (sp_Time b + currTime c) false in
        Some (set_bezierQueue rest (set_currBezier b' c))
    | [] => None
    end
  else Some c.

Definition stepBezier (c : Camera) : Camera :=
  let b := currBezier c in
  let percentage := percentage_of (currTime c) (sp_InicialTime b) (sp_Time b) in
  if reached percentage then
    set_Position (sp_p3 b) (set_currBezier (sp_set_Ended true b) c)
  else
    set_Position (Bezier b percentage) c.

Definition ProcessBezier (c : Camera) : Camera :=
  match fetchBezier c with
  | Some c' => stepBezier c'
  | None => c
  end.

Definition fetchRA (c : Camera) : option Camera :=
  if ra_Ended (currRA c) then
    match rotationRAQueue c with
    | r :: rest =>
        let r' := Build_rotationRA (ra_Axis r) (ra_Angle r)
                    (currTime c) (ra_FinalTime r + currTime c)
                    (Front c) (Position c) (Up c) false in
        Some (set_rotationRAQueue rest (set_currRA r' c))
    | [] => None
    end
  else Some c.

(** The second half of [ProcessRA]: the rotation by [angle] about the axis
    of [r], applied to the pose [r] recorded at dequeue. *)
Definition applyRA (r : rotationRA) (angle : F) (c : Camera) : Camera :=
  let rotate := glm_rotate mat4_identity angle (ra_Axis r) in
  let newPosition := vec4_mul_mat4 (vec4_of (ra_InicialPosition r) fone) rotate in
  let newFront :=
    vec4_mul_mat4 (vec4_of (vadd (ra_InicialPosition r) (ra_InicialFront r)) fone)
      rotate in
  let newUp :=
    vec4_mul_mat4 (vec4_of (vadd (ra_InicialPosition r) (ra_InicialUp r)) fone)
      rotate in
  let c2 := set_Position (xyz newPosition) c in
  let c3 := set_Front (vsub (xyz newFront) (Position c2)) c2 in
  let c4 := set_Up (vsub (xyz newUp) (Position c3)) c3 in
  let c5 := set_Position (ra_InicialPosition r) c4 in
  updateCameraVectors c5.

Definition stepRA (c : Camera) : Camera :=
  let r := currRA c in
  let p := percentage_of (currTime c) (ra_InicialTime r) (ra_FinalTime r) in
  let c1 := if reached p then set_currRA (ra_set_Ended true r) c else c in
  let percentage := capped p in
  applyRA r (ra_Angle r * percentage) c1.

Definition ProcessRA (c : Camera) : Camera :=
  match fetchRA c with
  | Some c' => stepRA c'
  | None => c
  end.

Definition fetchRP (c : Camera) : option Camera :=
  if rp_Ended (currRP c) then
    match rotationRPQueue c with
    | r :: rest =>
        let r' := Build_rotationRP (rp_Point r) (rp_Angle r)
                    (currTime c) (rp_FinalTime r + currTime c)
                    (Front c) (Position c) (Up c) false in
        let c1 := set_currRP r' c in
        let newFront :=
          if vneqb (rp_Point r') (Position c1)
          then vsub (rp_Point r') (Position c1)
          else Front c1 in
        let newFront := normalize newFront in
        let c2 :=
          if vneqb newFront (Front c1) && vneqb (vadd newFront (Front c1)) vzero
          then
            let c' := set_Up (normalize (cross (Front c1) newFront)) c1 in
            if dleb (widen (vy (Up c'))) (d_lit 0 1)
            then set_Up (vsmul (Up c') (f_of_Z (-1))) c'
            else c'
          else c1 in
        Some (set_rotationRPQueue rest c2)
    | [] => None
    end
  else Some c.

(** The second half of [ProcessRP]: the rotation by [angle] about the
    current [Up], through the point of [r].  (The source also computes a
    local [newFront] here that it never uses.) *)
Definition applyRP (r : rotationRP) (angle : F) (c : Camera) : Camera :=
  let rMatrix := glm_translate mat4_identity (rp_Point r) in
  let rMatrix := glm_rotate rMatrix angle (Up c) in
  let rMatrix := glm_translate rMatrix (vneg (rp_Point r)) in
  let newPosition := vec4_mul_mat4 (vec4_of (rp_InicialPosition r) fone) rMatrix in
  let c2 := set_Position (xyz newPosition) c in
  updateCameraVectors c2.

Definition stepRP (c : Camera) : Camera :=
  let r := currRP c in
  let p := percentage_of (currTime c) (rp_InicialTime r) (rp_FinalTime r) in
  let c1 := if reached p then set_currRP (rp_set_Ended true r) c else c in
  let percentage := capped p in
  applyRP r (rp_Angle r * percentage) c1.

Definition ProcessRP (c : Camera) : Camera :=
  match fetchRP c with
  | Some c' => stepRP c'
  | None => c
  end.

Definition fetchTranslation (c : Camera) : option Camera :=
  if tr_Ended (currTranslation c) then
    match translationQueue c with
    | t :: rest =>
        let t' := Build_translation (Position c) (tr_Position t)
                    (currTime c) (tr_FinalTime t + currTime c) false in
        Some (set_currTranslation t' (set_translationQueue rest c))
    | [] => None
    end
  else Some c.

Definition stepTranslation (c : Camera) : Camera :=
  let t := currTranslation c in
  let p := percentage_of (currTime c) (tr_InicialTime t) (tr_FinalTime t) in
  let c1 := if reached p then set_currTranslation (tr_set_Ended true t) c else c in
  let percentage := capped p in
  set_Position
    (vadd (tr_InicialPosition t)
          (svmul percentage (vsub (tr_Position t) (tr_InicialPosition t))))
    c1.

Definition processTranslation (c : Camera) : Camera :=
  match fetchTranslation c with
  | Some c' => stepTranslation c'
  | None => c
  end.

(** [fetchLookAt] has a second [return], taken when the camera already
    stands on the target: the command is stored as [Ended]. *)
Definition fetchLookAt (c : Camera) : Camera + Camera :=
  if la_Ended (currLookAt c) then
    match lookAtQueue c with
    | l :: rest =>
        let c1 := set_lookAtQueue rest (set_currLookAt l c) in
        if veqb (Position c1) (la_Position l) then
          inr (set_currLookAt (la_set_Ended true l) c1)
        else
          let l' := Build_lookAt (la_Position l) (Front c1)
                      (normalize (vsub (la_Position l) (Position c1)))
                      (currTime c1) (la_FinalTime l + currTime c1) false in
          inl (set_currLookAt l' c1)
    | [] => inr c
    end
  else inl c.

Definition stepLookAt (c : Camera) : Camera :=
  let t := currLookAt c in
  let p := percentage_of (currTime c) (la_InicialTime t) (la_FinalTime t) in
  let c1 := if reached p then set_currLookAt (la_set_Ended true t) c else c in
  let percentage := capped p in
  let c2 :=
    set_Front
      (vadd (la_InicialFront t)
            (svmul percentage (vsub (la_FinalFront t) (la_InicialFront t))))
      c1 in
  updateCameraVectors c2.

Definition ProcessLookAt (c : Camera) : Camera :=
  match fetchLookAt c with
  | inl c' => stepLookAt c'
  | inr c' => c'
  end.

(** [ProcessTransformations]; [now] is the value of [glfwGetTime()]. *)
Definition ProcessTransformations (now : F) (c : Camera) : Camera :=
  let c := set_currTime now c in
  let c := ProcessBSPline c in
  let c := ProcessBezier c in
  let c := processTranslation c in
  let c := ProcessRP c in
  let c := ProcessRA c in
  ProcessLookAt c.

Definition GetViewMatrix (now : F) (c : Camera) : Camera * mat4 :=
  let c' := ProcessTransformations now c in
  (c', glm_lookAt (Position c') (vadd (Position c') (Front c')) (Up c')).

(** The constructor. *)
Definition SPEED : F := f_lit 25 10.
Definition SENSITIVITY : F := f_lit 1 10.
Definition ZOOM : F := f_of_Z 45.
Definition NEAR : F := f_lit 1 10.
Definition FAR : F := f_of_Z 100.

Definition new_Camera (position up front : vec3) (zoom near far : F) : Camera :=
  let ended_la := Build_lookAt vzero vzero vzero fzero fzero true in
  let ended_tr := Build_translation vzero vzero fzero fzero true in
  let ended_rp := Build_rotationRP vzero fzero fzero fzero vzero vzero vzero true in
  let ended_ra := Build_rotationRA vzero fzero fzero fzero vzero vzero vzero true in
  let ended_sp := Build_spline vzero vzero vzero vzero fzero fzero true in
  updateCameraVectors
    (Build_Camera position front vzero vzero up SPEED SENSITIVITY zoom near far
       false fzero [] [] [] [] [] [] ended_la ended_tr ended_rp ended_ra
       ended_sp ended_sp).
End VectorCamera.

Arguments lookAt : clear implicits.
Arguments translation : clear implicits.
Arguments rotationRP : clear implicits.
Arguments rotationRA : clear implicits.
Arguments spline : clear implicits.
Arguments Camera : clear implicits.

(** ** The yaw/pitch camera of [includes/learnopengl/camera.h]

    The pose, the Euler angles, the options, the clock, and the two lanes
    whose step functions the file defines with their own types: translation
    and look-at.  The file's [ProcessRA] assigns a [translation] to a
    [rotationRA] and is not typed; it and the frame function that calls it
    are not embedded, nor are the four queues that are only pushed to. *)

Module YawPitch.
Section YawPitchCamera.
Context {F D : Type} {A : Arith F D} {T : Trig F} {TD : TrigD D}.
Local Open Scope flt_scope.
Local Abbreviation vec3 := (vec3 F).

Record vec2 : Type := V2 { ux : F; uy : F }.

(** [glm::orientedAngle] on [vec3] (with a reference axis) and on [vec2]. *)
Variable orientedAngle3 : vec3 -> vec3 -> vec3 -> F.
Variable orientedAngle2 : vec2 -> vec2 -> F.

Record lookAt : Type := Build_lookAt {
  la_Position : vec3;
  la_InicialTime : F;
  la_FinalTime : F;
  la_InicialPitch : F;
  la_InicialYaw : F;
  la_FinalPitch : F;
  la_FinalYaw : F;
  la_Ended : bool
}.

Record translation : Type := Build_translation {
  tr_InicialPosition : vec3;
  tr_Position : vec3;
  tr_InicialTime : F;
  tr_FinalTime : F;
  tr_Ended : bool
}.

Inductive Camera_Movement : Type := FORWARD | BACKWARD | LEFT | RIGHT.

Record Camera : Type := Build_Camera {
  Position : vec3;
  Front : vec3;
  Up : vec3;
  Right : vec3;
  WorldUp : vec3;
  Yaw : F;
  Pitch : F;
  MovementSpeed : F;
  MouseSensitivity : F;
  Zoom : F;
  Near : F;
  Far : F;
  noiseActive : bool;
  currTime : F;
  lookAtQueue : list lookAt;
  translationQueue : list translation;
  currLookAt : lookAt;
  currTranslation : translation
}.

Definition set_Position (v : vec3) (c : Camera) : Camera :=
  Build_Camera v (Front c) (Up c) (Right c) (WorldUp c) (Yaw c) (Pitch c)
    (MovementSpeed c) (MouseSensitivity c) (Zoom c) (Near c) (Far c)
    (noiseActive c) (currTime c) (lookAtQueue c) (translationQueue c)
    (currLookAt c) (currTranslation c).
Definition set_basis (front right up : vec3) (c : Camera) : Camera :=
  Build_Camera (Position c) front up right (WorldUp c) (Yaw c) (Pitch c)
    (MovementSpeed c) (MouseSensitivity c) (Zoom c) (Near c) (Far c)
    (noiseActive c) (currTime c) (lookAtQueue c) (translationQueue c)
    (currLookAt c) (currTranslation c).
Definition set_angles (yaw pitch : F) (c : Camera) : Camera :=
  Build_Camera (Position c) (Front c) (Up c) (Right c) (WorldUp c) yaw pitch
    (MovementSpeed c) (MouseSensitivity c) (Zoom c) (Near c) (Far c)
    (noiseActive c) (currTime c) (lookAtQueue c) (translationQueue c)
    (currLookAt c) (currTranslation c).
Definition set_Zoom (z : F) (c : Camera) : Camera :=
  Build_Camera (Position c) (Front c) (Up c) (Right c) (WorldUp c) (Yaw c) (Pitch c)
    (MovementSpeed c) (MouseSensitivity c) z (Near c) (Far c)
    (noiseActive c) (currTime c) (lookAtQueue c) (translationQueue c)
    (currLookAt c) (currTranslation c).
Definition set_currTime (t : F) (c : Camera) : Camera :=
  Build_Camera (Position c) (Front c) (Up c) (Right c) (WorldUp c) (Yaw c) (Pitch c)
    (MovementSpeed c) (MouseSensitivity c) (Zoom c) (Near c) (Far c)
    (noiseActive c) t (lookAtQueue c) (translationQueue c)
    (currLookAt c) (currTranslation c).
Definition set_lookAtQueue (q : list lookAt) (c : Camera) : Camera :=
  Build_Camera (Position c) (Front c) (Up c) (Right c) (WorldUp c) (Yaw c) (Pitch c)
    (MovementSpeed c) (MouseSensitivity c) (Zoom c) (Near c) (Far c)
    (noiseActive c) (currTime c) q (translationQueue c)
    (currLookAt c) (currTranslation c).
Definition set_translationQueue (q : list translation) (c : Camera) : Camera :=
  Build_Camera (Position c) (Front c) (Up c) (Right c) (WorldUp c) (Yaw c) (Pitch c)
    (MovementSpeed c) (MouseSensitivity c) (Zoom c) (Near c) (Far c)
    (noiseActive c) (currTime c) (lookAtQueue c) q
    (currLookAt c) (currTranslation c).
Definition set_currLookAt (l : lookAt) (c : Camera) : Camera :=
  Build_Camera (Position c) (Front c) (Up c) (Right c) (WorldUp c) (Yaw c) (Pitch c)
    (MovementSpeed c) (MouseSensitivity c) (Zoom c) (Near c) (Far c)
    (noiseActive c) (currTime c) (lookAtQueue c) (translationQueue c)
    l (currTranslation c).
Definition set_currTranslation (t : translation) (c : Camera) : Camera :=
  Build_Camera (Position c) (Front c) (Up c) (Right c) (WorldUp c) (Yaw c) (Pitch c)
    (MovementSpeed c) (MouseSensitivity c) (Zoom c) (Near c) (Far c)
    (noiseActive c) (currTime c) (lookAtQueue c) (translationQueue c)
    (currLookAt c) t.

Definition la_set_Ended (e : bool) (l : lookAt) : lookAt :=
  Build_lookAt (la_Position l) (la_InicialTime l) (la_FinalTime l)
    (la_InicialPitch l) (la_InicialYaw l) (la_FinalPitch l) (la_FinalYaw l) e.
Definition tr_set_Ended (e : bool) (t : translation) : translation :=
  Build_translation (tr_InicialPosition t) (tr_Position t)
    (tr_InicialTime t) (tr_FinalTime t) e.

(** [glm::radians] and [glm::degrees] *)
Definition radians (deg : F) : F :=
  deg * f_lit 1745329251994329576923690768489 100000000000000000000000000000000.
Definition degrees (rad : F) : F :=
  rad * f_lit 57295779513082320876798154814105 1000000000000000000000000000000.

(** The products of the cosines and sines are formed in [double] and
    rounded to [float] by the assignment to the components of [front]. *)
Definition updateCameraVectors (c : Camera) : Camera :=
  let yaw := widen (radians (Yaw c)) in
  let pitch := widen (radians (Pitch c)) in
  let front :=
    V3 (narrow (dmul (dcos yaw) (dcos pitch)))
       (narrow (dsin pitch))
       (narrow (dmul (dsin yaw) (dcos pitch))) in
  let front' := normalize front in
  let right := normalize (cross front' (WorldUp c)) in
  let up := normalize (cross right front') in
  set_basis front' right up c.

Definition LookAt (P : vec3) (time : F) (c : Camera) : Camera :=
  let l := Build_lookAt P fzero time fzero fzero fzero fzero false in
  set_lookAtQueue (lookAtQueue c ++ [l]) c.

Definition Translate (P : vec3) (time : F) (c : Camera) : Camera :=
  let t := Build_translation (vec3_of fzero) P fzero time false in
  set_translationQueue (translationQueue c ++ [t]) c.

Definition ProcessKeyboard (direction : Camera_Movement) (deltaTime : F)
    (c : Camera) : Camera :=
  let velocity := MovementSpeed c * deltaTime in
  match direction with
  | FORWARD => set_Position (vadd (Position c) (vsmul (Front c) velocity)) c
  | BACKWARD => set_Position (vsub (Position c) (vsmul (Front c) velocity)) c
  | LEFT => set_Position (vsub (Position c) (vsmul (Right c) velocity)) c
  | RIGHT => set_Position (vadd (Position c) (vsmul (Right c) velocity)) c
  end.

Definition ProcessMouseMovement (xoffset yoffset : F) (constrainPitch : bool)
    (c : Camera) : Camera :=
  let xoffset := xoffset * MouseSensitivity c in
  let yoffset := yoffset * MouseSensitivity c in
  let yaw := Yaw c + xoffset in
  let pitch := Pitch c + yoffset in
  let pitch :=
    if constrainPitch then
      let pitch := if fltb (f_of_Z 89) pitch then f_of_Z 89 else pitch in
      if fltb pitch (f_of_Z (-89)) then f_of_Z (-89) else pitch
    else pitch in
  updateCameraVectors (set_angles yaw pitch c).

Definition ProcessMouseScroll (yoffset : F) (c : Camera) : Camera :=
  let z := Zoom c in
  let z := if fleb fone z && fleb z (f_of_Z 45) then z - yoffset else z in
  let z := if fleb z fone then fone else z in
  let z := if fleb (f_of_Z 45) z then f_of_Z 45 else z in
  set_Zoom z c.

Definition fetchTranslation (c : Camera) : option Camera :=
  if tr_Ended (currTranslation c) then
    match translationQueue c with
    | t :: rest =>
        let t' := Build_translation (Position c) (tr_Position t)
                    (currTime c) (tr_FinalTime t + currTime c) false in
        Some (set_currTranslation t' (set_translationQueue rest c))
    | [] => None
    end
  else Some c.

Definition stepTranslation (c : Camera) : Camera :=
  let t := currTranslation c in
  let p := percentage_of (currTime c) (tr_InicialTime t) (tr_FinalTime t) in
  let c1 := if reached p then set_currTranslation (tr_set_Ended true t) c else c in
  let percentage := capped p in
  set_Position
    (vadd (tr_InicialPosition t)
          (svmul percentage (vsub (tr_Position t) (tr_InicialPosition t))))
    c1.

Definition processTranslation (c : Camera) : Camera :=
  match fetchTranslation c with
  | Some c' => stepTranslation c'
  | None => c
  end.

Definition fetchLookAt (c : Camera) : option Camera :=
  if la_Ended (currLookAt c) then
    match lookAtQueue c with
    | l :: rest =>
        let FinalFront := normalize (vsub (la_Position l) (Position c)) in
        let FinalPitch :=
          Pitch c +
          degrees (orientedAngle3
                     (V3 (vx FinalFront) (vy (Front c)) (vz FinalFront))
                     FinalFront
                     (V3 fzero fone fzero)) in
        let FinalYaw :=
          Yaw c +
          degrees (orientedAngle2 (V2 (vx (Front c)) (vz (Front c)))
                                  (V2 (vx FinalFront) (vz FinalFront))) in
        let l' := Build_lookAt (la_Position l) (currTime c)
                    (la_FinalTime l + currTime c) (Pitch c) (Yaw c)
                    FinalPitch FinalYaw false in
        Some (set_currLookAt l' (set_lookAtQueue rest c))
    | [] => None
    end
  else Some c.

(** The statements of [ProcessLookAt] up to its unconditional [return]: the
    percentage is computed and capped, then the command is ended and the
    angles are set to their final values. *)
Definition stepLookAt (c : Camera) : Camera :=
  let l := currLookAt c in
  let p := percentage_of (currTime c) (la_InicialTime l) (la_FinalTime l) in
  let c1 := if reached p then set_currLookAt (la_set_Ended true l) c else c in
  let c2 := set_currLookAt (la_set_Ended true (currLookAt c1)) c1 in
  set_angles (la_FinalYaw l) (la_FinalPitch l) c2.

Definition ProcessLookAt (c : Camera) : Camera :=
  match fetchLookAt c with
  | Some c' => stepLookAt c'
  | None => c
  end.

(** The two assignments that follow the [return] in [ProcessLookAt] and are
    never executed: the angles they would store. *)
Definition unreachable_Pitch (l : lookAt) (percentage : F) : F :=
  la_InicialPitch l + percentage * (la_FinalPitch l - la_InicialPitch l).
Definition unreachable_Yaw (l : lookAt) (percentage : F) : F :=
  la_InicialYaw l + percentage * (la_FinalYaw l - la_InicialYaw l).
End YawPitchCamera.

Arguments vec2 : clear implicits.
Arguments lookAt : clear implicits.
Arguments translation : clear implicits.
Arguments Camera : clear implicits.
End YawPitch.

(** ** The arithmetic of the machine: binary32 and binary64

    [float] is IEEE-754 binary32 (24 bits of precision, infinities at
    exponent 128), [double] is binary64 (53 and 1024); every operation
    rounds to nearest, ties to even, and has the special values of the
    standard: [0/0] is a NaN, [x/0] an infinity, a comparison with a NaN is
    false. *)

Definition b32_of_Z (z : Z) : spec_float := binary_normalize 24 128 z 0 false.
Definition b64_of_Z (z : Z) : spec_float := binary_normalize 53 1024 z 0 false.

(** A decimal literal [n/d]: the exact quotient, rounded once. *)
Definition SF_lit (prec emax : Z) (n : Z) (d : positive) : spec_float :=
  match n with
  | Z0 => S754_zero false
  | Zpos p =>
      let '(mz, ez, lz) := SFdiv_core_binary prec emax (Zpos p) 0 (Zpos d) 0 in
      binary_round_aux prec emax false mz ez lz
  | Zneg p =>
      let '(mz, ez, lz) := SFdiv_core_binary prec emax (Zpos p) 0 (Zpos d) 0 in
      binary_round_aux prec emax true mz ez lz
  end.
Definition b32_lit : Z -> positive -> spec_float := SF_lit 24 128.
Definition b64_lit : Z -> positive -> spec_float := SF_lit 53 1024.

(** [float] to [double] is exact; [double] to [float] rounds. *)
Definition b32_to_b64 (x : spec_float) : spec_float :=
  match x with
  | S754_finite s m e => binary_normalize 53 1024 (cond_Zopp s (Zpos m)) e s
  | _ => x
  end.
Definition b64_to_b32 (x : spec_float) : spec_float :=
  match x with
  | S754_finite s m e => binary_normalize 24 128 (cond_Zopp s (Zpos m)) e s
  | _ => x
  end.

(** [std::pow(x, n)] for a positive integer [n], taken as correctly rounded:
    the exact power of a finite [x], rounded once. *)
Definition b64_pow (x : spec_float) (n : positive) : spec_float :=
  match x with
  | S754_finite s m e =>
      binary_normalize 53 1024
        (cond_Zopp (s && Z.odd (Zpos n)) (Zpos (Pos.pow m n))) (e * Zpos n) false
  | _ => Pos.iter (SFmul 53 1024 x) x (Pos.pred n)
  end.

#[export] Instance B32Arith : Arith spec_float spec_float := {|
  f_of_Z := b32_of_Z;
  f_lit  := b32_lit;
  fadd   := SFadd 24 128;
  fsub   := SFsub 24 128;
  fmul   := SFmul 24 128;
  fdiv   := SFdiv 24 128;
  fneg   := SFopp;
  fsqrt  := SFsqrt 24 128;
  fleb   := SFleb;
  fltb   := SFltb;
  feqb   := SFeqb;
  widen  := b32_to_b64;
  narrow := b64_to_b32;
  d_lit  := b64_lit;
  dsub   := SFsub 53 1024;
  dmul   := SFmul 53 1024;
  dleb   := SFleb;
  dpow   := b64_pow
|}.

(** A [float] or [double] that is not a number. *)
Definition is_nan (x : spec_float) : bool :=
  match x with S754_nan => true | _ => false end.

(** ** The idealised arithmetic: real numbers

    Both [float] and [double] are [R]; conversions are the identity and the
    comparisons are the decidable order of the reals. *)

Definition Rleb (x y : R) : bool := if Rle_dec x y then true else false.
Definition Rltb (x y : R) : bool := if Rlt_dec x y then true else false.
Definition Reqb (x y : R) : bool := if Req_dec_T x y then true else false.
Definition R_lit (n : Z) (d : positive) : R := (IZR n / IZR (Zpos d))%R.

#[export] Instance RArith : Arith R R := {|
  f_of_Z := IZR;
  f_lit  := R_lit;
  fadd   := Rplus;
  fsub   := Rminus;
  fmul   := Rmult;
  fdiv   := Rdiv;
  fneg   := Ropp;
  fsqrt  := sqrt;
  fleb   := Rleb;
  fltb   := Rltb;
  feqb   := Reqb;
  widen  := fun x => x;
  narrow := fun x => x;
  d_lit  := R_lit;
  dsub   := Rminus;
  dmul   := Rmult;
  dleb   := Rleb;
  dpow   := fun x n => pow x (Pos.to_nat n)
|}.

#[export] Instance RTrig : Trig R := {| fcos := cos; fsin := sin |}.
#[export] Instance RTrigD : TrigD R := {| dcos := cos; dsin := sin |}.

(** ** Vocabulary of the statements *)

Section Vocabulary.
Context {F D : Type} {A : Arith F D} {T : Trig F} {TD : TrigD D}.

(** One frame: the camera after [GetViewMatrix]; a run is a sequence of
    frames at the given clock samples. *)
Definition frame (now : F) (c : Camera F) : Camera F := fst (GetViewMatrix now c).
Definition run (ts : list F) (c : Camera F) : Camera F :=
  fold_left (fun c t => frame t c) ts c.

(** The six kinds, in the order [ProcessTransformations] steps them. *)
Inductive Kind : Type := KBSpline | KBezier | KTranslation | KRP | KRA | KLookAt.

Inductive command : Type :=
| LookAtCmd (l : lookAt F)
| TranslationCmd (t : translation F)
| RPCmd (r : rotationRP F)
| RACmd (r : rotationRA F)
| SplineCmd (b : spline F).

Definition queue_of (k : Kind) (c : Camera F) : list command :=
  match k with
  | KBSpline => map SplineCmd (bSplineQueue c)
  | KBezier => map SplineCmd (bezierQueue c)
  | KTranslation => map TranslationCmd (translationQueue c)
  | KRP => map RPCmd (rotationRPQueue c)
  | KRA => map RACmd (rotationRAQueue c)
  | KLookAt => map LookAtCmd (lookAtQueue c)
  end.

Definition current_of (k : Kind) (c : Camera F) : command :=
  match k with
  | KBSpline => SplineCmd (currBSpline c)
  | KBezier => SplineCmd (currBezier c)
  | KTranslation => TranslationCmd (currTranslation c)
  | KRP => RPCmd (currRP c)
  | KRA => RACmd (currRA c)
  | KLookAt => LookAtCmd (currLookAt c)
  end.

Definition ended (x : command) : bool :=
  match x with
  | LookAtCmd l => la_Ended l
  | TranslationCmd t => tr_Ended t
  | RPCmd r => rp_Ended r
  | RACmd r => ra_Ended r
  | SplineCmd b => sp_Ended b
  end.

(** Two commands carry the same request when the parameters the caller
    supplied, other than the duration, are equal (the duration field is
    turned into a deadline at dequeue). *)
Definition same_request (x y : command) : Prop :=
  match x, y with
  | LookAtCmd a, LookAtCmd b => la_Position a = la_Position b
  | TranslationCmd a, TranslationCmd b => tr_Position a = tr_Position b
  | RPCmd a, RPCmd b => rp_Point a = rp_Point b /\ rp_Angle a = rp_Angle b
  | RACmd a, RACmd b => ra_Axis a = ra_Axis b /\ ra_Angle a = ra_Angle b
  | SplineCmd a, SplineCmd b =>
      sp_p0 a = sp_p0 b /\ sp_p1 a = sp_p1 b /\ sp_p2 a = sp_p2 b /\ sp_p3 a = sp_p3 b
  | _, _ => False
  end.

Definition Process (k : Kind) : Camera F -> Camera F :=
  match k with
  | KBSpline => ProcessBSPline
  | KBezier => ProcessBezier
  | KTranslation => processTranslation
  | KRP => ProcessRP
  | KRA => ProcessRA
  | KLookAt => ProcessLookAt
  end.

(** What a lane consists of: its queue and its slot. *)
Definition lane (k : Kind) (c : Camera F) : list command * command :=
  (queue_of k c, current_of k c).

(** The six intake calls: [enqueue_call k x c c'] when [c'] is [c] after the
    call of kind [k] that builds the command [x]. *)
Inductive enqueue_call : Kind -> command -> Camera F -> Camera F -> Prop :=
| enq_LookAt P time c :
    enqueue_call KLookAt
      (LookAtCmd (Build_lookAt P vzero vzero fzero time false)) c (LookAt P time c)
| enq_Translate P time c :
    enqueue_call KTranslation
      (TranslationCmd (Build_translation vzero P fzero time false)) c
      (Translate P time c)
| enq_rotateRP P angle time c :
    enqueue_call KRP
      (RPCmd (Build_rotationRP P angle fzero time vzero vzero vzero false)) c
      (rotateRP P angle time c)
| enq_rotateRA axis angle time c :
    enqueue_call KRA
      (RACmd (Build_rotationRA axis angle fzero time vzero vzero vzero false)) c
      (rotateRA axis angle time c)
| enq_bSplinePath P0 P1 P2 P3 time c :
    enqueue_call KBSpline
      (SplineCmd (Build_spline P0 P1 P2 P3 fzero time false)) c
      (bSplinePath P0 P1 P2 P3 time c)
| enq_bezierPath P0 P1 P2 P3 time c :
    enqueue_call KBezier
      (SplineCmd (Build_spline P0 P1 P2 P3 fzero time false)) c
      (bezierPath P0 P1 P2 P3 time c).

(** A lane is idle when its slot is [Ended] and its queue is empty; the
    camera is idle when its six lanes are. *)
Definition lane_idle (k : Kind) (c : Camera F) : Prop :=
  ended (current_of k c) = true /\ queue_of k c = [].
Definition idle (c : Camera F) : Prop := forall k, lane_idle k c.

(** The three states of a lane that was idle when [a] and then [b] were
    enqueued: nothing taken yet, [a] in the slot, [b] in the slot. *)
Definition fifo_phase (k : Kind) (a b : command) (c : Camera F) : Prop :=
  (queue_of k c = [a; b] /\ ended (current_of k c) = true) \/
  (queue_of k c = [b] /\ same_request (current_of k c) a) \/
  (queue_of k c = [] /\ same_request (current_of k c) b).

(** [start + percentage * (target - start)], as the translation and the
    look-at steps write it. *)
Definition interpolate (start target : vec3 F) (p : F) : vec3 F :=
  vadd start (svmul p (vsub target start)).

(** The basis as [updateCameraVectors] derives it, and what it means for it
    to be orthonormal. *)
Definition basis_derived (front right up worldUp : vec3 F) : Prop :=
  right = normalize (cross front worldUp) /\
  up = normalize (cross right front).
Definition basis_ok (c : Camera F) : Prop :=
  basis_derived (Front c) (Right c) (Up c) (WorldUp c).
Definition unit_vec (v : vec3 F) : Prop := dot v v = fone.
Definition orthogonal (a b : vec3 F) : Prop := dot a b = fzero.
Definition orthonormal (front right up : vec3 F) : Prop :=
  unit_vec front /\ unit_vec right /\ unit_vec up /\
  orthogonal front right /\ orthogonal front up /\ orthogonal right up.
End Vocabulary.

Arguments command : clear implicits.

(** ** Cameras of the examples

    The camera [main.cpp] creates, [Camera(glm::vec3(0, 5, 3))], with the
    default up, front, zoom and clipping planes, in both arithmetics. *)

Definition v32 (x y z : Z) : vec3 spec_float :=
  V3 (b32_of_Z x) (b32_of_Z y) (b32_of_Z z).

Definition camera32 : Camera spec_float :=
  new_Camera (v32 0 5 3) (v32 0 1 0) (v32 0 0 (-1)) ZOOM NEAR FAR.

Definition cameraR : Camera R :=
  new_Camera (V3 0%R 5%R 3%R) (V3 0%R 1%R 0%R) (V3 0%R 0%R (-1)%R) ZOOM NEAR FAR.

(** The camera of [main.cpp] asked to look at a point straight above it,
    [LookAt((0, 9, 3), 1)], sampled at times 0 and 1 by the look-at step. *)
Definition lookUp32 : Camera spec_float :=
  ProcessLookAt (set_currTime (b32_of_Z 1)
    (ProcessLookAt (set_currTime (b32_of_Z 0)
       (LookAt (v32 0 9 3) (b32_of_Z 1) camera32)))).

(** The rotate-about-axis command [rotateRA((0,0,-1), 1, 2)] as the step
    function stamps it at time 0, for a camera looking along [(0,0,-1)]. *)
Definition roll_cmd (P U : vec3 R) : rotationRA R :=
  Build_rotationRA (V3 0%R 0%R (-1)%R) 1%R 0%R (2 + 0)%R (V3 0%R 0%R (-1)%R) P U false.

(** [Translate((0.1, 0.2, 0.3), 2)] on the camera of [main.cpp]: the
    translation step at the clock samples 0 and 2. *)
Definition tenths32 : vec3 spec_float :=
  V3 (b32_lit 1 10) (b32_lit 2 10) (b32_lit 3 10).
Definition offTarget32 : Camera spec_float :=
  processTranslation (set_currTime (b32_of_Z 2)
    (processTranslation (set_currTime (b32_of_Z 0)
       (Translate tenths32 (b32_of_Z 2) camera32)))).

(** [Translate((5, 5, 5), 3)] dequeued at the clock sample 10, before the
    step at the clock sample 9. *)
Definition early32 : Camera spec_float :=
  set_currTime (b32_of_Z 9)
    (processTranslation (set_currTime (b32_of_Z 10)
       (Translate (v32 5 5 5) (b32_of_Z 3) camera32))).

(** A yaw/pitch camera at time 4, half-way through a look-at command that
    was dequeued at time 0 for 8 s, from pitch 0 and yaw -90 to pitch 40
    and yaw -50.  The command is in the slot, so [glm::orientedAngle],
    which only the dequeuing block calls, is not needed: [no_angle3] and
    [no_angle2] stand for it. *)
Definition ypHalf32 : YawPitch.Camera spec_float :=
  YawPitch.Build_Camera (v32 0 5 3) (v32 0 0 (-1)) (v32 0 1 0) (v32 1 0 0)
    (v32 0 1 0) (b32_of_Z (-90)) (b32_of_Z 0) SPEED SENSITIVITY ZOOM NEAR FAR
    false (b32_of_Z 4) [] []
    (YawPitch.Build_lookAt (v32 5 5 5) (b32_of_Z 0) (b32_of_Z 8)
       (b32_of_Z 0) (b32_of_Z (-90)) (b32_of_Z 40) (b32_of_Z (-50)) false)
    (YawPitch.Build_translation (v32 0 0 0) (v32 0 0 0) (b32_of_Z 0) (b32_of_Z 0)
       true).
Definition no_angle3 (a b ref : vec3 spec_float) : spec_float := b32_of_Z 0.
Definition no_angle2 (a b : YawPitch.vec2 spec_float) : spec_float := b32_of_Z 0.

(** The binary32 numbers next to 1/3 and to 2/3: [11184810 / 2^25] and
    [11184811 / 2^25], and their doubles. *)
Definition below_third : spec_float := S754_finite false 11184810 (-25).
Definition above_third : spec_float := S754_finite false 11184811 (-25).
Definition below_two_thirds : spec_float := S754_finite false 11184810 (-24).
Definition above_two_thirds : spec_float := S754_finite false 11184811 (-24).

(** [bSplinePath((-1,0,0), (0,0,0), (1,0,0), (2,0,0), 1)] on the camera of
    [main.cpp]: the B-spline step at the clock sample 0, which dequeues the
    command, and then at the clock sample [t], where the percentage is
    [t]. *)
Definition knot_run32 (t : spec_float) : Camera spec_float :=
  ProcessBSPline (set_currTime t
    (ProcessBSPline (set_currTime (b32_of_Z 0)
       (bSplinePath (v32 (-1) 0 0) (v32 0 0 0) (v32 1 0 0) (v32 2 0 0)
          (b32_of_Z 1) camera32)))).

(** ** The constructor of the yaw/pitch camera

    [Camera(position, up, yaw, pitch, zoom, near, far)] of
    [includes/learnopengl/camera.h], with its default angles.  The fields it
    leaves uninitialised are zero here; the basis is the one
    [updateCameraVectors] derives from the angles. *)

Module YawPitchConstructor.
Section Constructor.
Context {F D : Type} {A : Arith F D} {T : Trig F} {TD : TrigD D}.

Definition YAW : F := f_of_Z (-90).
Definition PITCH : F := f_of_Z 0.

Definition new_Camera (position up : vec3 F) (yaw pitch zoom near far : F)
    : YawPitch.Camera F :=
  let ended_la :=
    YawPitch.Build_lookAt vzero fzero fzero fzero fzero fzero fzero true in
  let ended_tr := YawPitch.Build_translation vzero vzero fzero fzero true in
  YawPitch.updateCameraVectors
    (YawPitch.Build_Camera position vzero vzero vzero up yaw pitch
       SPEED SENSITIVITY zoom near far false fzero [] [] ended_la ended_tr).
End Constructor.
End YawPitchConstructor.

(** ** The application: [src/CG_UFPel/main.cpp]

    The globals of the file and the functions that change them: the two
    camera-list functions, the keyboard handler and the two mouse callbacks.
    An [unsigned int] is a [Z] reduced modulo [2^32]; [cameras] is the
    [std::vector], indexed by [currentCamera], and an index past its end,
    which C++ leaves undefined, is the error [None].  [glfwGetKey] is the
    function [key], [true] for [GLFW_PRESS] and [false] for [GLFW_RELEASE].
    The globals only the render loop and the printing function use are left
    out. *)

Module Main.
Section Application.
Context {F D : Type} {A : Arith F D} {T : Trig F} {TD : TrigD D}.
Local Abbreviation Camera := (YawPitch.Camera F).

Definition uint (z : Z) : Z := (z mod 4294967296)%Z.

Inductive Key : Type :=
| KEY_ESCAPE | KEY_TAB | KEY_ENTER
| KEY_Q | KEY_E | KEY_R
| KEY_W | KEY_S | KEY_A | KEY_D
| KEY_T | KEY_Y | KEY_U.

Record Globals : Type := Build_Globals {
  cameras : list Camera;
  currentCamera : Z;
  numberOfCameras : Z;
  position : vec3 F;
  up : vec3 F;
  zoom : F;
  yaw : F;
  pitch : F;
  near : F;
  far : F;
  tab : bool;
  enter : bool;
  lastX : F;
  lastY : F;
  firstMouse : bool;
  obj1 : bool;
  obj2 : bool;
  obj3 : bool;
  t1 : bool;
  t2 : bool;
  t3 : bool;
  deltaTime : F;
  windowShouldClose : bool
}.

Definition set_cameras (x : list Camera) (g : Globals) : Globals :=
  Build_Globals x (currentCamera g) (numberOfCameras g) (position g) (up g)
    (zoom g) (yaw g) (pitch g) (near g) (far g) (tab g) (enter g) (lastX g)
    (lastY g) (firstMouse g) (obj1 g) (obj2 g) (obj3 g) (t1 g) (t2 g) (t3 g)
    (deltaTime g) (windowShouldClose g).
Definition set_currentCamera (x : Z) (g : Globals) : Globals :=
  Build_Globals (cameras g) x (numberOfCameras g) (position g) (up g) (zoom g)
    (yaw g) (pitch g) (near g) (far g) (tab g) (enter g) (lastX g) (lastY g)
    (firstMouse g) (obj1 g) (obj2 g) (obj3 g) (t1 g) (t2 g) (t3 g)
    (deltaTime g) (windowShouldClose g).
Definition set_numberOfCameras (x : Z) (g : Globals) : Globals :=
  Build_Globals (cameras g) (currentCamera g) x (position g) (up g) (zoom g)
    (yaw g) (pitch g) (near g) (far g) (tab g) (enter g) (lastX g) (lastY g)
    (firstMouse g) (obj1 g) (obj2 g) (obj3 g) (t1 g) (t2 g) (t3 g)
    (deltaTime g) (windowShouldClose g).
Definition set_tab (x : bool) (g : Globals) : Globals :=
  Build_Globals (cameras g) (currentCamera g) (numberOfCameras g) (position g)
    (up g) (zoom g) (yaw g) (pitch g) (near g) (far g) x (enter g) (lastX g)
    (lastY g) (firstMouse g) (obj1 g) (obj2 g) (obj3 g) (t1 g) (t2 g) (t3 g)
    (deltaTime g) (windowShouldClose g).
Definition set_enter (x : bool) (g : Globals) : Globals :=
  Build_Globals (cameras g) (currentCamera g) (numberOfCameras g) (position g)
    (up g) (zoom g) (yaw g) (pitch g) (near g) (far g) (tab g) x (lastX g)
    (lastY g) (firstMouse g) (obj1 g) (obj2 g) (obj3 g) (t1 g) (t2 g) (t3 g)
    (deltaTime g) (windowShouldClose g).
Definition set_lastX (x : F) (g : Globals) : Globals :=
  Build_Globals (cameras g) (currentCamera g) (numberOfCameras g) (position g)
    (up g) (zoom g) (yaw g) (pitch g) (near g) (far g) (tab g) (enter g) x
    (lastY g) (firstMouse g) (obj1 g) (obj2 g) (obj3 g) (t1 g) (t2 g) (t3 g)
    (deltaTime g) (windowShouldClose g).
Definition set_lastY (x : F) (g : Globals) : Globals :=
  Build_Globals (cameras g) (currentCamera g) (numberOfCameras g) (position g)
    (up g) (zoom g) (yaw g) (pitch g) (near g) (far g) (tab g) (enter g)
    (lastX g) x (firstMouse g) (obj1 g) (obj2 g) (obj3 g) (t1 g) (t2 g) (t3 g)
    (deltaTime g) (windowShouldClose g).
Definition set_firstMouse (x : bool) (g : Globals) : Globals :=
  Build_Globals (cameras g) (currentCamera g) (numberOfCameras g) (position g)
    (up g) (zoom g) (yaw g) (pitch g) (near g) (far g) (tab g) (enter g)
    (lastX g) (lastY g) x (obj1 g) (obj2 g) (obj3 g) (t1 g) (t2 g) (t3 g)
    (deltaTime g) (windowShouldClose g).
Definition set_obj1 (x : bool) (g : Globals) : Globals :=
  Build_Globals (cameras g) (currentCamera g) (numberOfCameras g) (position g)
    (up g) (zoom g) (yaw g) (pitch g) (near g) (far g) (tab g) (enter g)
    (lastX g) (lastY g) (firstMouse g) x (obj2 g) (obj3 g) (t1 g) (t2 g)
    (t3 g) (deltaTime g) (windowShouldClose g).
Definition set_obj2 (x : bool) (g : Globals) : Globals :=
  Build_Globals (cameras g) (currentCamera g) (numberOfCameras g) (position g)
    (up g) (zoom g) (yaw g) (pitch g) (near g) (far g) (tab g) (enter g)
    (lastX g) (lastY g) (firstMouse g) (obj1 g) x (obj3 g) (t1 g) (t2 g)
    (t3 g) (deltaTime g) (windowShouldClose g).
Definition set_obj3 (x : bool) (g : Globals) : Globals :=
  Build_Globals (cameras g) (currentCamera g) (numberOfCameras g) (position g)
    (up g) (zoom g) (yaw g) (pitch g) (near g) (far g) (tab g) (enter g)
    (lastX g) (lastY g) (firstMouse g) (obj1 g) (obj2 g) x (t1 g) (t2 g)
    (t3 g) (deltaTime g) (windowShouldClose g).
Definition set_t1 (x : bool) (g : Globals) : Globals :=
  Build_Globals (cameras g) (currentCamera g) (numberOfCameras g) (position g)
    (up g) (zoom g) (yaw g) (pitch g) (near g) (far g) (tab g) (enter g)
    (lastX g) (lastY g) (firstMouse g) (obj1 g) (obj2 g) (obj3 g) x (t2 g)
    (t3 g) (deltaTime g) (windowShouldClose g).
Definition set_t2 (x : bool) (g : Globals) : Globals :=
  Build_Globals (cameras g) (currentCamera g) (numberOfCameras g) (position g)
    (up g) (zoom g) (yaw g) (pitch g) (near g) (far g) (tab g) (enter g)
    (lastX g) (lastY g) (firstMouse g) (obj1 g) (obj2 g) (obj3 g) (t1 g) x
    (t3 g) (deltaTime g) (windowShouldClose g).
Definition set_t3 (x : bool) (g : Globals) : Globals :=
  Build_Globals (cameras g) (currentCamera g) (numberOfCameras g) (position g)
    (up g) (zoom g) (yaw g) (pitch g) (near g) (far g) (tab g) (enter g)
    (lastX g) (lastY g) (firstMouse g) (obj1 g) (obj2 g) (obj3 g) (t1 g)
    (t2 g) x (deltaTime g) (windowShouldClose g).
Definition set_windowShouldClose (x : bool) (g : Globals) : Globals :=
  Build_Globals (cameras g) (currentCamera g) (numberOfCameras g) (position g)
    (up g) (zoom g) (yaw g) (pitch g) (near g) (far g) (tab g) (enter g)
    (lastX g) (lastY g) (firstMouse g) (obj1 g) (obj2 g) (obj3 g) (t1 g)
    (t2 g) (t3 g) (deltaTime g) x.

(** [cameras[currentCamera].f(...)] *)
Fixpoint assign (i : nat) (c : Camera) (l : list Camera) : list Camera :=
  match l, i with
  | [], _ => []
  | _ :: rest, O => c :: rest
  | x :: rest, S j => x :: assign j c rest
  end.

Definition on_current (f : Camera -> Camera) (g : Globals) : option Globals :=
  let i := Z.to_nat (currentCamera g) in
  match nth_error (cameras g) i with
  | Some c => Some (set_cameras (assign i (f c) (cameras g)) g)
  | None => None
  end.

Definition bind {X Y : Type} (m : option X) (f : X -> option Y) : option Y :=
  match m with
  | Some x => f x
  | None => None
  end.
Local Notation "x <- m ;; k" := (bind m (fun x => k))
  (at level 61, m at next level, right associativity).

Definition changeCamera (g : Globals) : Globals :=
  if (uint (numberOfCameras g - 1) =? currentCamera g)%Z
  then set_currentCamera 0%Z g
  else set_currentCamera (uint (currentCamera g + 1)) g.

Definition createCamera (g : Globals) : Globals :=
  let newCamera :=
    YawPitchConstructor.new_Camera (position g) (up g) (yaw g) (pitch g)
      (zoom g) (near g) (far g) in
  let g := set_cameras (cameras g ++ [newCamera]) g in
  set_numberOfCameras (uint (numberOfCameras g + 1)) g.

Definition v3 (x y z : Z) : vec3 F := V3 (f_of_Z x) (f_of_Z y) (f_of_Z z).

Definition processInput (key : Key -> bool) (g : Globals) : option Globals :=
  let g := if key KEY_ESCAPE then set_windowShouldClose true g else g in
  let g := if key KEY_TAB then set_tab true g else g in
  let g :=
    if negb (key KEY_TAB) && tab g then changeCamera (set_tab false g) else g in
  let g := if key KEY_ENTER then set_enter true g else g in
  let g :=
    if negb (key KEY_ENTER) && enter g
    then createCamera (set_enter false g) else g in
  let g := if key KEY_Q then set_obj1 true g else g in
  let g := if key KEY_E then set_obj2 true g else g in
  let g := if key KEY_R then set_obj3 true g else g in
  g <- (if negb (key KEY_Q) && obj1 g
        then g <- on_current (YawPitch.LookAt (v3 0 10 (-10)) (f_of_Z 0)) g ;;
             Some (set_obj1 false g)
        else Some g) ;;
  g <- (if negb (key KEY_E) && obj2 g
        then g <- on_current (YawPitch.LookAt (v3 0 10 10) (f_of_Z 5)) g ;;
             Some (set_obj2 false g)
        else Some g) ;;
  g <- (if negb (key KEY_R) && obj3 g
        then g <- on_current (YawPitch.LookAt (v3 5 5 5) (f_of_Z 8)) g ;;
             Some (set_obj3 false g)
        else Some g) ;;
  g <- (if key KEY_W
        then on_current (YawPitch.ProcessKeyboard YawPitch.FORWARD (deltaTime g)) g
        else Some g) ;;
  g <- (if key KEY_S
        then on_current (YawPitch.ProcessKeyboard YawPitch.BACKWARD (deltaTime g)) g
        else Some g) ;;
  g <- (if key KEY_A
        then on_current (YawPitch.ProcessKeyboard YawPitch.LEFT (deltaTime g)) g
        else Some g) ;;
  g <- (if key KEY_D
        then on_current (YawPitch.ProcessKeyboard YawPitch.RIGHT (deltaTime g)) g
        else Some g) ;;
  let g := if key KEY_T then set_t1 true g else g in
  let g := if key KEY_Y then set_t2 true g else g in
  let g := if key KEY_U then set_t3 true g else g in
  g <- (if negb (key KEY_T) && t1 g
        then g <- on_current (YawPitch.Translate (v3 0 10 (-10)) (f_of_Z 0)) g ;;
             Some (set_t1 false g)
        else Some g) ;;
  g <- (if negb (key KEY_Y) && t2 g
        then g <- on_current (YawPitch.Translate (v3 0 10 10) (f_of_Z 5)) g ;;
             Some (set_t2 false g)
        else Some g) ;;
  g <- (if negb (key KEY_U) && t3 g
        then g <- on_current (YawPitch.Translate (v3 5 5 5) (f_of_Z 8)) g ;;
             Some (set_t3 false g)
        else Some g) ;;
  g <- (if key KEY_W
        then on_current (YawPitch.ProcessKeyboard YawPitch.FORWARD (deltaTime g)) g
        else Some g) ;;
  g <- (if key KEY_S
        then on_current (YawPitch.ProcessKeyboard YawPitch.BACKWARD (deltaTime g)) g
        else Some g) ;;
  g <- (if key KEY_A
        then on_current (YawPitch.ProcessKeyboard YawPitch.LEFT (deltaTime g)) g
        else Some g) ;;
  if key KEY_D
  then on_current (YawPitch.ProcessKeyboard YawPitch.RIGHT (deltaTime g)) g
  else Some g.

(** The positions are [double]s; the stored ones and the offsets are
    [float]s. *)
Definition mouse_callback (xpos ypos : D) (g : Globals) : option Globals :=
  let g :=
    if firstMouse g
    then set_firstMouse false (set_lastY (narrow ypos) (set_lastX (narrow xpos) g))
    else g in
  let xoffset := narrow (dsub xpos (widen (lastX g))) in
  let yoffset := narrow (dsub (widen (lastY g)) ypos) in
  let g := set_lastY (narrow ypos) (set_lastX (narrow xpos) g) in
  on_current (YawPitch.ProcessMouseMovement xoffset yoffset true) g.

Definition scroll_callback (xoffset yoffset : D) (g : Globals) : option Globals :=
  on_current (YawPitch.ProcessMouseScroll (narrow yoffset)) g.

(** The globals when the render loop of [main] starts: one camera,
    [Camera(glm::vec3(0, 5, 3))]. *)
Definition initial : Globals :=
  Build_Globals
    [YawPitchConstructor.new_Camera (v3 0 5 3) (v3 0 1 0)
       YawPitchConstructor.YAW YawPitchConstructor.PITCH ZOOM NEAR FAR]
    0%Z 1%Z (v3 0 20 3) (v3 0 1 0) (f_of_Z 45) (f_of_Z (-90)) (f_of_Z 0)
    (f_lit 1 100) (f_of_Z 100) false false (f_of_Z 400) (f_of_Z 300) true
    false false false false false false (f_of_Z 0) false.
End Application.

Arguments Globals : clear implicits.
End Main.

(** ** Vocabulary of the statements on [main.cpp] *)

Section MainVocabulary.
Context {F D : Type} {A : Arith F D} {T : Trig F} {TD : TrigD D}.

(** The index and the counter agree with the vector: [cameras[currentCamera]]
    exists. *)
Definition in_bounds (g : Main.Globals F) : Prop :=
  Main.numberOfCameras g = Z.of_nat (length (Main.cameras g)) /\
  (0 <= Main.currentCamera g < Main.numberOfCameras g)%Z /\
  (Main.numberOfCameras g < 4294967296)%Z.

(** The camera [cameras[currentCamera]]. *)
Definition current (g : Main.Globals F) : option (YawPitch.Camera F) :=
  nth_error (Main.cameras g) (Z.to_nat (Main.currentCamera g)).

(** Key states: one key down, no key down. *)
Definition Key_index (k : Main.Key) : nat :=
  match k with
  | Main.KEY_ESCAPE => 0 | Main.KEY_TAB => 1 | Main.KEY_ENTER => 2
  | Main.KEY_Q => 3 | Main.KEY_E => 4 | Main.KEY_R => 5
  | Main.KEY_W => 6 | Main.KEY_S => 7 | Main.KEY_A => 8 | Main.KEY_D => 9
  | Main.KEY_T => 10 | Main.KEY_Y => 11 | Main.KEY_U => 12
  end.
Definition only (k : Main.Key) : Main.Key -> bool :=
  fun k' => Nat.eqb (Key_index k) (Key_index k').
Definition no_key : Main.Key -> bool := fun _ => false.

(** The command each of the six command keys stands for, the direction of
    each of the four movement keys, and the latch of each key. *)
Definition command_of (k : Main.Key) : option (YawPitch.Camera F -> YawPitch.Camera F) :=
  match k with
  | Main.KEY_Q => Some (YawPitch.LookAt (Main.v3 0 10 (-10)) (f_of_Z 0))
  | Main.KEY_E => Some (YawPitch.LookAt (Main.v3 0 10 10) (f_of_Z 5))
  | Main.KEY_R => Some (YawPitch.LookAt (Main.v3 5 5 5) (f_of_Z 8))
  | Main.KEY_T => Some (YawPitch.Translate (Main.v3 0 10 (-10)) (f_of_Z 0))
  | Main.KEY_Y => Some (YawPitch.Translate (Main.v3 0 10 10) (f_of_Z 5))
  | Main.KEY_U => Some (YawPitch.Translate (Main.v3 5 5 5) (f_of_Z 8))
  | _ => None
  end.
Definition movement_of (k : Main.Key) : option YawPitch.Camera_Movement :=
  match k with
  | Main.KEY_W => Some YawPitch.FORWARD
  | Main.KEY_S => Some YawPitch.BACKWARD
  | Main.KEY_A => Some YawPitch.LEFT
  | Main.KEY_D => Some YawPitch.RIGHT
  | _ => None
  end.
Definition latch (k : Main.Key) (g : Main.Globals F) : bool :=
  match k with
  | Main.KEY_TAB => Main.tab g
  | Main.KEY_ENTER => Main.enter g
  | Main.KEY_Q => Main.obj1 g
  | Main.KEY_E => Main.obj2 g
  | Main.KEY_R => Main.obj3 g
  | Main.KEY_T => Main.t1 g
  | Main.KEY_Y => Main.t2 g
  | Main.KEY_U => Main.t3 g
  | _ => false
  end.
Definition unlatched (g : Main.Globals F) : Prop := forall k, latch k g = false.

(** The state of the globals before and after the [ENTER] part of
    [processInput], which may add one camera to the [n] there were. *)
Definition before_enter (n : nat) (g : Main.Globals F) : Prop :=
  in_bounds g /\ (Main.numberOfCameras g + 1 < 4294967296)%Z /\
  length (Main.cameras g) = n.
Definition after_enter (n : nat) (g : Main.Globals F) : Prop :=
  in_bounds g /\ (n <= length (Main.cameras g) <= n + 1)%nat.
End MainVocabulary.

(** ** Vocabulary of the statements on frames and runs *)

Section FrameVocabulary.
Context {F D : Type} {A : Arith F D} {T : Trig F} {TD : TrigD D}.

(** The fields no step function assigns, and the three vectors of the
    orientation. *)
Definition options_of (c : Camera F) :=
  (WorldUp c, MovementSpeed c, MouseSensitivity c, Zoom c, Near c, Far c,
   noiseActive c).
Definition orientation_of (c : Camera F) := (Front c, Right c, Up c).

(** The matrix [ProcessRP] builds: translate to the point, rotate, translate
    back. *)
Definition rp_matrix (r : rotationRP F) (angle : F) (axis : vec3 F) : mat4 F :=
  glm_translate (glm_rotate (glm_translate mat4_identity (rp_Point r)) angle axis)
    (vneg (rp_Point r)).
End FrameVocabulary.

(** ** Vocabulary of the statements on runs of one command *)

Section RunVocabulary.
Context {F D : Type} {A : Arith F D} {T : Trig F}.

(** The two states of a camera on which only the translation lane works:
    the command that goes from [start] to [P] between the times [t0] and
    [t1] is in the slot; or the slot has ended and the camera stands at
    [P].  [q] is what is left in the queue. *)
Definition translating (q : list (translation F)) (start P : vec3 F) (t0 t1 : F)
    (c : Camera F) : Prop :=
  (forall j, j <> KTranslation -> lane_idle j c) /\
  translationQueue c = q /\
  currTranslation c = Build_translation start P t0 t1 false.
Definition arrived (q : list (translation F)) (P : vec3 F) (c : Camera F) : Prop :=
  (forall j, j <> KTranslation -> lane_idle j c) /\
  translationQueue c = q /\
  tr_Ended (currTranslation c) = true /\
  Position c = P.

(** The two states of a camera on which only the look-at lane works, the
    camera standing at [P0] with the world up [W]: the command that turns
    the front from [f0] to [nf] between the times [t0] and [t1] is in the
    slot; or the slot has ended and the front is [f], with right and up
    derived from it. *)
Definition looking (P f0 nf : vec3 F) (t0 t1 : F) (P0 W : vec3 F) (c : Camera F)
    : Prop :=
  (forall j, j <> KLookAt -> lane_idle j c) /\
  lookAtQueue c = [] /\ Position c = P0 /\ WorldUp c = W /\
  currLookAt c = Build_lookAt P f0 nf t0 t1 false.
Definition aimed (f P0 W : vec3 F) (c : Camera F) : Prop :=
  (forall j, j <> KLookAt -> lane_idle j c) /\
  lookAtQueue c = [] /\ Position c = P0 /\ WorldUp c = W /\
  la_Ended (currLookAt c) = true /\
  Front c = f /\ Right c = normalize (cross f W) /\
  Up c = normalize (cross (Right c) f).
End RunVocabulary.

(** * Proofs *)

(** Case analysis on the innermost test of the goal. *)
Ltac break_inner :=
  match goal with
  | |- context [match ?x with _ => _ end] =>
      lazymatch x with
      | context [match _ with _ => _ end] => fail
      | _ => destruct x eqn:?
      end
  end.

Ltac unfold_steps :=
  unfold Process, ProcessBSPline, fetchBSpline, stepBSpline,
    ProcessBezier, fetchBezier, stepBezier,
    processTranslation, fetchTranslation, stepTranslation,
    ProcessRP, fetchRP, stepRP, ProcessRA, fetchRA, stepRA,
    ProcessLookAt, fetchLookAt, stepLookAt in *.

(** ** The lanes are independent of each other *)

Section Lanes.
Context {F D : Type} {A : Arith F D} {T : Trig F} {TD : TrigD D}.
Lemma other_lane k j (c : Camera F) : k <> j -> lane j (Process k c) = lane j c.
Proof.
  intros Hkj.
  destruct k, j; try congruence; clear Hkj; unfold lane; unfold_steps;
  repeat break_inner; try discriminate; try reflexivity.
Qed.

Lemma lane_set_currTime k t (c : Camera F) : lane k (set_currTime t c) = lane k c.
Proof. destruct k; reflexivity. Qed.

Lemma map_eq_nil_inv {X Y} (f : X -> Y) l : map f l = [] -> l = [].
Proof. destruct l; [reflexivity | discriminate]. Qed.

Lemma Process_idle k (c : Camera F) : lane_idle k c -> Process k c = c.
Proof.
  intros [He Hq].
  destruct k; cbn in He, Hq; apply map_eq_nil_inv in Hq; unfold_steps;
    rewrite He, Hq; reflexivity.
Qed.

Lemma Process_active k (c : Camera F) :
  ended (current_of k c) = false ->
  queue_of k (Process k c) = queue_of k c /\
  same_request (current_of k (Process k c)) (current_of k c).
Proof.
  intros He.
  destruct k; cbn in He; unfold_steps; rewrite He;
    repeat break_inner; cbn; repeat split; reflexivity.
Qed.

Lemma Process_dequeue k (c : Camera F) a q :
  ended (current_of k c) = true ->
  queue_of k c = a :: q ->
  queue_of k (Process k c) = q /\
  same_request (current_of k (Process k c)) a.
Proof.
  intros He Hq.
  destruct k; cbn in He, Hq; unfold_steps; rewrite He;
    (break_inner; [discriminate|]); cbn in Hq; injection Hq as <- <-;
    repeat break_inner; cbn; repeat split; reflexivity.
Qed.

Lemma frame_lane k tnow (c : Camera F) :
  exists c', lane k c' = lane k c /\ lane k (frame tnow c) = lane k (Process k c').
Proof.
  unfold frame, GetViewMatrix, ProcessTransformations; cbn [fst].
  set (c0 := set_currTime tnow c).
  set (c1 := ProcessBSPline c0). set (c2 := ProcessBezier c1).
  set (c3 := processTranslation c2). set (c4 := ProcessRP c3).
  set (c5 := ProcessRA c4).
  assert (H0 : forall j, lane j c0 = lane j c) by (intro; apply lane_set_currTime).
  assert (H1 : forall j, KBSpline <> j -> lane j c1 = lane j c0)
    by (intros j Hj; exact (@other_lane KBSpline j c0 Hj)).
  assert (H2 : forall j, KBezier <> j -> lane j c2 = lane j c1)
    by (intros j Hj; exact (@other_lane KBezier j c1 Hj)).
  assert (H3 : forall j, KTranslation <> j -> lane j c3 = lane j c2)
    by (intros j Hj; exact (@other_lane KTranslation j c2 Hj)).
  assert (H4 : forall j, KRP <> j -> lane j c4 = lane j c3)
    by (intros j Hj; exact (@other_lane KRP j c3 Hj)).
  assert (H5 : forall j, KRA <> j -> lane j c5 = lane j c4)
    by (intros j Hj; exact (@other_lane KRA j c4 Hj)).
  assert (H6 : forall j, KLookAt <> j -> lane j (ProcessLookAt c5) = lane j c5)
    by (intros j Hj; exact (@other_lane KLookAt j c5 Hj)).
  destruct k.
  - exists c0. split; [apply H0|].
    rewrite H6, H5, H4, H3, H2 by discriminate. reflexivity.
  - exists c1. split; [rewrite H1, H0 by discriminate; reflexivity|].
    rewrite H6, H5, H4, H3 by discriminate. reflexivity.
  - exists c2. split; [rewrite H2, H1, H0 by discriminate; reflexivity|].
    rewrite H6, H5, H4 by discriminate. reflexivity.
  - exists c3. split; [rewrite H3, H2, H1, H0 by discriminate; reflexivity|].
    rewrite H6, H5 by discriminate. reflexivity.
  - exists c4. split; [rewrite H4, H3, H2, H1, H0 by discriminate; reflexivity|].
    rewrite H6 by discriminate. reflexivity.
  - exists c5. split; [rewrite H5, H4, H3, H2, H1, H0 by discriminate; reflexivity|].
    reflexivity.
Qed.

Lemma lane_idle_ext k (c c' : Camera F) : lane k c' = lane k c -> lane_idle k c -> lane_idle k c'.
Proof.
  unfold lane, lane_idle. intros H [He Hq]. injection H as Hq' Hc'.
  rewrite Hq', Hc'. auto.
Qed.

Lemma ProcessTransformations_idle tnow (c : Camera F) :
  idle c -> ProcessTransformations tnow c = set_currTime tnow c.
Proof.
  intros Hi. unfold ProcessTransformations.
  assert (H0 : forall k, lane_idle k (set_currTime tnow c)).
  { intro k. apply lane_idle_ext with (c := c); [apply lane_set_currTime | apply Hi]. }
  rewrite (Process_idle (H0 KBSpline) : ProcessBSPline _ = _).
  rewrite (Process_idle (H0 KBezier) : ProcessBezier _ = _).
  rewrite (Process_idle (H0 KTranslation) : processTranslation _ = _).
  rewrite (Process_idle (H0 KRP) : ProcessRP _ = _).
  rewrite (Process_idle (H0 KRA) : ProcessRA _ = _).
  exact (Process_idle (H0 KLookAt)).
Qed.

Lemma frame_active k tnow (c : Camera F) :
  ended (current_of k c) = false ->
  queue_of k (frame tnow c) = queue_of k c /\
  same_request (current_of k (frame tnow c)) (current_of k c).
Proof.
  intros He. destruct (frame_lane k tnow c) as (c' & Hc' & Hf).
  unfold lane in Hc', Hf. injection Hc' as Hq Hc. injection Hf as Hfq Hfc.
  rewrite Hfq, Hfc, <- Hq, <- Hc. apply Process_active. rewrite Hc. exact He.
Qed.

Lemma frame_dequeue k tnow (c : Camera F) a q :
  ended (current_of k c) = true -> queue_of k c = a :: q ->
  queue_of k (frame tnow c) = q /\
  same_request (current_of k (frame tnow c)) a.
Proof.
  intros He Hq0. destruct (frame_lane k tnow c) as (c' & Hc' & Hf).
  unfold lane in Hc', Hf. injection Hc' as Hq Hc. injection Hf as Hfq Hfc.
  rewrite Hfq, Hfc. apply Process_dequeue; congruence.
Qed.

Lemma frame_lane_idle k tnow (c : Camera F) : lane_idle k c -> lane k (frame tnow c) = lane k c.
Proof.
  intros Hi. destruct (frame_lane k tnow c) as (c' & Hc' & Hf).
  rewrite Hf, Process_idle; [exact Hc' | exact (lane_idle_ext Hc' Hi)].
Qed.

Lemma enqueue_call_lane k x (c c' : Camera F) :
  enqueue_call k x c c' ->
  queue_of k c' = queue_of k c ++ [x] /\ current_of k c' = current_of k c.
Proof.
  destruct 1; cbn; rewrite map_app; split; reflexivity.
Qed.

Lemma same_request_trans (x y z : command F) :
  same_request x y -> same_request y z -> same_request x z.
Proof.
  destruct x, y, z; cbn; try tauto; intuition congruence.
Qed.

Lemma run_snoc ts t (c : Camera F) : run (ts ++ [t]) c = frame t (run ts c).
Proof. unfold run. rewrite fold_left_app. reflexivity. Qed.

Lemma fifo_phase_frame k a b t (c : Camera F) :
  fifo_phase k a b c -> fifo_phase k a b (frame t c).
Proof.
  intros [[Hq He] | [[Hq Hs] | [Hq Hs]]].
  - right; left. destruct (frame_dequeue k t c He Hq) as [Hq' Hs']. auto.
  - destruct (ended (current_of k c)) eqn:He.
    + right; right. destruct (frame_dequeue k t c He Hq) as [Hq' Hs']. auto.
    + right; left. destruct (frame_active k t c He) as [Hq' Hs'].
      split; [congruence | exact (same_request_trans _ _ _ Hs' Hs)].
  - right; right. destruct (ended (current_of k c)) eqn:He.
    + assert (Hl := frame_lane_idle t (conj He Hq)).
      unfold lane in Hl. injection Hl as Hq' Hc'. rewrite Hq', Hc'. auto.
    + destruct (frame_active k t c He) as [Hq' Hs'].
      split; [congruence | exact (same_request_trans _ _ _ Hs' Hs)].
Qed.

Lemma lane_idle_other k j (c : Camera F) :
  k <> j -> lane_idle j c -> lane_idle j (Process k c).
Proof. intros Hkj. apply lane_idle_ext, other_lane, Hkj. Qed.

Lemma ProcessBSPline_idle (c : Camera F) : lane_idle KBSpline c -> ProcessBSPline c = c.
Proof. exact (@Process_idle KBSpline c). Qed.
Lemma ProcessBezier_idle (c : Camera F) : lane_idle KBezier c -> ProcessBezier c = c.
Proof. exact (@Process_idle KBezier c). Qed.
Lemma processTranslation_idle (c : Camera F) :
  lane_idle KTranslation c -> processTranslation c = c.
Proof. exact (@Process_idle KTranslation c). Qed.
Lemma ProcessRP_idle (c : Camera F) : lane_idle KRP c -> ProcessRP c = c.
Proof. exact (@Process_idle KRP c). Qed.
Lemma ProcessRA_idle (c : Camera F) : lane_idle KRA c -> ProcessRA c = c.
Proof. exact (@Process_idle KRA c). Qed.
Lemma ProcessLookAt_idle (c : Camera F) : lane_idle KLookAt c -> ProcessLookAt c = c.
Proof. exact (@Process_idle KLookAt c). Qed.

Lemma frame_only_lane k tnow (c : Camera F) :
  (forall j, j <> k -> lane_idle j c) ->
  frame tnow c = Process k (set_currTime tnow c).
Proof.
  intros Hi. unfold frame, GetViewMatrix, ProcessTransformations; cbn [fst].
  assert (H0 : forall j, j <> k -> lane_idle j (set_currTime tnow c)).
  { intros j Hj. apply lane_idle_ext with (c := c); [apply lane_set_currTime | auto]. }
  clear Hi. revert H0. generalize (set_currTime tnow c). clear c. intros c H0.
  assert (H1 : forall j, j <> k -> lane_idle j (Process k c)).
  { intros j Hj. apply lane_idle_other; auto. }
  destruct k; cbn [Process] in *;
    repeat first
      [ rewrite ProcessBSPline_idle by (first [apply H0 | apply H1]; discriminate)
      | rewrite ProcessBezier_idle by (first [apply H0 | apply H1]; discriminate)
      | rewrite processTranslation_idle by (first [apply H0 | apply H1]; discriminate)
      | rewrite ProcessRP_idle by (first [apply H0 | apply H1]; discriminate)
      | rewrite ProcessRA_idle by (first [apply H0 | apply H1]; discriminate)
      | rewrite ProcessLookAt_idle by (first [apply H0 | apply H1]; discriminate) ];
    reflexivity.
Qed.
Lemma fifo_phase_run k a b ts (c : Camera F) :
  fifo_phase k a b c -> fifo_phase k a b (run ts c).
Proof.
  intros H. induction ts as [| t ts IH] using rev_ind; [exact H|].
  rewrite run_snoc. apply fifo_phase_frame, IH.
Qed.
End Lanes.

(** ** Translation *)

Lemma processTranslation_active {F D} {A : Arith F D} (c : Camera F) :
  tr_Ended (currTranslation c) = false ->
  let t := currTranslation c in
  let p := capped (percentage_of (currTime c) (tr_InicialTime t) (tr_FinalTime t)) in
  let c' := processTranslation c in
  Position c' = interpolate (tr_InicialPosition t) (tr_Position t) p /\
  tr_InicialPosition (currTranslation c') = tr_InicialPosition t /\
  tr_Position (currTranslation c') = tr_Position t /\
  tr_InicialTime (currTranslation c') = tr_InicialTime t /\
  tr_FinalTime (currTranslation c') = tr_FinalTime t.
Proof.
  intros He. cbv zeta. unfold processTranslation, fetchTranslation. rewrite He.
  unfold stepTranslation. destruct (reached _); repeat split; reflexivity.
Qed.

Lemma processTranslation_dequeue {F D} {A : Arith F D} (c : Camera F) t rest :
  tr_Ended (currTranslation c) = true ->
  translationQueue c = t :: rest ->
  let p := capped (percentage_of (currTime c) (currTime c)
                     (fadd (tr_FinalTime t) (currTime c))) in
  let c' := processTranslation c in
  Position c' = interpolate (Position c) (tr_Position t) p /\
  tr_InicialPosition (currTranslation c') = Position c /\
  tr_Position (currTranslation c') = tr_Position t /\
  tr_InicialTime (currTranslation c') = currTime c /\
  tr_FinalTime (currTranslation c') = fadd (tr_FinalTime t) (currTime c).
Proof.
  intros He Hq. cbv zeta. unfold processTranslation, fetchTranslation. rewrite He, Hq.
  unfold stepTranslation. cbn. destruct (reached _); repeat split; reflexivity.
Qed.

Lemma yp_processTranslation_active {F D} {A : Arith F D} (c : YawPitch.Camera F) :
  YawPitch.tr_Ended (YawPitch.currTranslation c) = false ->
  let t := YawPitch.currTranslation c in
  let p := capped (percentage_of (YawPitch.currTime c) (YawPitch.tr_InicialTime t)
                     (YawPitch.tr_FinalTime t)) in
  let c' := YawPitch.processTranslation c in
  YawPitch.Position c' =
    interpolate (YawPitch.tr_InicialPosition t) (YawPitch.tr_Position t) p /\
  YawPitch.tr_InicialPosition (YawPitch.currTranslation c') = YawPitch.tr_InicialPosition t /\
  YawPitch.tr_Position (YawPitch.currTranslation c') = YawPitch.tr_Position t /\
  YawPitch.tr_InicialTime (YawPitch.currTranslation c') = YawPitch.tr_InicialTime t /\
  YawPitch.tr_FinalTime (YawPitch.currTranslation c') = YawPitch.tr_FinalTime t.
Proof.
  intros He. cbv zeta. unfold YawPitch.processTranslation, YawPitch.fetchTranslation.
  rewrite He. unfold YawPitch.stepTranslation.
  destruct (reached _); repeat split; reflexivity.
Qed.

Lemma yp_processTranslation_dequeue {F D} {A : Arith F D} (c : YawPitch.Camera F) t rest :
  YawPitch.tr_Ended (YawPitch.currTranslation c) = true ->
  YawPitch.translationQueue c = t :: rest ->
  let p := capped (percentage_of (YawPitch.currTime c) (YawPitch.currTime c)
                     (fadd (YawPitch.tr_FinalTime t) (YawPitch.currTime c))) in
  let c' := YawPitch.processTranslation c in
  YawPitch.Position c' = interpolate (YawPitch.Position c) (YawPitch.tr_Position t) p /\
  YawPitch.tr_InicialPosition (YawPitch.currTranslation c') = YawPitch.Position c /\
  YawPitch.tr_Position (YawPitch.currTranslation c') = YawPitch.tr_Position t /\
  YawPitch.tr_InicialTime (YawPitch.currTranslation c') = YawPitch.currTime c /\
  YawPitch.tr_FinalTime (YawPitch.currTranslation c') =
    fadd (YawPitch.tr_FinalTime t) (YawPitch.currTime c).
Proof.
  intros He Hq. cbv zeta. unfold YawPitch.processTranslation, YawPitch.fetchTranslation.
  rewrite He, Hq. unfold YawPitch.stepTranslation. cbn.
  destruct (reached _); repeat split; reflexivity.
Qed.

(** ** Real arithmetic *)

Ltac R_arith :=
  cbv [f_of_Z f_lit fadd fsub fmul fdiv fneg fsqrt fleb fltb feqb widen narrow
       d_lit dsub dmul dleb dpow fcos fsin dcos dsin RArith RTrig RTrigD fone fzero
       R_lit] in *.

Section RealArithmetic.
Local Open Scope R_scope.

Lemma Rleb_true x y : Rleb x y = true <-> x <= y.
Proof. unfold Rleb. destruct (Rle_dec x y); split; (congruence || tauto). Qed.
Lemma Rleb_false x y : Rleb x y = false <-> y < x.
Proof. unfold Rleb. destruct (Rle_dec x y); split; intros; (congruence || lra). Qed.

Lemma reached_R (p : R) : reached p = true <-> 1 <= p.
Proof. unfold reached. R_arith. apply Rleb_true. Qed.
Lemma not_reached_R (p : R) : reached p = false <-> p < 1.
Proof. unfold reached. R_arith. apply Rleb_false. Qed.
Lemma percentage_of_R (tnow t0 t1 : R) :
  percentage_of tnow t0 t1 = (tnow - t0) / (t1 - t0).
Proof. reflexivity. Qed.

Lemma vec3_eq {X} (a b : vec3 X) :
  vx a = vx b -> vy a = vy b -> vz a = vz b -> a = b.
Proof. destruct a, b; cbn; congruence. Qed.

Lemma translate_example (t0 : R) (c : Camera R) :
  idle c -> Position c = V3 0 5 3 ->
  Position (run [t0; t0 + 4] (Translate (V3 5 5 5) 8 c)) = V3 (5/2) 5 4.
Proof.
  intros Hi HP.
  assert (He : tr_Ended (currTranslation c) = true) by apply (Hi KTranslation).
  assert (Hq : translationQueue c = []).
  { apply map_eq_nil_inv with (f := @TranslationCmd R). apply (Hi KTranslation). }
  set (c1 := Translate (V3 5 5 5) 8 c).
  assert (Hi1 : forall j, j <> KTranslation -> lane_idle j c1).
  { intros j Hj. apply lane_idle_ext with (c := c); [|apply Hi].
    destruct j; try reflexivity. congruence. }
  unfold run; cbn [fold_left].
  rewrite (frame_only_lane (k := KTranslation) t0 Hi1).
  set (c2 := Process KTranslation (set_currTime t0 c1)).
  assert (Hi2 : forall j, j <> KTranslation -> lane_idle j c2).
  { intros j Hj. apply lane_idle_other; [congruence|].
    apply lane_idle_ext with (c := c1); [apply lane_set_currTime | auto]. }
  rewrite (frame_only_lane (k := KTranslation) (t0 + 4) Hi2).
  assert (Hc2 : currTranslation c2 = Build_translation (V3 0 5 3) (V3 5 5 5) t0 (8 + t0) false
                /\ translationQueue c2 = []).
  { subst c2 c1. cbn [Process]. unfold processTranslation, fetchTranslation, Translate.
    cbn [currTranslation set_currTime set_translationQueue translationQueue tr_Ended].
    rewrite He, Hq. cbn [app].
    unfold stepTranslation.
    cbn [currTranslation set_currTranslation set_translationQueue set_currTime currTime
         tr_InicialTime tr_FinalTime tr_Position tr_InicialPosition Position].
    assert (Hr : reached (percentage_of t0 t0 (8 + t0)%flt) = false).
    { apply not_reached_R. rewrite percentage_of_R. R_arith.
      replace (t0 - t0) with 0 by ring. unfold Rdiv. rewrite Rmult_0_l. lra. }
    rewrite Hr. cbn. rewrite HP. split; try reflexivity. }
  destruct Hc2 as [Hc2 Hq2].
  cbn [Process]. unfold processTranslation, fetchTranslation.
  cbn [currTranslation set_currTime]. rewrite Hc2. cbn [tr_Ended].
  unfold stepTranslation. cbn [currTranslation set_currTime currTime].
  rewrite Hc2.
  cbn [tr_InicialTime tr_FinalTime tr_Position tr_InicialPosition].
  assert (Hp : percentage_of (t0 + 4) t0 (8 + t0) = 1 / 2).
  { rewrite percentage_of_R.
    replace (t0 + 4 - t0) with 4 by ring. replace (8 + t0 - t0) with 8 by ring. lra. }
  unfold capped. rewrite Hp.
  assert (Hr : reached (1 / 2 : R) = false) by (apply not_reached_R; lra).
  rewrite Hr. cbn [set_Position Position].
  unfold vadd, svmul, vsub; cbn [vx vy vz]. R_arith.
  apply vec3_eq; cbn [vx vy vz]; field.
Qed.
End RealArithmetic.

Lemma translate_example32 (T : Trig spec_float) :
  Position (run [b32_of_Z 16; b32_of_Z 20]
               (Translate (v32 5 5 5) (b32_of_Z 8) camera32))
  = V3 (b32_lit 25 10) (b32_of_Z 5) (b32_of_Z 4).
Proof. vm_compute; reflexivity. Qed.

(** ** Geometry over the reals *)

Ltac vec_R :=
  unfold unit_vec, orthogonal, normalize, inversesqrt, dot, cross, vsmul, svmul,
    vadd, vsub, vsdiv, vneg, vec3_of in *;
  cbn [vx vy vz] in *; R_arith.

Section RealGeometry.
Local Open Scope R_scope.
Local Abbreviation vec := (vec3 R).

Lemma normalize_of_unit (v : vec) : unit_vec v -> normalize v = v.
Proof.
  intros Hu. destruct v as [x y z]. vec_R. rewrite Hu, sqrt_1.
  f_equal; field.
Qed.

Lemma catmullRom_0 (a b c d : vec) : catmullRom a b c d 0 = b.
Proof.
  destruct a, b, c, d. unfold catmullRom. vec_R. f_equal; field.
Qed.

Lemma catmullRom_1 (a b c d : vec) : catmullRom a b c d 1 = c.
Proof.
  destruct a, b, c, d. unfold catmullRom. vec_R. f_equal; field.
Qed.

Lemma interpolate_1 (a b : vec) : interpolate a b 1 = b.
Proof. destruct a, b. unfold interpolate. vec_R. f_equal; ring. Qed.

End RealGeometry.

(** ** The basis *)

Section Basis.
Context {F D : Type} {A : Arith F D} {T : Trig F} {TD : TrigD D}.

Lemma updateCameraVectors_basis (c : Camera F) : basis_ok (updateCameraVectors c).
Proof. split; reflexivity. Qed.

Lemma new_Camera_basis position up front zoom near far :
  basis_ok (new_Camera position up front zoom near far).
Proof. apply updateCameraVectors_basis. Qed.

Lemma frame_eq tnow (c : Camera F) :
  frame tnow c =
  ProcessLookAt (ProcessRA (ProcessRP (processTranslation
    (ProcessBezier (ProcessBSPline (set_currTime tnow c)))))).
Proof. reflexivity. Qed.

End Basis.

Lemma ProcessRA_pose {F D} {A : Arith F D} {T : Trig F} (c c1 : Camera F) :
  fetchRA c = Some c1 ->
  let r := currRA c1 in
  let angle :=
    fmul (ra_Angle r)
      (capped (percentage_of (currTime c1) (ra_InicialTime r) (ra_FinalTime r))) in
  let rot v :=
    xyz (vec4_mul_mat4 (vec4_of v fone) (glm_rotate mat4_identity angle (ra_Axis r))) in
  let c' := ProcessRA c in
  Position c' = ra_InicialPosition r /\
  Front c' =
    normalize (vsub (rot (vadd (ra_InicialPosition r) (ra_InicialFront r)))
                    (rot (ra_InicialPosition r))) /\
  Right c' = normalize (cross (Front c') (WorldUp c)) /\
  Up c' = normalize (cross (Right c') (Front c')) /\
  (ra_Ended (currRA c) = true ->
     ra_InicialPosition r = Position c /\ ra_InicialFront r = Front c /\
     ra_InicialUp r = Up c) /\
  (ra_Ended (currRA c) = false -> r = currRA c).
Proof.
  intros Hf r angle rot c'.
  assert (Hw : WorldUp c1 = WorldUp c /\
               (ra_Ended (currRA c) = true ->
                ra_InicialPosition r = Position c /\ ra_InicialFront r = Front c /\
                ra_InicialUp r = Up c) /\
               (ra_Ended (currRA c) = false -> r = currRA c)).
  { subst r. unfold fetchRA in Hf. destruct (ra_Ended (currRA c)).
    - destruct (rotationRAQueue c); [discriminate|]. injection Hf as <-.
      repeat split; intros; try reflexivity; discriminate.
    - injection Hf as <-. repeat split; intros; try reflexivity; discriminate. }
  destruct Hw as (Hw & H1 & H2).
  subst c'. unfold ProcessRA. rewrite Hf. unfold stepRA. fold r. fold angle.
  rewrite <- Hw.
  destruct (reached _); unfold applyRA, updateCameraVectors;
    cbn [Position Front Up Right WorldUp set_Position set_Front set_Up set_Right set_currRA];
    repeat split; try reflexivity; auto; apply H1; assumption.
Qed.

(** ** Rotation about the viewing axis *)

Lemma cameraR_idle : idle cameraR.
Proof. intros []; split; reflexivity. Qed.

Ltac cam_simpl :=
  cbn [Position Front Up Right WorldUp MovementSpeed MouseSensitivity Zoom Near Far
       noiseActive currTime lookAtQueue translationQueue rotationRPQueue
       rotationRAQueue bSplineQueue bezierQueue currLookAt currTranslation currRP
       currRA currBSpline currBezier
       set_Position set_Front set_Up set_Right set_currTime set_lookAtQueue
       set_translationQueue set_rotationRPQueue set_rotationRAQueue set_bSplineQueue
       set_bezierQueue set_currLookAt set_currTranslation set_currRP set_currRA
       set_currBSpline set_currBezier
       la_Position la_InicialFront la_FinalFront la_InicialTime la_FinalTime la_Ended
       tr_InicialPosition tr_Position tr_InicialTime tr_FinalTime tr_Ended
       rp_Point rp_Angle rp_InicialTime rp_FinalTime rp_InicialFront
       rp_InicialPosition rp_InicialUp rp_Ended
       ra_Axis ra_Angle ra_InicialTime ra_FinalTime ra_InicialFront
       ra_InicialPosition ra_InicialUp ra_Ended
       sp_p0 sp_p1 sp_p2 sp_p3 sp_InicialTime sp_Time sp_Ended
       la_set_Ended tr_set_Ended rp_set_Ended ra_set_Ended sp_set_Ended app] in *.

Section Roll.
Local Open Scope R_scope.

Lemma unit_back : unit_vec (V3 0 0 (-1) : vec3 R).
Proof. vec_R. ring. Qed.
Lemma unit_x : unit_vec (V3 1 0 0 : vec3 R).
Proof. vec_R. ring. Qed.
Lemma unit_y : unit_vec (V3 0 1 0 : vec3 R).
Proof. vec_R. ring. Qed.

Lemma updateCameraVectors_level (c : Camera R) :
  Front c = V3 0 0 (-1) -> WorldUp c = V3 0 1 0 ->
  Front (updateCameraVectors c) = V3 0 0 (-1) /\
  Right (updateCameraVectors c) = V3 1 0 0 /\
  Up (updateCameraVectors c) = V3 0 1 0.
Proof.
  intros HF HW. unfold updateCameraVectors.
  cbn [Position Front Up Right WorldUp set_Position set_Front set_Up set_Right].
  rewrite HF, HW. rewrite (normalize_of_unit unit_back).
  assert (E1 : cross (V3 0 0 (-1)) (V3 0 1 0) = (V3 1 0 0 : vec3 R))
    by (vec_R; f_equal; ring).
  rewrite E1, (normalize_of_unit unit_x).
  assert (E2 : cross (V3 1 0 0) (V3 0 0 (-1)) = (V3 0 1 0 : vec3 R))
    by (vec_R; f_equal; ring).
  rewrite E2, (normalize_of_unit unit_y).
  repeat split; reflexivity.
Qed.

Lemma cameraR_pose :
  Position cameraR = V3 0 5 3 /\ Front cameraR = V3 0 0 (-1) /\
  Right cameraR = V3 1 0 0 /\ Up cameraR = V3 0 1 0 /\ WorldUp cameraR = V3 0 1 0.
Proof.
  unfold cameraR, new_Camera.
  match goal with |- context [updateCameraVectors ?c] =>
    destruct (@updateCameraVectors_level c eq_refl eq_refl) as (H1 & H2 & H3) end.
  rewrite H1, H2, H3. repeat split; reflexivity.
Qed.

(** The rotation of [applyRA] about the viewing axis [(0,0,-1)]: whatever
    the angle, the front it computes is the front it started from. *)
Lemma applyRA_roll (r : rotationRA R) (angle : R) (c : Camera R) :
  ra_Axis r = V3 0 0 (-1) -> ra_InicialFront r = V3 0 0 (-1) ->
  WorldUp c = V3 0 1 0 ->
  let c' := applyRA r angle c in
  Position c' = ra_InicialPosition r /\
  Front c' = V3 0 0 (-1) /\ Right c' = V3 1 0 0 /\ Up c' = V3 0 1 0.
Proof.
  intros HA HF HW c'. subst c'. unfold applyRA.
  match goal with |- context [updateCameraVectors ?x] => set (c5 := x) end.
  assert (H5 : Front c5 = V3 0 0 (-1)).
  { subst c5. cbn [Position Front Up Right WorldUp set_Position set_Front set_Up set_Right].
    rewrite HA, HF. destruct (ra_InicialPosition r) as [px py pz].
    unfold glm_rotate. rewrite (normalize_of_unit unit_back).
    unfold vec4_mul_mat4, v4dotcol, xyz, vec4_of, mat4_identity, v4add, v4smul.
    cbn [col0 col1 col2 col3 wx wy wz ww]. vec_R. cbn [wx wy wz ww vx vy vz].
    f_equal; ring. }
  assert (HW5 : WorldUp c5 = V3 0 1 0) by exact HW.
  destruct (updateCameraVectors_level c5 H5 HW5) as (H1 & H2 & H3).
  rewrite H1, H2, H3. repeat split; reflexivity.
Qed.
End Roll.

Section RollRun.
Local Open Scope R_scope.

Lemma applyRA_frame (r : rotationRA R) angle (c : Camera R) :
  currRA (applyRA r angle c) = currRA c /\
  rotationRAQueue (applyRA r angle c) = rotationRAQueue c /\
  WorldUp (applyRA r angle c) = WorldUp c.
Proof. repeat split; reflexivity. Qed.

Lemma enqueue_other_lanes k x (c c' : Camera R) j :
  enqueue_call k x c c' -> j <> k -> lane j c' = lane j c.
Proof. destruct 1; destruct j; intros Hj; try reflexivity; congruence. Qed.

Lemma roll_first_frame (c : Camera R) :
  lane_idle KRA c -> Front c = V3 0 0 (-1) -> WorldUp c = V3 0 1 0 ->
  let c' := ProcessRA (set_currTime 0 (rotateRA (V3 0 0 (-1)) 1 2 c)) in
  currRA c' = roll_cmd (Position c) (Up c) /\ WorldUp c' = V3 0 1 0 /\
  Position c' = Position c /\ Front c' = V3 0 0 (-1) /\ Right c' = V3 1 0 0 /\
  Up c' = V3 0 1 0.
Proof.
  intros [He Hq] HF HW c'. cbn in He, Hq. apply map_eq_nil_inv in Hq.
  set (c1 := set_currTime 0 (rotateRA (V3 0 0 (-1)) 1 2 c)) in *.
  assert (Hf : fetchRA c1 =
               Some (set_rotationRAQueue [] (set_currRA (roll_cmd (Position c) (Up c)) c1))).
  { unfold fetchRA, roll_cmd. subst c1. unfold rotateRA. cam_simpl.
    rewrite He, Hq. cam_simpl. rewrite HF. reflexivity. }
  subst c'. unfold ProcessRA. rewrite Hf. unfold stepRA. cam_simpl.
  assert (Hr : reached (percentage_of 0 (ra_InicialTime (roll_cmd (Position c) (Up c)))
                          (ra_FinalTime (roll_cmd (Position c) (Up c)))) = false).
  { apply not_reached_R. rewrite percentage_of_R. unfold roll_cmd; cam_simpl. lra. }
  change (currTime c1) with 0. rewrite Hr.
  match goal with |- context [applyRA ?r ?a ?x] =>
    destruct (@applyRA_roll r a x eq_refl eq_refl HW) as (H1 & H2 & H3 & H4);
    destruct (applyRA_frame r a x) as (G1 & G2 & G3)
  end.
  rewrite H1, H2, H3, H4, G1, G3. cam_simpl.
  repeat split; try reflexivity. exact HW.
Qed.

Lemma ProcessRA_roll_active (c : Camera R) :
  ra_Ended (currRA c) = false ->
  ra_Axis (currRA c) = V3 0 0 (-1) ->
  ra_InicialFront (currRA c) = V3 0 0 (-1) ->
  WorldUp c = V3 0 1 0 ->
  let c' := ProcessRA c in
  Position c' = ra_InicialPosition (currRA c) /\
  Front c' = V3 0 0 (-1) /\ Right c' = V3 1 0 0 /\ Up c' = V3 0 1 0 /\
  (1 <= percentage_of (currTime c) (ra_InicialTime (currRA c)) (ra_FinalTime (currRA c)) ->
   ra_Ended (currRA c') = true).
Proof.
  intros He HA HF HW c'. subst c'. unfold ProcessRA, fetchRA. rewrite He.
  unfold stepRA.
  match goal with |- context [applyRA ?r ?a ?x] =>
    assert (HWx : WorldUp x = V3 0 1 0) by (destruct (reached _); exact HW);
    destruct (@applyRA_roll r a x HA HF HWx) as (H1 & H2 & H3 & H4);
    destruct (applyRA_frame r a x) as (G1 & G2 & G3)
  end.
  rewrite H1, H2, H3, H4, G1.
  repeat split; try reflexivity.
  intros Hp. apply reached_R in Hp. rewrite Hp. reflexivity.
Qed.

Lemma roll_generic (c : Camera R) :
  idle c -> Front c = V3 0 0 (-1) -> Right c = V3 1 0 0 -> Up c = V3 0 1 0 ->
  WorldUp c = V3 0 1 0 ->
  let c2 := run [0; 2] (rotateRA (V3 0 0 (-1)) 1 2 c) in
  let rot v :=
    xyz (vec4_mul_mat4 (vec4_of v 1) (glm_rotate mat4_identity 1 (V3 0 0 (-1)))) in
  ra_Ended (currRA c2) = true /\ ra_Angle (currRA c2) = 1 /\
  Position c2 = Position c /\
  Front c2 = Front c /\ Right c2 = Right c /\ Up c2 = Up c /\
  Up c2 <> vsub (rot (vadd (Position c) (Up c))) (rot (Position c)).
Proof.
  intros Hi HF HR HU HW. cbv zeta.
  assert (Hi1 : forall j, j <> KRA -> lane_idle j (rotateRA (V3 0 0 (-1)) 1 2 c)).
  { intros j Hj. apply lane_idle_ext with (c := c); [|apply Hi].
    eapply enqueue_other_lanes; [apply enq_rotateRA | exact Hj]. }
  unfold run; cbn [fold_left].
  rewrite (frame_only_lane (k := KRA) 0 Hi1). cbn [Process].
  assert (Hia : forall j, j <> KRA ->
            lane_idle j (ProcessRA (set_currTime 0 (rotateRA (V3 0 0 (-1)) 1 2 c)))).
  { intros j Hj.
    apply (@lane_idle_other _ _ _ _ KRA j
             (set_currTime 0 (rotateRA (V3 0 0 (-1)) 1 2 c))); [congruence|].
    apply lane_idle_ext with (c := rotateRA (V3 0 0 (-1)) 1 2 c);
      [apply lane_set_currTime | auto]. }
  pose proof (roll_first_frame (Hi KRA) HF HW) as Hfirst. cbv zeta in Hfirst.
  revert Hia Hfirst.
  generalize (ProcessRA (set_currTime 0 (rotateRA (V3 0 0 (-1)) 1 2 c))).
  intros ca Hia (Hc & Hw & Hp & Hf & Hr & Hu).
  rewrite (frame_only_lane (k := KRA) 2 Hia). cbn [Process].
  assert (Hcb : currRA (set_currTime 2 ca) = roll_cmd (Position c) (Up c)) by exact Hc.
  assert (Hwb : WorldUp (set_currTime 2 ca) = V3 0 1 0) by exact Hw.
  assert (Htb : currTime (set_currTime 2 ca) = 2) by reflexivity.
  revert Hcb Hwb Htb. generalize (set_currTime 2 ca). clear - HF HR HU. intros cb Hcb Hwb Htb.
  assert (He : ra_Ended (currRA cb) = false) by (rewrite Hcb; reflexivity).
  assert (HA : ra_Axis (currRA cb) = V3 0 0 (-1)) by (rewrite Hcb; reflexivity).
  assert (HF' : ra_InicialFront (currRA cb) = V3 0 0 (-1)) by (rewrite Hcb; reflexivity).
  destruct (ProcessRA_roll_active cb He HA HF' Hwb) as (P1 & P2 & P3 & P4 & P5).
  assert (Hang : ra_Angle (currRA (ProcessRA cb)) = 1).
  { unfold ProcessRA, fetchRA. rewrite He. unfold stepRA.
    destruct (reached _);
      match goal with |- context [applyRA ?r ?a ?x] =>
        destruct (applyRA_frame r a x) as (G1 & _) end;
      rewrite G1; cbn [currRA set_currRA ra_set_Ended ra_Angle]; rewrite Hcb;
      reflexivity. }
  split.
  { apply P5. rewrite Hcb, Htb, percentage_of_R. unfold roll_cmd.
    cbn [ra_InicialTime ra_FinalTime]. lra. }
  split; [exact Hang|].
  rewrite P1, P2, P3, P4, Hcb, HF, HR, HU.
  repeat split; try reflexivity.
  intros H. apply (f_equal (@vx R)) in H. revert H.
  unfold glm_rotate. rewrite (normalize_of_unit unit_back).
  unfold vec4_mul_mat4, v4dotcol, xyz, vec4_of, mat4_identity, v4add, v4smul.
  cbn [col0 col1 col2 col3 wx wy wz ww]. vec_R. cbn [wx wy wz ww vx vy vz].
  intros H.
  assert (Hs : 0 < sin 1).
  { apply sin_gt_0; [lra|]. pose proof PI2_1. pose proof PI2_Rlt_PI. lra. }
  lra.
Qed.

End RollRun.

(** ** A duration of zero in binary32 *)

Lemma SFadd_nan_r x : SFadd 24 128 x S754_nan = S754_nan.
Proof. destruct x; reflexivity. Qed.

Lemma zero_duration_percentage (s : bool) (m : positive) (e : Z) :
  let tnow := S754_finite s m e in
  percentage_of tnow tnow (fadd (b32_of_Z 0) tnow) = S754_nan /\
  reached (percentage_of tnow tnow (fadd (b32_of_Z 0) tnow)) = false.
Proof.
  cbv zeta. unfold percentage_of, reached.
  cbn [fadd fsub fdiv fleb B32Arith f_of_Z].
  change (SFadd 24 128 (b32_of_Z 0) (S754_finite s m e)) with (S754_finite s m e).
  assert (H : SFsub 24 128 (S754_finite s m e) (S754_finite s m e) = S754_zero false).
  { unfold SFsub.
    match goal with |- binary_normalize _ _ ?d _ _ = _ =>
      replace d with 0%Z by (symmetry; apply Z.sub_diag) end.
    reflexivity. }
  rewrite H. split; reflexivity.
Qed.

Lemma processTranslation_zero_duration (c : Camera spec_float) t rest s m e :
  tr_Ended (currTranslation c) = true ->
  translationQueue c = t :: rest ->
  tr_FinalTime t = b32_of_Z 0 ->
  currTime c = S754_finite s m e ->
  tr_Ended (currTranslation (processTranslation c)) = false /\
  Position (processTranslation c) = V3 S754_nan S754_nan S754_nan.
Proof.
  intros He Hq Hd Ht.
  destruct (zero_duration_percentage s m e) as [Hp Hr]. cbv zeta in Hp, Hr.
  unfold processTranslation, fetchTranslation. rewrite He, Hq.
  unfold stepTranslation.
  cbn [currTranslation set_currTranslation set_translationQueue currTime
       tr_InicialTime tr_FinalTime tr_Position tr_InicialPosition].
  rewrite Hd, Ht. unfold capped. rewrite Hr, Hp.
  cbn [set_Position Position currTranslation set_currTranslation tr_Ended].
  split; [reflexivity|].
  unfold vadd, svmul; cbn [vx vy vz fadd fmul B32Arith].
  cbn [SFmul]. rewrite !SFadd_nan_r. reflexivity.
Qed.

(** ** Look-at *)

Lemma ProcessLookAt_interpolates {F D : Type} {A : Arith F D} (c : Camera F) :
  match fetchLookAt c with
  | inl c1 =>
      let t := currLookAt c1 in
      let p := capped (percentage_of (currTime c1) (la_InicialTime t) (la_FinalTime t)) in
      let c' := ProcessLookAt c in
      Front c' = normalize (interpolate (la_InicialFront t) (la_FinalFront t) p) /\
      Right c' = normalize (cross (Front c') (WorldUp c1)) /\
      Up c' = normalize (cross (Right c') (Front c')) /\
      (la_Ended (currLookAt c) = true ->
       la_InicialFront t = Front c /\
       la_FinalFront t = normalize (vsub (la_Position t) (Position c)))
  | inr c1 => ProcessLookAt c = c1
  end.
Proof.
  unfold ProcessLookAt. destruct (fetchLookAt c) as [c1|c1] eqn:Hf; [|reflexivity].
  cbv zeta. unfold stepLookAt, updateCameraVectors.
  split; [destruct (reached _); reflexivity|].
  split; [destruct (reached _); reflexivity|].
  split; [destruct (reached _); reflexivity|].
  intros He. unfold fetchLookAt in Hf. rewrite He in Hf.
  destruct (lookAtQueue c) as [|l rest]; [discriminate|].
  cbn [Position set_lookAtQueue set_currLookAt] in Hf.
  destruct (veqb (Position c) (la_Position l)); [discriminate|].
  injection Hf as <-. split; reflexivity.
Qed.

Lemma yp_ProcessLookAt_jumps
    {F D : Type} {A : Arith F D}
    (orientedAngle3 : vec3 F -> vec3 F -> vec3 F -> F)
    (orientedAngle2 : YawPitch.vec2 F -> YawPitch.vec2 F -> F)
    (c : YawPitch.Camera F) :
  match YawPitch.fetchLookAt orientedAngle3 orientedAngle2 c with
  | Some c1 =>
      let l := YawPitch.currLookAt c1 in
      let c' := YawPitch.ProcessLookAt orientedAngle3 orientedAngle2 c in
      YawPitch.Pitch c' = YawPitch.la_FinalPitch l /\
      YawPitch.Yaw c' = YawPitch.la_FinalYaw l /\
      YawPitch.la_Ended (YawPitch.currLookAt c') = true /\
      YawPitch.Front c' = YawPitch.Front c /\
      YawPitch.Right c' = YawPitch.Right c /\
      YawPitch.Up c' = YawPitch.Up c
  | None => YawPitch.ProcessLookAt orientedAngle3 orientedAngle2 c = c
  end.
Proof.
  unfold YawPitch.ProcessLookAt.
  destruct (YawPitch.fetchLookAt orientedAngle3 orientedAngle2 c) as [c1|] eqn:Hf;
    [|reflexivity].
  cbv zeta. unfold YawPitch.stepLookAt.
  assert (Hb : YawPitch.Front c1 = YawPitch.Front c /\
               YawPitch.Right c1 = YawPitch.Right c /\
               YawPitch.Up c1 = YawPitch.Up c).
  { unfold YawPitch.fetchLookAt in Hf.
    destruct (YawPitch.la_Ended (YawPitch.currLookAt c)).
    - destruct (YawPitch.lookAtQueue c); [discriminate|]. injection Hf as <-.
      repeat split; reflexivity.
    - injection Hf as <-. repeat split; reflexivity. }
  destruct Hb as (H1 & H2 & H3). rewrite <- H1, <- H2, <- H3.
  destruct (reached _); repeat split; reflexivity.
Qed.

(** ** What a step does with the percentage *)

Section Steps.
Context {F D : Type} {A : Arith F D} {T : Trig F}.

Lemma fetchTranslation_slot (c c1 : Camera F) :
  fetchTranslation c = Some c1 -> tr_Ended (currTranslation c1) = false.
Proof.
  unfold fetchTranslation. destruct (tr_Ended (currTranslation c)) eqn:E.
  - destruct (translationQueue c); [discriminate|]. intros H. injection H as <-. reflexivity.
  - intros H. injection H as <-. exact E.
Qed.

Lemma fetchBezier_slot (c c1 : Camera F) :
  fetchBezier c = Some c1 -> sp_Ended (currBezier c1) = false.
Proof.
  unfold fetchBezier. destruct (sp_Ended (currBezier c)) eqn:E.
  - destruct (bezierQueue c); [discriminate|]. intros H. injection H as <-. reflexivity.
  - intros H. injection H as <-. exact E.
Qed.

Lemma fetchBSpline_slot (c c1 : Camera F) :
  fetchBSpline c = Some c1 -> sp_Ended (currBSpline c1) = false.
Proof.
  unfold fetchBSpline. destruct (sp_Ended (currBSpline c)) eqn:E.
  - destruct (bSplineQueue c); [discriminate|]. intros H. injection H as <-. reflexivity.
  - intros H. injection H as <-. exact E.
Qed.

Lemma fetchLookAt_slot (c c1 : Camera F) :
  fetchLookAt c = inl c1 -> la_Ended (currLookAt c1) = false.
Proof.
  unfold fetchLookAt. destruct (la_Ended (currLookAt c)) eqn:E.
  - destruct (lookAtQueue c); [discriminate|].
    destruct (veqb _ _); [discriminate|]. intros H. injection H as <-. reflexivity.
  - intros H. injection H as <-. exact E.
Qed.

Lemma fetchRA_slot (c c1 : Camera F) :
  fetchRA c = Some c1 -> ra_Ended (currRA c1) = false /\ WorldUp c1 = WorldUp c.
Proof.
  unfold fetchRA. destruct (ra_Ended (currRA c)) eqn:E.
  - destruct (rotationRAQueue c); [discriminate|]. intros H. injection H as <-.
    split; reflexivity.
  - intros H. injection H as <-. split; [exact E | reflexivity].
Qed.

Lemma fetchRP_slot (c c1 : Camera F) :
  fetchRP c = Some c1 -> rp_Ended (currRP c1) = false.
Proof.
  unfold fetchRP. destruct (rp_Ended (currRP c)) eqn:E.
  - destruct (rotationRPQueue c); [discriminate|].
    repeat break_inner; intros H; injection H as <-; reflexivity.
  - intros H. injection H as <-. exact E.
Qed.

Lemma processTranslation_step (c c1 : Camera F) :
  fetchTranslation c = Some c1 ->
  let t := currTranslation c1 in
  let p := percentage_of (currTime c1) (tr_InicialTime t) (tr_FinalTime t) in
  let c' := processTranslation c in
  (reached p = true ->
     tr_Ended (currTranslation c') = true /\
     Position c' = interpolate (tr_InicialPosition t) (tr_Position t) fone) /\
  (reached p = false ->
     tr_Ended (currTranslation c') = false /\
     Position c' = interpolate (tr_InicialPosition t) (tr_Position t) p).
Proof.
  intros Hf t p c'. pose proof (fetchTranslation_slot _ Hf) as He.
  subst c'. unfold processTranslation. rewrite Hf. unfold stepTranslation, capped.
  fold t. fold p.
  split; intros Hp; rewrite Hp; split; try reflexivity. exact He.
Qed.

Lemma ProcessBezier_step (c c1 : Camera F) :
  fetchBezier c = Some c1 ->
  let b := currBezier c1 in
  let p := percentage_of (currTime c1) (sp_InicialTime b) (sp_Time b) in
  let c' := ProcessBezier c in
  (reached p = true -> sp_Ended (currBezier c') = true /\ Position c' = sp_p3 b) /\
  (reached p = false -> sp_Ended (currBezier c') = false /\ Position c' = Bezier b p).
Proof.
  intros Hf b p c'. pose proof (fetchBezier_slot _ Hf) as He.
  subst c'. unfold ProcessBezier. rewrite Hf. unfold stepBezier. fold b. fold p.
  split; intros Hp; rewrite Hp; split; try reflexivity. exact He.
Qed.

Lemma ProcessBSPline_step (c c1 : Camera F) :
  fetchBSpline c = Some c1 ->
  let b := currBSpline c1 in
  let p := percentage_of (currTime c1) (sp_InicialTime b) (sp_Time b) in
  let c' := ProcessBSPline c in
  (reached p = true -> sp_Ended (currBSpline c') = true /\ Position c' = sp_p3 b) /\
  (reached p = false ->
     sp_Ended (currBSpline c') = false /\
     (dleb (widen p) knot1 = true ->
        Position c' =
          catmullRom (sp_p0 b) (sp_p0 b) (sp_p1 b) (sp_p2 b) (fmul (f_of_Z 3) p)) /\
     (dleb (widen p) knot1 = false -> dleb (widen p) knot2 = true ->
        Position c' =
          catmullRom (sp_p0 b) (sp_p1 b) (sp_p2 b) (sp_p3 b)
            (narrow (dmul (d_lit 3 1) (dsub (widen p) knot1)))) /\
     (dleb (widen p) knot1 = false -> dleb (widen p) knot2 = false ->
        Position c' =
          catmullRom (sp_p1 b) (sp_p2 b) (sp_p3 b) (sp_p3 b)
            (narrow (dmul (d_lit 3 1) (dsub (widen p) knot2))))).
Proof.
  intros Hf b p c'. pose proof (fetchBSpline_slot _ Hf) as He.
  subst c'. unfold ProcessBSPline. rewrite Hf. unfold stepBSpline. fold b. fold p.
  split; intros Hp; rewrite Hp; [split; reflexivity|].
  split; [exact He|].
  split; [intros H1; rewrite H1; reflexivity|].
  split; intros H1 H2; rewrite H1, H2; reflexivity.
Qed.

Lemma ProcessLookAt_step (c c1 : Camera F) :
  fetchLookAt c = inl c1 ->
  let t := currLookAt c1 in
  let p := percentage_of (currTime c1) (la_InicialTime t) (la_FinalTime t) in
  let c' := ProcessLookAt c in
  (reached p = true ->
     la_Ended (currLookAt c') = true /\
     Front c' = normalize (interpolate (la_InicialFront t) (la_FinalFront t) fone)) /\
  (reached p = false ->
     la_Ended (currLookAt c') = false /\
     Front c' = normalize (interpolate (la_InicialFront t) (la_FinalFront t) p)).
Proof.
  intros Hf t p c'. pose proof (fetchLookAt_slot _ Hf) as He.
  subst c'. unfold ProcessLookAt. rewrite Hf. unfold stepLookAt, capped.
  fold t. fold p.
  split; intros Hp; rewrite Hp; split; try reflexivity. exact He.
Qed.

Lemma ProcessRA_step (c c1 : Camera F) :
  fetchRA c = Some c1 ->
  let r := currRA c1 in
  let p := percentage_of (currTime c1) (ra_InicialTime r) (ra_FinalTime r) in
  let rot angle v :=
    xyz (vec4_mul_mat4 (vec4_of v fone) (glm_rotate mat4_identity angle (ra_Axis r))) in
  let front angle :=
    normalize (vsub (rot angle (vadd (ra_InicialPosition r) (ra_InicialFront r)))
                    (rot angle (ra_InicialPosition r))) in
  let c' := ProcessRA c in
  (reached p = true ->
     ra_Ended (currRA c') = true /\ Position c' = ra_InicialPosition r /\
     Front c' = front (fmul (ra_Angle r) fone)) /\
  (reached p = false ->
     ra_Ended (currRA c') = false /\ Position c' = ra_InicialPosition r /\
     Front c' = front (fmul (ra_Angle r) p)).
Proof.
  intros Hf r p rot front c'. destruct (fetchRA_slot _ Hf) as (He & _).
  subst c'. unfold ProcessRA. rewrite Hf. unfold stepRA, capped. fold r. fold p.
  split; intros Hp; rewrite Hp; unfold applyRA, updateCameraVectors;
    cbn [Position Front Up Right WorldUp currRA set_Position set_Front set_Up
         set_Right set_currRA ra_set_Ended ra_Ended];
    repeat split; try reflexivity. exact He.
Qed.

Lemma ProcessRP_step (c c1 : Camera F) :
  fetchRP c = Some c1 ->
  let r := currRP c1 in
  let p := percentage_of (currTime c1) (rp_InicialTime r) (rp_FinalTime r) in
  let position angle :=
    xyz (vec4_mul_mat4 (vec4_of (rp_InicialPosition r) fone)
           (rp_matrix r angle (Up c1))) in
  let c' := ProcessRP c in
  (reached p = true ->
     rp_Ended (currRP c') = true /\ Position c' = position (fmul (rp_Angle r) fone)) /\
  (reached p = false ->
     rp_Ended (currRP c') = false /\ Position c' = position (fmul (rp_Angle r) p)).
Proof.
  intros Hf r p position c'. pose proof (fetchRP_slot _ Hf) as He.
  subst c'. unfold ProcessRP. rewrite Hf. unfold stepRP, capped. fold r. fold p.
  split; intros Hp; rewrite Hp; unfold applyRP, updateCameraVectors, rp_matrix;
    cbn [Position Front Up Right WorldUp currRP set_Position set_Front set_Up
         set_Right set_currRP rp_set_Ended rp_Ended];
    repeat split; try reflexivity. exact He.
Qed.
End Steps.

(** ** The claims on the lanes *)

(** C10. In the vector camera, when the six slots are [Ended] and the six
    queues are empty, [GetViewMatrix] changes nothing but the sampled time:
    position, front, up, right, every queue and every slot are as before,
    and the matrix returned is the look-at matrix of that unchanged pose. *)
Theorem C10_idle_frame_only_samples_the_clock
    {F D : Type} {A : Arith F D} {T : Trig F} (tnow : F) (c : Camera F) :
  idle c ->
  let c' := fst (GetViewMatrix tnow c) in
  c' = set_currTime tnow c /\
  Position c' = Position c /\ Front c' = Front c /\
  Up c' = Up c /\ Right c' = Right c /\
  (forall k, lane k c' = lane k c) /\
  snd (GetViewMatrix tnow c) =
    glm_lookAt (Position c) (vadd (Position c) (Front c)) (Up c).
Proof.
  intros Hi. cbv zeta. unfold GetViewMatrix. cbn [fst snd].
  rewrite (ProcessTransformations_idle tnow Hi).
  do 5 (split; [reflexivity|]).
  split; [intro k; apply lane_set_currTime | reflexivity].
Qed.

Lemma C10_witness :
  idle cameraR /\ fst (GetViewMatrix 0%R cameraR) = set_currTime 0%R cameraR.
Proof.
  split.
  - intros []; split; reflexivity.
  - exact (proj1 (C10_idle_frame_only_samples_the_clock 0%R (c := cameraR) cameraR_idle)).
Defined.

(** C7. A look-at command that is dequeued while the camera stands on its
    target (the source's [Position == currLookAt.Position]) is stored as
    [Ended] in that very step, and front, right, up and position are left
    as they were. *)
Theorem C7_lookAt_at_own_position
    {F D : Type} {A : Arith F D} (c : Camera F) (l : lookAt F) (rest : list (lookAt F)) :
  la_Ended (currLookAt c) = true ->
  lookAtQueue c = l :: rest ->
  veqb (Position c) (la_Position l) = true ->
  let c' := ProcessLookAt c in
  la_Ended (currLookAt c') = true /\
  la_Position (currLookAt c') = la_Position l /\
  lookAtQueue c' = rest /\
  Front c' = Front c /\ Right c' = Right c /\ Up c' = Up c /\
  Position c' = Position c.
Proof.
  intros He Hq Hp c'. subst c'.
  unfold ProcessLookAt, fetchLookAt. rewrite He, Hq. cbn. rewrite Hp.
  cbn. repeat split; reflexivity.
Qed.

Lemma C7_witness :
  let c := LookAt (v32 0 5 3) (b32_of_Z 8) camera32 in
  la_Ended (currLookAt (ProcessLookAt c)) = true /\
  Front (ProcessLookAt c) = Front c.
Proof.
  intro c.
  destruct (@C7_lookAt_at_own_position _ _ _ c
              (Build_lookAt (v32 0 5 3) vzero vzero fzero (b32_of_Z 8) false) [])
    as (H1 & _ & _ & H2 & _); [reflexivity | reflexivity | vm_compute; reflexivity |].
  split; assumption.
Defined.

(** C3. For every camera and every kind: while the slot holds a command
    that has not ended, a frame takes nothing from the queue and keeps the
    command; when the slot has ended, a frame takes the front of the queue,
    if any; and when [a] and then [b] are enqueued on an idle lane, every
    run goes through the phases "nothing taken", "[a] in the slot", "[b] in
    the slot", [b] being taken only by a frame that starts with [a] in the
    slot and [Ended]. *)
Theorem C3_lanes_are_fifo
    {F D : Type} {A : Arith F D} {T : Trig F} (k : Kind) (c : Camera F) :
  (forall tnow, ended (current_of k c) = false ->
     queue_of k (frame tnow c) = queue_of k c /\
     same_request (current_of k (frame tnow c)) (current_of k c)) /\
  (forall tnow a q, ended (current_of k c) = true -> queue_of k c = a :: q ->
     queue_of k (frame tnow c) = q /\
     same_request (current_of k (frame tnow c)) a) /\
  (forall tnow, lane_idle k c -> lane k (frame tnow c) = lane k c) /\
  (forall a b c1 c2,
     lane_idle k c -> enqueue_call k a c c1 -> enqueue_call k b c1 c2 ->
     forall ts,
       fifo_phase k a b (run ts c2) /\
       (forall t, queue_of k (run ts c2) = [b] ->
                  queue_of k (frame t (run ts c2)) = [] ->
                  ended (current_of k (run ts c2)) = true /\
                  same_request (current_of k (run ts c2)) a)).
Proof.
  split; [intros; apply frame_active; assumption|].
  split; [intros; apply frame_dequeue; assumption|].
  split; [intros; apply frame_lane_idle; assumption|].
  intros a b c1 c2 [He Hq] Ha Hb ts.
  apply enqueue_call_lane in Ha, Hb. destruct Ha as [Hqa Hca], Hb as [Hqb Hcb].
  assert (H0 : fifo_phase k a b c2).
  { left. split; [rewrite Hqb, Hqa, Hq; reflexivity | rewrite Hcb, Hca; exact He]. }
  assert (Hph := fifo_phase_run ts H0).
  split; [exact Hph|].
  intros t Hb1 Hb2.
  destruct Hph as [[Hq' _] | [[_ Hs] | [Hq' _]]]; try congruence.
  split; [|exact Hs].
  destruct (ended (current_of k (run ts c2))) eqn:E; [reflexivity|].
  destruct (frame_active k t (run ts c2) E) as [Hq' _]. congruence.
Qed.

Lemma C3_witness :
  let a := TranslationCmd (Build_translation vzero (V3 5 5 5) fzero 8 false)%R in
  let b := TranslationCmd (Build_translation vzero (V3 0 10 10) fzero 5 false)%R in
  let c2 := (Translate (V3 0 10 10) 5 (Translate (V3 5 5 5) 8 cameraR))%R in
  fifo_phase KTranslation a b (run [0; 4; 9]%R c2).
Proof.
  intros a b c2.
  apply (proj2 (proj2 (proj2 (C3_lanes_are_fifo KTranslation cameraR))) a b
           (Translate (V3 5 5 5) 8 cameraR)%R c2).
  - split; reflexivity.
  - apply enq_Translate.
  - apply enq_Translate.
Defined.

(** ** The claims on the interpolation *)

(** C1. While a translation command is in the slot, each step sets the
    position to [start + percentage * (target - start)], [start] being the
    position recorded when the command was dequeued and [percentage] the
    capped progress fraction; the step that dequeues a command records the
    camera's position as [start]; later steps keep [start], the target and
    the two times.  Both cameras.  For [Translate((5,5,5), 8)] on an idle
    camera at [(0,5,3)], the sample 4 s after the first one gives
    [(2.5, 5, 4)]: for every start time in real arithmetic, and in binary32
    for the start time 16. *)
Theorem C1_translate_position_is_affine :
  (forall (F D : Type) (A : Arith F D) (c : Camera F),
     tr_Ended (currTranslation c) = false ->
     let t := currTranslation c in
     let p := capped (percentage_of (currTime c) (tr_InicialTime t) (tr_FinalTime t)) in
     let c' := processTranslation c in
     Position c' = interpolate (tr_InicialPosition t) (tr_Position t) p /\
     tr_InicialPosition (currTranslation c') = tr_InicialPosition t /\
     tr_Position (currTranslation c') = tr_Position t /\
     tr_InicialTime (currTranslation c') = tr_InicialTime t /\
     tr_FinalTime (currTranslation c') = tr_FinalTime t) /\
  (forall (F D : Type) (A : Arith F D) (c : Camera F) t rest,
     tr_Ended (currTranslation c) = true ->
     translationQueue c = t :: rest ->
     let p := capped (percentage_of (currTime c) (currTime c)
                        (fadd (tr_FinalTime t) (currTime c))) in
     let c' := processTranslation c in
     Position c' = interpolate (Position c) (tr_Position t) p /\
     tr_InicialPosition (currTranslation c') = Position c /\
     tr_Position (currTranslation c') = tr_Position t /\
     tr_InicialTime (currTranslation c') = currTime c /\
     tr_FinalTime (currTranslation c') = fadd (tr_FinalTime t) (currTime c)) /\
  (forall (F D : Type) (A : Arith F D) (c : YawPitch.Camera F),
     YawPitch.tr_Ended (YawPitch.currTranslation c) = false ->
     let t := YawPitch.currTranslation c in
     let p := capped (percentage_of (YawPitch.currTime c) (YawPitch.tr_InicialTime t)
                        (YawPitch.tr_FinalTime t)) in
     YawPitch.Position (YawPitch.processTranslation c) =
       interpolate (YawPitch.tr_InicialPosition t) (YawPitch.tr_Position t) p) /\
  (forall (F D : Type) (A : Arith F D) (c : YawPitch.Camera F) t rest,
     YawPitch.tr_Ended (YawPitch.currTranslation c) = true ->
     YawPitch.translationQueue c = t :: rest ->
     let p := capped (percentage_of (YawPitch.currTime c) (YawPitch.currTime c)
                        (fadd (YawPitch.tr_FinalTime t) (YawPitch.currTime c))) in
     YawPitch.Position (YawPitch.processTranslation c) =
       interpolate (YawPitch.Position c) (YawPitch.tr_Position t) p) /\
  (forall (t0 : R) (c : Camera R),
     idle c -> Position c = V3 0 5 3 ->
     Position (run [t0; t0 + 4] (Translate (V3 5 5 5) 8 c)) = V3 (5 / 2) 5 4)%R /\
  (forall T : Trig spec_float,
     Position (run [b32_of_Z 16; b32_of_Z 20]
                  (Translate (v32 5 5 5) (b32_of_Z 8) camera32))
     = V3 (b32_lit 25 10) (b32_of_Z 5) (b32_of_Z 4)).
Proof.
  split; [intros; apply processTranslation_active; assumption|].
  split; [intros; eapply processTranslation_dequeue; eassumption|].
  split; [intros F D A c He; apply (yp_processTranslation_active c He)|].
  split; [intros F D A c t rest He Hq; apply (yp_processTranslation_dequeue c He Hq)|].
  split; [intros; apply translate_example; assumption|].
  exact translate_example32.
Qed.

Lemma C1_witness :
  let c := Translate (v32 5 5 5) (b32_of_Z 8) camera32 in
  tr_Ended (currTranslation c) = true /\
  tr_InicialPosition (currTranslation (processTranslation c)) = Position c.
Proof.
  intro c. split; [reflexivity|].
  apply (proj1 (proj2 C1_translate_position_is_affine) _ _ _ c
           (Build_translation vzero (v32 5 5 5) fzero (b32_of_Z 8) false) []);
    reflexivity.
Defined.

(** C2, as amended.  Every step compares the progress fraction with 1 and
    with nothing else.  Where [percentage >= 1] holds, the command is marked
    [Ended] and the pose is the one of percentage 1: Bezier and B-spline
    assign [p3] itself, the translation computes
    [start + 1 * (target - start)] and the look-at the normalised
    [InicialFront + 1 * (FinalFront - InicialFront)] in the arithmetic of
    the camera, the rotations use the angle [Angle * 1].  Where it does not
    hold, the command stays in the slot and the pose is computed from the
    fraction as it is, whatever its sign.  In exact arithmetic
    [start + 1 * (target - start)] is the target. *)
Theorem C2_percentage_capped_above_only :
  (forall (F D : Type) (A : Arith F D) (c c1 : Camera F),
     fetchTranslation c = Some c1 ->
     let t := currTranslation c1 in
     let p := percentage_of (currTime c1) (tr_InicialTime t) (tr_FinalTime t) in
     let c' := processTranslation c in
     (reached p = true ->
        tr_Ended (currTranslation c') = true /\
        Position c' = interpolate (tr_InicialPosition t) (tr_Position t) fone) /\
     (reached p = false ->
        tr_Ended (currTranslation c') = false /\
        Position c' = interpolate (tr_InicialPosition t) (tr_Position t) p)) /\
  (forall (F D : Type) (A : Arith F D) (c c1 : Camera F),
     fetchBezier c = Some c1 ->
     let b := currBezier c1 in
     let p := percentage_of (currTime c1) (sp_InicialTime b) (sp_Time b) in
     let c' := ProcessBezier c in
     (reached p = true -> sp_Ended (currBezier c') = true /\ Position c' = sp_p3 b) /\
     (reached p = false ->
        sp_Ended (currBezier c') = false /\ Position c' = Bezier b p)) /\
  (forall (F D : Type) (A : Arith F D) (c c1 : Camera F),
     fetchBSpline c = Some c1 ->
     let b := currBSpline c1 in
     let p := percentage_of (currTime c1) (sp_InicialTime b) (sp_Time b) in
     let c' := ProcessBSPline c in
     (reached p = true -> sp_Ended (currBSpline c') = true /\ Position c' = sp_p3 b) /\
     (reached p = false -> sp_Ended (currBSpline c') = false)) /\
  (forall (F D : Type) (A : Arith F D) (c c1 : Camera F),
     fetchLookAt c = inl c1 ->
     let t := currLookAt c1 in
     let p := percentage_of (currTime c1) (la_InicialTime t) (la_FinalTime t) in
     let c' := ProcessLookAt c in
     (reached p = true ->
        la_Ended (currLookAt c') = true /\
        Front c' = normalize (interpolate (la_InicialFront t) (la_FinalFront t) fone)) /\
     (reached p = false ->
        la_Ended (currLookAt c') = false /\
        Front c' = normalize (interpolate (la_InicialFront t) (la_FinalFront t) p))) /\
  (forall (F D : Type) (A : Arith F D) (T : Trig F) (c c1 : Camera F),
     fetchRA c = Some c1 ->
     let r := currRA c1 in
     let p := percentage_of (currTime c1) (ra_InicialTime r) (ra_FinalTime r) in
     let rot angle v :=
       xyz (vec4_mul_mat4 (vec4_of v fone)
              (glm_rotate mat4_identity angle (ra_Axis r))) in
     let front angle :=
       normalize (vsub (rot angle (vadd (ra_InicialPosition r) (ra_InicialFront r)))
                       (rot angle (ra_InicialPosition r))) in
     let c' := ProcessRA c in
     (reached p = true ->
        ra_Ended (currRA c') = true /\ Position c' = ra_InicialPosition r /\
        Front c' = front (fmul (ra_Angle r) fone)) /\
     (reached p = false ->
        ra_Ended (currRA c') = false /\ Position c' = ra_InicialPosition r /\
        Front c' = front (fmul (ra_Angle r) p))) /\
  (forall (F D : Type) (A : Arith F D) (T : Trig F) (c c1 : Camera F),
     fetchRP c = Some c1 ->
     let r := currRP c1 in
     let p := percentage_of (currTime c1) (rp_InicialTime r) (rp_FinalTime r) in
     let position angle :=
       xyz (vec4_mul_mat4 (vec4_of (rp_InicialPosition r) fone)
              (rp_matrix r angle (Up c1))) in
     let c' := ProcessRP c in
     (reached p = true ->
        rp_Ended (currRP c') = true /\
        Position c' = position (fmul (rp_Angle r) fone)) /\
     (reached p = false ->
        rp_Ended (currRP c') = false /\
        Position c' = position (fmul (rp_Angle r) p))) /\
  (forall start target : vec3 R, interpolate start target 1%R = target).
Proof.
  split; [intros F D A c c1 Hf; exact (processTranslation_step _ Hf)|].
  split; [intros F D A c c1 Hf; exact (ProcessBezier_step _ Hf)|].
  split.
  { intros F D A c c1 Hf b p c'.
    destruct (ProcessBSPline_step _ Hf) as (H1 & H2).
    split; [exact H1|]. intros Hp. exact (proj1 (H2 Hp)). }
  split; [intros F D A c c1 Hf; exact (ProcessLookAt_step _ Hf)|].
  split; [intros F D A T c c1 Hf; exact (ProcessRA_step _ Hf)|].
  split; [intros F D A T c c1 Hf; exact (ProcessRP_step _ Hf)|].
  exact interpolate_1.
Qed.

Lemma C2_witness :
  (let c := set_currTime (b32_of_Z 2)
              (processTranslation (set_currTime (b32_of_Z 0)
                 (Translate tenths32 (b32_of_Z 2) camera32))) in
   tr_Ended (currTranslation (processTranslation c)) = true /\
   Position (processTranslation c) =
     interpolate (tr_InicialPosition (currTranslation c))
       (tr_Position (currTranslation c)) fone) /\
  (let c := set_currTime (b32_of_Z 1)
              (processTranslation (set_currTime (b32_of_Z 0)
                 (Translate tenths32 (b32_of_Z 2) camera32))) in
   tr_Ended (currTranslation (processTranslation c)) = false /\
   Position (processTranslation c) =
     interpolate (tr_InicialPosition (currTranslation c))
       (tr_Position (currTranslation c))
       (percentage_of (currTime c) (tr_InicialTime (currTranslation c))
          (tr_FinalTime (currTranslation c)))) /\
  (let c := set_currTime (b32_of_Z 2)
              (ProcessBezier (set_currTime (b32_of_Z 0)
                 (bezierPath (v32 0 5 3) (v32 1 5 3) (v32 2 5 3) tenths32
                    (b32_of_Z 2) camera32))) in
   sp_Ended (currBezier (ProcessBezier c)) = true /\
   Position (ProcessBezier c) = sp_p3 (currBezier c)) /\
  (let c := set_currTime (b32_of_Z 2)
              (ProcessBSPline (set_currTime (b32_of_Z 0)
                 (bSplinePath (v32 0 5 3) (v32 1 5 3) (v32 2 5 3) tenths32
                    (b32_of_Z 2) camera32))) in
   sp_Ended (currBSpline (ProcessBSPline c)) = true /\
   Position (ProcessBSPline c) = sp_p3 (currBSpline c)) /\
  (let c := set_currTime (b32_of_Z 2)
              (ProcessLookAt (set_currTime (b32_of_Z 0)
                 (LookAt (v32 5 5 5) (b32_of_Z 2) camera32))) in
   la_Ended (currLookAt (ProcessLookAt c)) = true /\
   Front (ProcessLookAt c) =
     normalize (interpolate (la_InicialFront (currLookAt c))
                  (la_FinalFront (currLookAt c)) fone)) /\
  (let c := set_currRA (roll_cmd (V3 0 5 3) (V3 0 1 0))%R (set_currTime 2%R cameraR) in
   ra_Ended (currRA (ProcessRA c)) = true /\ Position (ProcessRA c) = V3 0%R 5%R 3%R) /\
  (let c :=
     set_currRP
       (Build_rotationRP (V3 0 0 0) 1 0 2 (V3 0 0 (-1)) (V3 0 5 3) (V3 0 1 0) false)%R
       (set_currTime 1%R cameraR) in
   rp_Ended (currRP (ProcessRP c)) = false).
Proof.
  pose proof C2_percentage_capped_above_only as (H1 & H2 & H3 & H4 & H5 & H6 & _).
  split.
  { intro c. apply (proj1 (H1 _ _ _ c c eq_refl)). vm_compute. reflexivity. }
  split.
  { intro c. apply (proj2 (H1 _ _ _ c c eq_refl)). vm_compute. reflexivity. }
  split.
  { intro c. apply (proj1 (H2 _ _ _ c c eq_refl)). vm_compute. reflexivity. }
  split.
  { intro c. apply (proj1 (H3 _ _ _ c c eq_refl)). vm_compute. reflexivity. }
  split.
  { intro c. apply (proj1 (H4 _ _ _ c c eq_refl)). vm_compute. reflexivity. }
  split.
  { intro c.
    assert (Hr : reached (percentage_of (currTime c) (ra_InicialTime (currRA c))
                            (ra_FinalTime (currRA c))) = true).
    { apply reached_R. rewrite percentage_of_R. cbn. lra. }
    destruct (proj1 (H5 _ _ _ _ c c eq_refl) Hr) as (E1 & E2 & _).
    split; [exact E1 | exact E2]. }
  intro c.
  assert (Hr : reached (percentage_of (currTime c) (rp_InicialTime (currRP c))
                          (rp_FinalTime (currRP c))) = false).
  { apply not_reached_R. rewrite percentage_of_R. cbn. lra. }
  exact (proj1 (proj2 (H6 _ _ _ _ c c eq_refl) Hr)).
Defined.

(** C2 fails twice in binary32.  [Translate((0.1, 0.2, 0.3), 2)] from
    [(0, 5, 3)] is [Ended] at the clock sample 2 with the camera at
    [(0.1, 0.19999981, 0.29999995)], which is not the target.  And for a
    translation dequeued at the clock sample 10 the step at the clock
    sample 9 works with the fraction [-1/3]: the fraction is below 0, the
    command is not [Ended], and the camera is put at [x = -1.6666667], on
    the far side of the start from the target. *)
Lemma C2_counterexample :
  (tr_Ended (currTranslation offTarget32) = true /\
   tr_Position (currTranslation offTarget32) = tenths32 /\
   Position offTarget32 =
     V3 (b32_lit 1 10) (S754_finite false 13421760 (-26))
        (S754_finite false 10066328 (-25)) /\
   tenths32 =
     V3 (b32_lit 1 10) (S754_finite false 13421773 (-26))
        (S754_finite false 10066330 (-25)) /\
   Position offTarget32 <> tr_Position (currTranslation offTarget32)) /\
  (let t := currTranslation early32 in
   let p := percentage_of (currTime early32) (tr_InicialTime t) (tr_FinalTime t) in
   tr_Ended t = false /\
   p = S754_finite true 11184811 (-25) /\ capped p = p /\
   fltb (capped p) (b32_of_Z 0) = true /\
   tr_Ended (currTranslation (processTranslation early32)) = false /\
   tr_InicialPosition t = v32 0 5 3 /\ tr_Position t = v32 5 5 5 /\
   vx (Position (processTranslation early32)) = S754_finite true 13981014 (-23) /\
   fltb (vx (Position (processTranslation early32))) (vx (tr_InicialPosition t)) = true).
Proof.
  split.
  - assert (E : Position offTarget32 =
                V3 (b32_lit 1 10) (S754_finite false 13421760 (-26))
                   (S754_finite false 10066328 (-25))) by (vm_compute; reflexivity).
    assert (E' : tr_Position (currTranslation offTarget32) = tenths32)
      by (vm_compute; reflexivity).
    split; [vm_compute; reflexivity|]. split; [exact E'|]. split; [exact E|].
    split; [vm_compute; reflexivity|].
    rewrite E, E'. vm_compute. discriminate.
  - vm_compute. repeat split; reflexivity.
Qed.

(** ** The claims on the orientation *)

(** C4, where the code breaks the invariant.  [updateCameraVectors] divides
    by the length of [Front x WorldUp] without a test.  On the camera of
    [main.cpp], [LookAt((0, 9, 3), 1)], a point straight above the camera,
    sampled at the clock samples 0 and 1, ends with the front equal to the
    world up and with right and up made of NaNs, by the look-at step alone
    and by whole frames: the basis is not orthonormal.  In binary32 this is
    so for every camera on which the cross product of the normalised front
    and the world up evaluates to a zero vector. *)
Theorem C4_front_along_world_up_gives_nan_basis (T : Trig spec_float) :
  let nan3 := V3 S754_nan S754_nan S754_nan in
  (la_Ended (currLookAt lookUp32) = true /\
   Front lookUp32 = v32 0 1 0 /\ WorldUp lookUp32 = v32 0 1 0 /\
   Right lookUp32 = nan3 /\ Up lookUp32 = nan3 /\
   ~ orthonormal (Front lookUp32) (Right lookUp32) (Up lookUp32)) /\
  (let c := run [b32_of_Z 0; b32_of_Z 1]
              (LookAt (v32 0 9 3) (b32_of_Z 1) camera32) in
   la_Ended (currLookAt c) = true /\ lookAtQueue c = [] /\
   Front c = v32 0 1 0 /\ Right c = nan3 /\ Up c = nan3 /\
   ~ orthonormal (Front c) (Right c) (Up c)) /\
  (forall (c : Camera spec_float) (s1 s2 s3 : bool),
     cross (normalize (Front c)) (WorldUp c) =
       V3 (S754_zero s1) (S754_zero s2) (S754_zero s3) ->
     let c' := updateCameraVectors c in
     Right c' = nan3 /\ Up c' = nan3 /\
     ~ orthonormal (Front c') (Right c') (Up c')).
Proof.
  intros nan3.
  assert (N : forall f : vec3 spec_float, ~ orthonormal f nan3 nan3).
  { intros f (_ & H & _). unfold unit_vec in H. vm_compute in H. discriminate. }
  split.
  { assert (HR : Right lookUp32 = nan3) by (vm_compute; reflexivity).
    assert (HU : Up lookUp32 = nan3) by (vm_compute; reflexivity).
    split; [vm_compute; reflexivity|]. split; [vm_compute; reflexivity|].
    split; [vm_compute; reflexivity|]. split; [exact HR|]. split; [exact HU|].
    rewrite HR, HU. apply N. }
  split.
  { cbv zeta.
    assert (HR : Right (run [b32_of_Z 0; b32_of_Z 1]
                          (LookAt (v32 0 9 3) (b32_of_Z 1) camera32)) = nan3)
      by (vm_compute; reflexivity).
    assert (HU : Up (run [b32_of_Z 0; b32_of_Z 1]
                       (LookAt (v32 0 9 3) (b32_of_Z 1) camera32)) = nan3)
      by (vm_compute; reflexivity).
    split; [vm_compute; reflexivity|]. split; [vm_compute; reflexivity|].
    split; [vm_compute; reflexivity|]. split; [exact HR|]. split; [exact HU|].
    rewrite HR, HU. apply N. }
  intros c s1 s2 s3 Hz c'.
  assert (HR : Right c' = nan3).
  { subst c'. unfold updateCameraVectors.
    cbn [Right Front WorldUp set_Front set_Right set_Up]. rewrite Hz.
    destruct s1, s2, s3; vm_compute; reflexivity. }
  assert (HU : Up c' = nan3).
  { subst c'. unfold updateCameraVectors in *.
    cbn [Right Front Up WorldUp set_Front set_Right set_Up] in *.
    rewrite HR. destruct (normalize (Front c)) as [x y z].
    unfold normalize, cross, dot, vsmul, inversesqrt, nan3. cbn [vx vy vz].
    assert (Ml : forall a, fmul S754_nan a = S754_nan) by (intros a; reflexivity).
    assert (Mr : forall a, fmul a S754_nan = S754_nan) by (intros []; reflexivity).
    rewrite ?Ml, ?Mr. reflexivity. }
  split; [exact HR|]. split; [exact HU|]. rewrite HR, HU. apply N.
Qed.

(** C6, as amended.  Whenever [ProcessRA] runs a command, the position it
    leaves is the position recorded at dequeue (the camera's own position
    when the command is dequeued in this step); front is the normalised
    difference of the rotated look-at point and the rotated position, for
    the angle [Angle * percentage]; right and up are then derived again from
    front and the world up by [updateCameraVectors], so that the rotated up
    is not kept. *)
Theorem C6_rotateRA_keeps_position_and_rederives_up
    {F D : Type} {A : Arith F D} {T : Trig F} (c c1 : Camera F) :
  fetchRA c = Some c1 ->
  let r := currRA c1 in
  let angle :=
    fmul (ra_Angle r)
      (capped (percentage_of (currTime c1) (ra_InicialTime r) (ra_FinalTime r))) in
  let rot v :=
    xyz (vec4_mul_mat4 (vec4_of v fone) (glm_rotate mat4_identity angle (ra_Axis r))) in
  let c' := ProcessRA c in
  Position c' = ra_InicialPosition r /\
  Front c' =
    normalize (vsub (rot (vadd (ra_InicialPosition r) (ra_InicialFront r)))
                    (rot (ra_InicialPosition r))) /\
  Right c' = normalize (cross (Front c') (WorldUp c)) /\
  Up c' = normalize (cross (Right c') (Front c')) /\
  (ra_Ended (currRA c) = true ->
     ra_InicialPosition r = Position c /\ ra_InicialFront r = Front c /\
     ra_InicialUp r = Up c) /\
  (ra_Ended (currRA c) = false -> r = currRA c).
Proof. exact (@ProcessRA_pose F D A T c c1). Qed.

Lemma C6_witness :
  (let c := set_currRA (roll_cmd (V3 0 5 3) (V3 0 1 0)) cameraR in
  Position (ProcessRA c) = V3 0 5 3)%R.
Proof.
  intro c.
  exact (proj1 (@C6_rotateRA_keeps_position_and_rederives_up _ _ _ _ c c eq_refl)).
Defined.

(** C6 fails for a rotation about the viewing axis: after
    [rotateRA((0,0,-1), 1, 2)] has run to its end, with angle 1, front,
    right and up are what they were before, and up is not the rotated up. *)
Lemma C6_counterexample :
  let c0 := cameraR in
  let c2 := run [0; 2]%R (rotateRA (V3 0 0 (-1)) 1 2 c0)%R in
  let rot (v : vec3 R) :=
    xyz (vec4_mul_mat4 (vec4_of v 1%R)
           (glm_rotate mat4_identity 1%R (V3 0 0 (-1))%R)) in
  ra_Ended (currRA c2) = true /\ ra_Angle (currRA c2) = 1%R /\
  Position c2 = Position c0 /\
  Front c2 = Front c0 /\ Right c2 = Right c0 /\ Up c2 = Up c0 /\
  Up c2 <> vsub (rot (vadd (Position c0) (Up c0))) (rot (Position c0)).
Proof.
  destruct cameraR_pose as (HP & HF & HR & HU & HW).
  exact (roll_generic cameraR_idle HF HR HU HW).
Qed.



(** ** The claims on special cases *)

(** C5, the code at a duration of zero.  [Translate((0,10,-10), 0)] and
    [LookAt((0,10,-10), 0)], as [main.cpp] issues them, on the camera at
    [(0,5,3)]: in the frame that dequeues the command the percentage is
    [0/0], a NaN, the command is not [Ended], and the position (for the
    translation) or the whole basis (for the look-at) is made of NaNs; the
    command ends, with the final pose, in the next frame. *)
Theorem C5_zero_duration_first_sample_is_nan (T : Trig spec_float) :
  let nan3 := V3 S754_nan S754_nan S754_nan in
  (let c1 := frame (b32_of_Z 7) (Translate (v32 0 10 (-10)) (b32_of_Z 0) camera32) in
   let c2 := frame (b32_of_Z 8) c1 in
   percentage_of (b32_of_Z 7) (tr_InicialTime (currTranslation c1))
     (tr_FinalTime (currTranslation c1)) = S754_nan /\
   tr_Ended (currTranslation c1) = false /\ Position c1 = nan3 /\
   tr_Ended (currTranslation c2) = true /\ Position c2 = v32 0 10 (-10)) /\
  (let c1 := frame (b32_of_Z 7) (LookAt (v32 0 10 (-10)) (b32_of_Z 0) camera32) in
   let c2 := frame (b32_of_Z 8) c1 in
   la_Ended (currLookAt c1) = false /\
   Front c1 = nan3 /\ Right c1 = nan3 /\ Up c1 = nan3 /\
   la_Ended (currLookAt c2) = true).
Proof. vm_compute. repeat split; reflexivity. Qed.




(** * Further properties of the code *)

(** ** Runs of frames *)

Section Runs.
Context {F D : Type} {A : Arith F D} {T : Trig F} {TD : TrigD D}.

Lemma frame_idle tnow (c : Camera F) : idle c -> frame tnow c = set_currTime tnow c.
Proof. intros Hi. unfold frame, GetViewMatrix. cbn [fst]. apply ProcessTransformations_idle, Hi. Qed.

Lemma idle_set_currTime t (c : Camera F) : idle c -> idle (set_currTime t c).
Proof. intros Hi k. apply lane_idle_ext with (c := c); [apply lane_set_currTime | apply Hi]. Qed.

Lemma new_Camera_idle (position up front : vec3 F) zoom near far :
  idle (new_Camera position up front zoom near far).
Proof. intros []; split; reflexivity. Qed.

Lemma run_idle ts (c : Camera F) :
  idle c ->
  idle (run ts c) /\
  Position (run ts c) = Position c /\ Front (run ts c) = Front c /\
  Up (run ts c) = Up c /\ Right (run ts c) = Right c /\
  (forall k, lane k (run ts c) = lane k c) /\
  currTime (run ts c) = last ts (currTime c).
Proof.
  intros Hi. induction ts as [| t ts IH] using rev_ind.
  - split; [exact Hi|]. repeat split; reflexivity.
  - destruct IH as (Hi' & HP & HF & HU & HR & HL & _).
    rewrite run_snoc, (frame_idle t Hi'), last_last.
    split; [apply idle_set_currTime, Hi'|].
    do 4 (split; [assumption|]).
    split; [|reflexivity].
    intro k. rewrite lane_set_currTime. apply HL.
Qed.

Lemma fold_left_cons {X Y} (f : X -> Y -> X) y l x :
  fold_left f (y :: l) x = fold_left f l (f x y).
Proof. reflexivity. Qed.

Lemma run_cons t ts (c : Camera F) : run (t :: ts) c = run ts (frame t c).
Proof. exact (fold_left_cons (fun c t => frame t c) t ts c). Qed.

Lemma run_nil (c : Camera F) : run [] c = c.
Proof. reflexivity. Qed.

(** One frame takes nothing, or the front command, from a queue. *)
Lemma frame_queue_step k t (c : Camera F) :
  queue_of k (frame t c) = queue_of k c \/
  exists a, queue_of k c = a :: queue_of k (frame t c).
Proof.
  destruct (ended (current_of k c)) eqn:He.
  - destruct (queue_of k c) as [| a q] eqn:Hq.
    + left. assert (Hl := frame_lane_idle t (conj He Hq)).
      unfold lane in Hl. injection Hl as Hq' _. congruence.
    + right. exists a. destruct (frame_dequeue k t c He Hq) as [Hq' _]. congruence.
  - left. apply (frame_active k t c He).
Qed.

Lemma skipn_S_cons {X} n (l : list X) a q : skipn n l = a :: q -> skipn (S n) l = q.
Proof.
  revert l. induction n as [| n IH]; intros l H.
  - cbn in H. subst l. reflexivity.
  - destruct l as [| x l]; [discriminate|]. cbn in H. exact (IH l H).
Qed.

Lemma run_queue_prefix k ts (c : Camera F) :
  exists n, (n <= length ts)%nat /\ queue_of k (run ts c) = skipn n (queue_of k c).
Proof.
  induction ts as [| t ts IH] using rev_ind.
  - exists 0%nat. split; [cbn; lia | reflexivity].
  - destruct IH as (n & Hn & Hq). rewrite run_snoc, length_app. cbn [length].
    destruct (frame_queue_step k t (run ts c)) as [H | [a H]].
    + exists n. split; [lia | congruence].
    + exists (S n). split; [lia|]. symmetry. apply skipn_S_cons with (a := a). congruence.
Qed.
End Runs.

(** X1. A run of frames on an idle vector camera (six slots [Ended], six queues
    empty) changes nothing but the sampled time: after the frames at any
    list of times the camera is still idle, position, front, up, right and
    every lane are as before, and [currTime] is the last time of the list. *)
Theorem idle_camera_is_only_clocked
    {F D : Type} {A : Arith F D} {T : Trig F} (ts : list F) (c : Camera F) :
  idle c ->
  idle (run ts c) /\
  Position (run ts c) = Position c /\ Front (run ts c) = Front c /\
  Up (run ts c) = Up c /\ Right (run ts c) = Right c /\
  (forall k, lane k (run ts c) = lane k c) /\
  currTime (run ts c) = last ts (currTime c).
Proof. apply run_idle. Qed.

(** ** What the steps of a frame leave alone *)

Section Fields.
Context {F D : Type} {A : Arith F D} {T : Trig F} {TD : TrigD D}.

Lemma Process_options k (c : Camera F) : options_of (Process k c) = options_of c.
Proof. destruct k; unfold options_of; unfold_steps; repeat break_inner; reflexivity. Qed.

Lemma Process_currTime k (c : Camera F) : currTime (Process k c) = currTime c.
Proof. destruct k; unfold_steps; repeat break_inner; reflexivity. Qed.

Lemma ProcessBSPline_orientation (c : Camera F) :
  orientation_of (ProcessBSPline c) = orientation_of c.
Proof. unfold orientation_of; unfold_steps; repeat break_inner; reflexivity. Qed.
Lemma ProcessBezier_orientation (c : Camera F) :
  orientation_of (ProcessBezier c) = orientation_of c.
Proof. unfold orientation_of; unfold_steps; repeat break_inner; reflexivity. Qed.
Lemma processTranslation_orientation (c : Camera F) :
  orientation_of (processTranslation c) = orientation_of c.
Proof. unfold orientation_of; unfold_steps; repeat break_inner; reflexivity. Qed.

Lemma ProcessLookAt_Position (c : Camera F) : Position (ProcessLookAt c) = Position c.
Proof. unfold_steps; repeat break_inner; reflexivity. Qed.

(** The cameras of a frame: after the clock is sampled and after each of
    the first five steps; the frame is the look-at step of the last. *)
Lemma frame_stages t (c : Camera F) :
  exists c0 c1 c2 c3 c4 c5 : Camera F,
    c0 = set_currTime t c /\ c1 = Process KBSpline c0 /\ c2 = Process KBezier c1 /\
    c3 = Process KTranslation c2 /\ c4 = Process KRP c3 /\ c5 = Process KRA c4 /\
    frame t c = Process KLookAt c5.
Proof.
  do 6 eexists. do 6 (split; [reflexivity|]). apply frame_eq.
Qed.

Lemma step_lane {k j} {c c' : Camera F} : c' = Process k c -> k <> j -> lane j c' = lane j c.
Proof. intros ->. apply other_lane. Qed.

Lemma step_lane_idle {k j} {c c' : Camera F} :
  c' = Process k c -> k <> j -> lane_idle j c -> lane_idle j c'.
Proof. intros E Hkj. apply lane_idle_ext. exact (step_lane E Hkj). Qed.

Lemma step_idle {k} {c c' : Camera F} : c' = Process k c -> lane_idle k c -> c' = c.
Proof. intros ->. apply Process_idle. Qed.

Lemma step_currTime {k} {c c' : Camera F} : c' = Process k c -> currTime c' = currTime c.
Proof. intros ->. apply Process_currTime. Qed.

Lemma step_options {k} {c c' : Camera F} : c' = Process k c -> options_of c' = options_of c.
Proof. intros ->. apply Process_options. Qed.

Lemma frame_options t (c : Camera F) : options_of (frame t c) = options_of c.
Proof.
  destruct (frame_stages t c) as (c0 & c1 & c2 & c3 & c4 & c5 & E0 & E1 & E2 & E3 & E4 & E5 & EF).
  rewrite EF, Process_options, (step_options E5), (step_options E4), (step_options E3),
    (step_options E2), (step_options E1), E0. reflexivity.
Qed.

Lemma frame_currTime t (c : Camera F) : currTime (frame t c) = t.
Proof.
  destruct (frame_stages t c) as (c0 & c1 & c2 & c3 & c4 & c5 & E0 & E1 & E2 & E3 & E4 & E5 & EF).
  rewrite EF, Process_currTime, (step_currTime E5), (step_currTime E4), (step_currTime E3),
    (step_currTime E2), (step_currTime E1), E0. reflexivity.
Qed.

Lemma step_orientation {k} {c c' : Camera F} :
  c' = Process k c -> k = KBSpline \/ k = KBezier \/ k = KTranslation ->
  orientation_of c' = orientation_of c.
Proof.
  intros -> [-> | [-> | ->]]; cbn [Process].
  - apply ProcessBSPline_orientation.
  - apply ProcessBezier_orientation.
  - apply processTranslation_orientation.
Qed.

Lemma fetchRA_active (c : Camera F) : ra_Ended (currRA c) = false -> fetchRA c = Some c.
Proof. intros H. unfold fetchRA. rewrite H. reflexivity. Qed.
Lemma fetchRP_active (c : Camera F) : rp_Ended (currRP c) = false -> fetchRP c = Some c.
Proof. intros H. unfold fetchRP. rewrite H. reflexivity. Qed.
Lemma fetchBezier_active (c : Camera F) :
  sp_Ended (currBezier c) = false -> fetchBezier c = Some c.
Proof. intros H. unfold fetchBezier. rewrite H. reflexivity. Qed.

Lemma fetchRP_keeps (c c1 : Camera F) :
  fetchRP c = Some c1 ->
  Front c1 = Front c /\ Position c1 = Position c /\ currTime c1 = currTime c /\
  WorldUp c1 = WorldUp c.
Proof.
  unfold fetchRP. repeat break_inner; intros H; try discriminate;
    injection H as <-; repeat split; reflexivity.
Qed.

Lemma ProcessRP_pose (c c1 : Camera F) :
  fetchRP c = Some c1 ->
  let r := currRP c1 in
  let angle :=
    fmul (rp_Angle r)
      (capped (percentage_of (currTime c1) (rp_InicialTime r) (rp_FinalTime r))) in
  Position (ProcessRP c) =
    xyz (vec4_mul_mat4 (vec4_of (rp_InicialPosition r) fone)
           (rp_matrix r angle (Up c1))) /\
  Front (ProcessRP c) = normalize (Front c) /\
  Right (ProcessRP c) = normalize (cross (Front (ProcessRP c)) (WorldUp c)) /\
  Up (ProcessRP c) = normalize (cross (Right (ProcessRP c)) (Front (ProcessRP c))).
Proof.
  intros H. destruct (fetchRP_keeps _ H) as (HF & _ & _ & HW).
  unfold ProcessRP. rewrite H. cbv zeta. rewrite <- HF, <- HW.
  unfold stepRP, applyRP, rp_matrix, capped.
  destruct (reached _); repeat split; reflexivity.
Qed.

Lemma ProcessBezier_active_Position (c : Camera F) :
  sp_Ended (currBezier c) = false ->
  let b := currBezier c in
  let p := percentage_of (currTime c) (sp_InicialTime b) (sp_Time b) in
  Position (ProcessBezier c) = if reached p then sp_p3 b else Bezier b p.
Proof.
  intros H. unfold ProcessBezier. rewrite (fetchBezier_active _ H). cbv zeta.
  unfold stepBezier. destruct (reached _); reflexivity.
Qed.

Lemma lane_current {k} {c c' : Camera F} :
  lane k c' = lane k c -> current_of k c' = current_of k c.
Proof. unfold lane. congruence. Qed.
End Fields.

(** X2. [ProcessTransformations] runs the steps in the order B-spline, Bezier,
    translation, rotation about a point, rotation about an axis, look-at,
    and five of them assign [Position]: the last active one in that order
    decides the position of the frame.  With an un-ended rotation about an
    axis in the slot the position after the frame is that command's
    [InicialPosition], whatever the other lanes hold; with an un-ended
    rotation about a point and an idle axis lane it is the product of that
    command's [InicialPosition] with its matrix; with an un-ended
    translation and both rotation lanes idle it is the translation's
    interpolation; with an un-ended Bezier command and the translation and
    rotation lanes idle it is the Bezier point ([p3] at the end). *)
Theorem last_position_writer_wins
    {F D : Type} {A : Arith F D} {T : Trig F} (t : F) (c : Camera F) :
  (ra_Ended (currRA c) = false ->
     Position (frame t c) = ra_InicialPosition (currRA c)) /\
  (rp_Ended (currRP c) = false -> lane_idle KRA c ->
     let r := currRP c in
     let angle :=
       fmul (rp_Angle r)
         (capped (percentage_of t (rp_InicialTime r) (rp_FinalTime r))) in
     Position (frame t c) =
       xyz (vec4_mul_mat4 (vec4_of (rp_InicialPosition r) fone)
              (rp_matrix r angle (Up c)))) /\
  (tr_Ended (currTranslation c) = false -> lane_idle KRP c -> lane_idle KRA c ->
     let tr := currTranslation c in
     Position (frame t c) =
       interpolate (tr_InicialPosition tr) (tr_Position tr)
         (capped (percentage_of t (tr_InicialTime tr) (tr_FinalTime tr)))) /\
  (sp_Ended (currBezier c) = false ->
     lane_idle KTranslation c -> lane_idle KRP c -> lane_idle KRA c ->
     let b := currBezier c in
     let p := percentage_of t (sp_InicialTime b) (sp_Time b) in
     Position (frame t c) = if reached p then sp_p3 b else Bezier b p).
Proof.
  destruct (frame_stages t c)
    as (c0 & c1 & c2 & c3 & c4 & c5 & E0 & E1 & E2 & E3 & E4 & E5 & EF).
  assert (L0 : forall j, lane j c0 = lane j c) by (intro; rewrite E0; apply lane_set_currTime).
  assert (T0 : currTime c0 = t) by (rewrite E0; reflexivity).
  assert (O0 : orientation_of c0 = orientation_of c) by (rewrite E0; reflexivity).
  clear E0.
  assert (L1 : forall j, KBSpline <> j -> lane j c1 = lane j c)
    by (intros j Hj; rewrite (step_lane E1 Hj); apply L0).
  assert (T1 : currTime c1 = t) by (rewrite (step_currTime E1); exact T0).
  assert (O1 : orientation_of c1 = orientation_of c)
    by (rewrite (step_orientation E1); auto).
  clear E1 L0 T0 O0 c0.
  assert (L2 : forall j, KBSpline <> j -> KBezier <> j -> lane j c2 = lane j c)
    by (intros j Hj Hj'; rewrite (step_lane E2 Hj'); apply L1, Hj).
  assert (T2 : currTime c2 = t) by (rewrite (step_currTime E2); exact T1).
  assert (O2 : orientation_of c2 = orientation_of c)
    by (rewrite (step_orientation E2); auto).
  assert (L3 : forall j, KBSpline <> j -> KBezier <> j -> KTranslation <> j ->
                 lane j c3 = lane j c)
    by (intros j Hj Hj' Hj''; rewrite (step_lane E3 Hj''); apply L2; assumption).
  assert (T3 : currTime c3 = t) by (rewrite (step_currTime E3); exact T2).
  assert (O3 : orientation_of c3 = orientation_of c)
    by (rewrite (step_orientation E3); auto).
  assert (L4 : forall j, KBSpline <> j -> KBezier <> j -> KTranslation <> j -> KRP <> j ->
                 lane j c4 = lane j c)
    by (intros j H H' H'' H'''; rewrite (step_lane E4 H'''); apply L3; assumption).
  rewrite EF. cbn [Process]. rewrite ProcessLookAt_Position.
  split; [|split; [|split]].
  - intros He.
    assert (Hc : currRA c4 = currRA c).
    { assert (H := lane_current (L4 KRA ltac:(discriminate) ltac:(discriminate)
                                   ltac:(discriminate) ltac:(discriminate))).
      cbn [current_of] in H. congruence. }
    assert (He' : ra_Ended (currRA c4) = false) by (rewrite Hc; exact He).
    rewrite E5. cbn [Process].
    destruct (ProcessRA_pose _ (fetchRA_active _ He')) as (HP & _).
    rewrite HP, Hc. reflexivity.
  - intros He Hi.
    assert (Hi4 : lane_idle KRA c4).
    { apply lane_idle_ext with (c := c); [|exact Hi]. apply L4; discriminate. }
    rewrite (step_idle E5 Hi4).
    assert (Hc : currRP c3 = currRP c).
    { assert (H := lane_current (L3 KRP ltac:(discriminate) ltac:(discriminate)
                                   ltac:(discriminate))).
      cbn [current_of] in H. congruence. }
    assert (He' : rp_Ended (currRP c3) = false) by (rewrite Hc; exact He).
    rewrite E4. cbn [Process].
    destruct (ProcessRP_pose _ (fetchRP_active _ He')) as (HP & _).
    assert (HU : Up c3 = Up c) by (unfold orientation_of in O3; congruence).
    rewrite HP, Hc, HU, T3. reflexivity.
  - intros He H1 H2.
    assert (Hi4 : lane_idle KRA c4).
    { apply lane_idle_ext with (c := c); [|exact H2]. apply L4; discriminate. }
    rewrite (step_idle E5 Hi4).
    assert (Hi3 : lane_idle KRP c3).
    { apply lane_idle_ext with (c := c); [|exact H1]. apply L3; discriminate. }
    rewrite (step_idle E4 Hi3).
    assert (Hc : currTranslation c2 = currTranslation c).
    { assert (H := lane_current (L2 KTranslation ltac:(discriminate) ltac:(discriminate))).
      cbn [current_of] in H. congruence. }
    assert (He' : tr_Ended (currTranslation c2) = false) by (rewrite Hc; exact He).
    rewrite E3. cbn [Process].
    destruct (processTranslation_active _ He') as (HP & _).
    rewrite HP, Hc, T2. reflexivity.
  - intros He H0 H1 H2.
    assert (Hi4 : lane_idle KRA c4).
    { apply lane_idle_ext with (c := c); [|exact H2]. apply L4; discriminate. }
    rewrite (step_idle E5 Hi4).
    assert (Hi3 : lane_idle KRP c3).
    { apply lane_idle_ext with (c := c); [|exact H1]. apply L3; discriminate. }
    rewrite (step_idle E4 Hi3).
    assert (Hi2 : lane_idle KTranslation c2).
    { apply lane_idle_ext with (c := c); [|exact H0]. apply L2; discriminate. }
    rewrite (step_idle E3 Hi2).
    assert (Hc : currBezier c1 = currBezier c).
    { assert (H := lane_current (L1 KBezier ltac:(discriminate))).
      cbn [current_of] in H. congruence. }
    assert (He' : sp_Ended (currBezier c1) = false) by (rewrite Hc; exact He).
    rewrite E2. cbn [Process].
    rewrite (ProcessBezier_active_Position _ He'), Hc, T1. reflexivity.
Qed.

(** X3. What a frame of the vector camera never changes.  [WorldUp],
    [MovementSpeed], [MouseSensitivity], [Zoom], [Near], [Far] and
    [noiseActive] are the same after every frame, and [currTime] is the
    time of the frame.  When the two rotation lanes and the look-at lane are
    idle, front, right and up are as before: the two paths and the
    translation never touch the orientation.  When the five lanes other than
    look-at are idle the position is as before: a look-at never moves the
    camera. *)
Theorem frames_keep_options_and_separate_lanes
    {F D : Type} {A : Arith F D} {T : Trig F} (t : F) (c : Camera F) :
  (WorldUp (frame t c) = WorldUp c /\
   MovementSpeed (frame t c) = MovementSpeed c /\
   MouseSensitivity (frame t c) = MouseSensitivity c /\
   Zoom (frame t c) = Zoom c /\ Near (frame t c) = Near c /\
   Far (frame t c) = Far c /\ noiseActive (frame t c) = noiseActive c /\
   currTime (frame t c) = t) /\
  (lane_idle KRP c -> lane_idle KRA c -> lane_idle KLookAt c ->
     Front (frame t c) = Front c /\ Right (frame t c) = Right c /\
     Up (frame t c) = Up c) /\
  (lane_idle KBSpline c -> lane_idle KBezier c -> lane_idle KTranslation c ->
   lane_idle KRP c -> lane_idle KRA c ->
     Position (frame t c) = Position c).
Proof.
  split; [|split].
  - assert (H := frame_options t c). unfold options_of in H.
    injection H as H1 H2 H3 H4 H5 H6 H7.
    repeat split; try assumption. apply frame_currTime.
  - intros H1 H2 H3.
    destruct (frame_stages t c)
      as (c0 & c1 & c2 & c3 & c4 & c5 & E0 & E1 & E2 & E3 & E4 & E5 & EF).
    assert (I0 : forall j, lane_idle j c -> lane_idle j c0).
    { intros j. apply lane_idle_ext. rewrite E0. apply lane_set_currTime. }
    assert (O0 : orientation_of c0 = orientation_of c) by (rewrite E0; reflexivity).
    assert (O3 : orientation_of c3 = orientation_of c).
    { rewrite (step_orientation E3), (step_orientation E2), (step_orientation E1); auto. }
    assert (I3 : forall j, j = KRP \/ j = KRA \/ j = KLookAt -> lane_idle j c -> lane_idle j c3).
    { intros j Hj Hi.
      apply (step_lane_idle E3); [destruct Hj as [-> | [-> | ->]]; discriminate|].
      apply (step_lane_idle E2); [destruct Hj as [-> | [-> | ->]]; discriminate|].
      apply (step_lane_idle E1); [destruct Hj as [-> | [-> | ->]]; discriminate|].
      apply I0, Hi. }
    assert (E4' : c4 = c3) by (apply (step_idle E4), I3; auto).
    assert (E5' : c5 = c3).
    { rewrite <- E4'. apply (step_idle E5). rewrite E4'. apply I3; auto. }
    rewrite EF, E5'. rewrite Process_idle by (apply I3; auto).
    unfold orientation_of in O3. injection O3 as Ha Hb Hc. auto.
  - intros H1 H2 H3 H4 H5.
    rewrite (@frame_only_lane _ _ _ _ KLookAt t c).
    + cbn [Process]. rewrite ProcessLookAt_Position. reflexivity.
    + intros [] Hj; try assumption. congruence.
Qed.

(** X6. Frames consume a queue from its front only: after any run of frames the
    queue of each kind is the queue before the run without its first [n]
    commands, for some [n] that is at most the number of frames.  No frame
    adds a command, reorders the queue or takes a command from its middle,
    and a frame dequeues at most one command of a kind. *)
Theorem run_takes_commands_in_order
    {F D : Type} {A : Arith F D} {T : Trig F} (k : Kind) (ts : list F) (c : Camera F) :
  exists n, (n <= length ts)%nat /\ queue_of k (run ts c) = skipn n (queue_of k c).
Proof. apply run_queue_prefix. Qed.

(** X7. The six intake calls ([LookAt], [Translate], [rotateRP], [rotateRA],
    [bSplinePath], [bezierPath]) only append.  The call puts its command,
    not [Ended], at the back of the queue of its kind and leaves the slot of
    that kind, every other lane, position, front, right, up, the sampled
    time and the options as they were.  Two intake calls of different kinds
    commute: issued in either order they give the same camera. *)
Theorem intake_only_appends_and_commutes
    {F D : Type} {A : Arith F D} {T : Trig F}
    (k : Kind) (x : command F) (c c1 : Camera F) :
  enqueue_call k x c c1 ->
  (ended x = false /\
   queue_of k c1 = queue_of k c ++ [x] /\ current_of k c1 = current_of k c /\
   (forall j, j <> k -> lane j c1 = lane j c) /\
   Position c1 = Position c /\ Front c1 = Front c /\ Right c1 = Right c /\
   Up c1 = Up c /\ currTime c1 = currTime c /\ options_of c1 = options_of c) /\
  (forall j y c2, j <> k -> enqueue_call j y c1 c2 ->
     exists c1', enqueue_call j y c c1' /\ enqueue_call k x c1' c2).
Proof.
  intros H. split.
  - destruct (enqueue_call_lane H) as [Hq Hc].
    split; [destruct H; reflexivity|]. split; [exact Hq|]. split; [exact Hc|].
    split.
    { intros j Hj. destruct H; destruct j; try reflexivity; congruence. }
    destruct H; repeat split; reflexivity.
  - intros j y c2 Hj H2.
    destruct H; inversion H2; subst; try congruence;
      eexists; (split; [econstructor|]);
      match goal with |- enqueue_call _ _ _ ?r =>
        match r with
        | LookAt ?P ?t (?f ?c0) => change r with (LookAt P t (f c0))
        | _ => idtac
        end
      end; try (econstructor; fail).
Qed.

(** ** The application *)

Section MainProofs.
Context {F D : Type} {A : Arith F D} {T : Trig F} {TD : TrigD D}.
Local Abbreviation Globals := (Main.Globals F).
Local Abbreviation Cam := (YawPitch.Camera F).

Lemma length_assign i (c : Cam) l : length (Main.assign i c l) = length l.
Proof.
  revert i. induction l as [| x l IH]; intros [| i]; cbn; try reflexivity.
  rewrite IH. reflexivity.
Qed.

Lemma nth_error_assign_same i (c x : Cam) l :
  nth_error l i = Some x -> nth_error (Main.assign i c l) i = Some c.
Proof.
  revert i. induction l as [| y l IH]; intros [| i] H; cbn in *; try discriminate.
  - reflexivity.
  - apply IH, H.
Qed.

Lemma nth_error_assign_other i j (c : Cam) l :
  i <> j -> nth_error (Main.assign i c l) j = nth_error l j.
Proof.
  revert i j. induction l as [| y l IH]; intros [| i] [| j] H; cbn; try reflexivity.
  - contradiction.
  - apply IH. congruence.
Qed.

Lemma assign_assign i (c c' : Cam) l :
  Main.assign i c' (Main.assign i c l) = Main.assign i c' l.
Proof.
  revert i. induction l as [| y l IH]; intros [| i]; cbn; try reflexivity.
  rewrite IH. reflexivity.
Qed.

Lemma assign_same i (c : Cam) l : nth_error l i = Some c -> Main.assign i c l = l.
Proof.
  revert i. induction l as [| y l IH]; intros [| i] H; cbn in *; try discriminate.
  - congruence.
  - rewrite IH by exact H. reflexivity.
Qed.

Lemma in_bounds_current (g : Globals) : in_bounds g -> exists c, current g = Some c.
Proof.
  intros (Hn & Hc & _). unfold current.
  destruct (nth_error (Main.cameras g) (Z.to_nat (Main.currentCamera g))) eqn:E.
  - eauto.
  - apply nth_error_None in E. lia.
Qed.

Lemma on_current_Some f (g : Globals) c :
  current g = Some c ->
  Main.on_current f g =
  Some (Main.set_cameras
          (Main.assign (Z.to_nat (Main.currentCamera g)) (f c) (Main.cameras g)) g).
Proof. unfold current, Main.on_current. intros ->. reflexivity. Qed.

Lemma in_bounds_set_cameras (g : Globals) l :
  length l = length (Main.cameras g) -> in_bounds g -> in_bounds (Main.set_cameras l g).
Proof.
  intros Hl (Hn & Hc & Hb). unfold in_bounds. cbn. rewrite Hl. auto.
Qed.

Lemma uint_small z : (0 <= z < 4294967296)%Z -> Main.uint z = z.
Proof. intros H. unfold Main.uint. apply Z.mod_small, H. Qed.

Lemma changeCamera_spec (g : Globals) :
  in_bounds g ->
  in_bounds (Main.changeCamera g) /\
  Main.currentCamera (Main.changeCamera g) =
    ((Main.currentCamera g + 1) mod Main.numberOfCameras g)%Z /\
  Main.cameras (Main.changeCamera g) = Main.cameras g /\
  Main.numberOfCameras (Main.changeCamera g) = Main.numberOfCameras g.
Proof.
  intros (Hn & Hc & Hb). unfold Main.changeCamera.
  rewrite uint_small by lia.
  destruct (Z.eqb_spec (Main.numberOfCameras g - 1) (Main.currentCamera g)) as [E | E].
  - replace (Main.currentCamera g + 1)%Z with (Main.numberOfCameras g) by lia.
    rewrite Z.mod_same by lia.
    split; [|repeat split; reflexivity]. unfold in_bounds. cbn. repeat split; try lia.
  - rewrite uint_small by lia. rewrite Z.mod_small by lia.
    split; [|repeat split; reflexivity]. unfold in_bounds. cbn. repeat split; try lia.
Qed.

Lemma changeCamera_iter (g : Globals) (k : nat) :
  in_bounds g ->
  in_bounds (Nat.iter k (@Main.changeCamera F) g) /\
  Main.numberOfCameras (Nat.iter k (@Main.changeCamera F) g) = Main.numberOfCameras g /\
  Main.cameras (Nat.iter k (@Main.changeCamera F) g) = Main.cameras g /\
  Main.currentCamera (Nat.iter k (@Main.changeCamera F) g) =
    ((Main.currentCamera g + Z.of_nat k) mod Main.numberOfCameras g)%Z.
Proof.
  intros Hg. induction k as [| k IH].
  - cbn [Nat.iter]. split; [exact Hg|]. destruct Hg as (Hn & Hc & Hb).
    split; [reflexivity|]. split; [reflexivity|].
    replace (Main.currentCamera g + Z.of_nat 0)%Z with (Main.currentCamera g) by lia.
    rewrite Z.mod_small by lia. reflexivity.
  - change (Nat.iter (S k) (@Main.changeCamera F) g)
      with (Main.changeCamera (Nat.iter k (@Main.changeCamera F) g)).
    destruct IH as (I1 & I2 & I3 & I4).
    destruct (changeCamera_spec I1) as (S1 & S2 & S3 & S4).
    split; [exact S1|]. split; [rewrite S4; exact I2|]. split; [rewrite S3; exact I3|].
    rewrite S2, I2, I4. destruct Hg as (Hn & Hc & Hb).
    rewrite Z.add_mod_idemp_l by lia. f_equal. lia.
Qed.

Lemma createCamera_spec (g : Globals) :
  in_bounds g -> (Main.numberOfCameras g + 1 < 4294967296)%Z ->
  in_bounds (Main.createCamera g) /\
  Main.numberOfCameras (Main.createCamera g) = (Main.numberOfCameras g + 1)%Z /\
  Main.currentCamera (Main.createCamera g) = Main.currentCamera g /\
  Main.cameras (Main.createCamera g) =
    Main.cameras g ++
    [YawPitchConstructor.new_Camera (Main.position g) (Main.up g) (Main.yaw g)
       (Main.pitch g) (Main.zoom g) (Main.near g) (Main.far g)] /\
  current (Main.createCamera g) = current g.
Proof.
  intros (Hn & Hc & Hb) Hlt. unfold Main.createCamera. cbn.
  rewrite uint_small by lia.
  split; [|split; [reflexivity|split; [reflexivity|split; [reflexivity|]]]].
  - unfold in_bounds. cbn. rewrite length_app. cbn. lia.
  - unfold current. cbn. apply nth_error_app1. lia.
Qed.

Lemma bind_ok (P Q : Globals -> Prop) (m : option Globals) f :
  (exists g, m = Some g /\ P g) ->
  (forall g, P g -> exists g', f g = Some g' /\ Q g') ->
  exists g', Main.bind m f = Some g' /\ Q g'.
Proof. intros (g & -> & Hg) H. exact (H g Hg). Qed.

Lemma on_current_after n f (g : Globals) :
  after_enter n g -> exists g', Main.on_current f g = Some g' /\ after_enter n g'.
Proof.
  intros (Hb & Hl). destruct (in_bounds_current Hb) as (c & Hc).
  rewrite (on_current_Some f _ Hc). eexists. split; [reflexivity|].
  split.
  - apply in_bounds_set_cameras; [apply length_assign | exact Hb].
  - cbn. rewrite length_assign. exact Hl.
Qed.

Lemma command_after n (b : bool) f (reset : Globals -> Globals) (g : Globals) :
  (forall x, after_enter n x -> after_enter n (reset x)) ->
  after_enter n g ->
  exists g',
    (if b then Main.bind (Main.on_current f g) (fun g => Some (reset g)) else Some g)
    = Some g' /\ after_enter n g'.
Proof.
  intros Hr Hg. destruct b; [|eauto].
  apply bind_ok with (P := after_enter n); [apply on_current_after, Hg|].
  intros x Hx. eauto.
Qed.

Lemma move_after n (b : bool) f (g : Globals) :
  after_enter n g ->
  exists g', (if b then Main.on_current f g else Some g) = Some g' /\ after_enter n g'.
Proof. intros Hg. destruct b; [apply on_current_after, Hg | eauto]. Qed.

Ltac let_step y :=
  lazymatch goal with
  | |- exists g', (let x := ?E in @?B x) = Some g' /\ @?Q g' =>
      set (y := E); change (exists g', B y = Some g' /\ Q g'); cbv beta
  end.

Lemma processInput_in_bounds key (g : Globals) :
  in_bounds g -> (Main.numberOfCameras g + 1 < 4294967296)%Z ->
  exists g', Main.processInput key g = Some g' /\
             after_enter (length (Main.cameras g)) g'.
Proof.
  intros Hb Hlt.
  assert (H : before_enter (length (Main.cameras g)) g)
    by (split; [exact Hb | split; [exact Hlt | reflexivity]]).
  revert H. generalize (length (Main.cameras g)). intros n H. clear Hb Hlt.
  cbv beta delta [Main.processInput].
  let_step ga. assert (Ha : before_enter n ga) by (subst ga; destruct (key _); exact H).
  clearbody ga. clear g H.
  let_step gb. assert (Hb : before_enter n gb) by (subst gb; destruct (key _); exact Ha).
  clearbody gb. clear ga Ha.
  let_step ga. assert (Ha : before_enter n ga).
  { subst ga. destruct (negb _ && _); [|exact Hb].
    destruct Hb as (Hb & Hlt & Hl).
    assert (Hb' : in_bounds (Main.set_tab false gb)) by exact Hb.
    destruct (changeCamera_spec Hb') as (S1 & S2 & S3 & S4).
    split; [exact S1|]. split; [rewrite S4; exact Hlt | rewrite S3; exact Hl]. }
  clearbody ga. clear gb Hb.
  let_step gb. assert (Hb : before_enter n gb) by (subst gb; destruct (key _); exact Ha).
  clearbody gb. clear ga Ha.
  let_step ga. assert (Ha : after_enter n ga).
  { subst ga. destruct Hb as (Hb & Hlt & Hl). destruct (negb _ && _).
    - assert (Hb' : in_bounds (Main.set_enter false gb)) by exact Hb.
      destruct (createCamera_spec Hb' Hlt) as (S1 & S2 & S3 & S4 & S5).
      split; [exact S1|]. rewrite S4, length_app. cbn [length Main.cameras Main.set_enter].
      lia.
    - split; [exact Hb | lia]. }
  clearbody ga. clear gb Hb.
  let_step gb. assert (Hb : after_enter n gb) by (subst gb; destruct (key _); exact Ha).
  clearbody gb. clear ga Ha.
  let_step ga. assert (Ha : after_enter n ga) by (subst ga; destruct (key _); exact Hb).
  clearbody ga. clear gb Hb.
  let_step gb. assert (Hb : after_enter n gb) by (subst gb; destruct (key _); exact Ha).
  clearbody gb. clear ga Ha.
  apply bind_ok with (P := after_enter n);
    [apply command_after; [intros x Hx; exact Hx | exact Hb]|].
  clear gb Hb. intros g H.
  apply bind_ok with (P := after_enter n);
    [apply command_after; [intros x Hx; exact Hx | exact H]|].
  clear g H. intros g H.
  apply bind_ok with (P := after_enter n);
    [apply command_after; [intros x Hx; exact Hx | exact H]|].
  clear g H. intros g H.
  do 4 (apply bind_ok with (P := after_enter n); [apply move_after, H|];
        clear g H; intros g H).
  let_step ga. assert (Ha : after_enter n ga) by (subst ga; destruct (key _); exact H).
  clearbody ga. clear g H.
  let_step gb. assert (Hb : after_enter n gb) by (subst gb; destruct (key _); exact Ha).
  clearbody gb. clear ga Ha.
  let_step ga. assert (Ha : after_enter n ga) by (subst ga; destruct (key _); exact Hb).
  clearbody ga. clear gb Hb.
  apply bind_ok with (P := after_enter n);
    [apply command_after; [intros x Hx; exact Hx | exact Ha]|].
  clear ga Ha. intros g H.
  apply bind_ok with (P := after_enter n);
    [apply command_after; [intros x Hx; exact Hx | exact H]|].
  clear g H. intros g H.
  apply bind_ok with (P := after_enter n);
    [apply command_after; [intros x Hx; exact Hx | exact H]|].
  clear g H. intros g H.
  do 3 (apply bind_ok with (P := after_enter n); [apply move_after, H|];
        clear g H; intros g H).
  apply move_after, H.
Qed.

Lemma mouse_callback_in_bounds (xpos ypos : D) (g : Globals) :
  in_bounds g ->
  exists g' c,
    Main.mouse_callback xpos ypos g = Some g' /\ in_bounds g' /\
    current g = Some c /\
    Main.firstMouse g' = false /\
    Main.lastX g' = narrow xpos /\ Main.lastY g' = narrow ypos /\
    Main.currentCamera g' = Main.currentCamera g /\
    Main.cameras g' =
      Main.assign (Z.to_nat (Main.currentCamera g))
        (YawPitch.ProcessMouseMovement
           (narrow (dsub xpos (widen (if Main.firstMouse g then narrow xpos
                                      else Main.lastX g))))
           (narrow (dsub (widen (if Main.firstMouse g then narrow ypos
                                 else Main.lastY g)) ypos))
           true c)
        (Main.cameras g).
Proof.
  intros Hb. destruct (in_bounds_current Hb) as (c & Hc).
  unfold Main.mouse_callback.
  destruct (Main.firstMouse g) eqn:Ef.
  - cbv zeta. rewrite (on_current_Some _ _ (c := c)) by exact Hc.
    eexists. exists c. split; [reflexivity|]. split.
    { apply in_bounds_set_cameras; [apply length_assign | exact Hb]. }
    repeat split; try reflexivity. exact Hc.
  - cbv zeta. rewrite (on_current_Some _ _ (c := c)) by exact Hc.
    eexists. exists c. split; [reflexivity|]. split.
    { apply in_bounds_set_cameras; [apply length_assign | exact Hb]. }
    repeat split; try reflexivity; try exact Hc. exact Ef.
Qed.
End MainProofs.

Ltac main_cbn :=
  cbn [only no_key Key_index Nat.eqb negb andb Main.bind
       Main.cameras Main.currentCamera Main.numberOfCameras Main.position Main.up
       Main.zoom Main.yaw Main.pitch Main.near Main.far Main.tab Main.enter
       Main.lastX Main.lastY Main.firstMouse Main.obj1 Main.obj2 Main.obj3
       Main.t1 Main.t2 Main.t3 Main.deltaTime Main.windowShouldClose
       Main.set_cameras Main.set_currentCamera Main.set_numberOfCameras Main.set_tab
       Main.set_enter Main.set_lastX Main.set_lastY Main.set_firstMouse Main.set_obj1
       Main.set_obj2 Main.set_obj3 Main.set_t1 Main.set_t2 Main.set_t3
       Main.set_windowShouldClose].
Ltac run_input := cbv beta delta [Main.processInput]; main_cbn.
Ltac run_current H := unfold Main.on_current; main_cbn; rewrite H; main_cbn.

Section MainScenarios.
Context {F D : Type} {A : Arith F D} {T : Trig F} {TD : TrigD D}.
Local Abbreviation Globals := (Main.Globals F).

Lemma unlatched_flags (g : Globals) :
  unlatched g ->
  Main.tab g = false /\ Main.enter g = false /\ Main.obj1 g = false /\
  Main.obj2 g = false /\ Main.obj3 g = false /\ Main.t1 g = false /\
  Main.t2 g = false /\ Main.t3 g = false.
Proof.
  intros H.
  pose proof (H Main.KEY_TAB). pose proof (H Main.KEY_ENTER). pose proof (H Main.KEY_Q).
  pose proof (H Main.KEY_E). pose proof (H Main.KEY_R). pose proof (H Main.KEY_T).
  pose proof (H Main.KEY_Y). pose proof (H Main.KEY_U). cbn in *. repeat split; assumption.
Qed.

(** X18. The six command keys of [processInput] (Q, E, R for the look-ats and T,
    Y, U for the translations) act on release, once.  With no latch set, a
    call with the key down sets the latch of the key and changes no camera,
    and further calls with the key down change nothing.  The first call with
    the key up issues the command of the key on [cameras[currentCamera]] and
    clears the latch; calls with no key down change nothing after that. *)
Theorem command_keys_fire_once_on_release
    (k : Main.Key) (f : YawPitch.Camera F -> YawPitch.Camera F) (g : Globals)
    (c : YawPitch.Camera F) :
  command_of k = Some f -> unlatched g -> current g = Some c ->
  exists g1 g2,
    Main.processInput (only k) g = Some g1 /\
    Main.cameras g1 = Main.cameras g /\ latch k g1 = true /\
    Main.processInput (only k) g1 = Some g1 /\
    Main.processInput no_key g1 = Some g2 /\
    Main.cameras g2 =
      Main.assign (Z.to_nat (Main.currentCamera g)) (f c) (Main.cameras g) /\
    unlatched g2 /\
    Main.processInput no_key g2 = Some g2.
Proof.
  intros Hk Hu Hc. apply unlatched_flags in Hu.
  destruct g as [cams cur n pos up zoom yaw pitch near far tb en lx ly fm o1 o2 o3
                   l1 l2 l3 dt wsc].
  unfold current in Hc. cbn in Hu, Hc.
  destruct Hu as (-> & -> & -> & -> & -> & -> & -> & ->).
  assert (Hc' : forall x, nth_error (Main.assign (Z.to_nat cur) x cams) (Z.to_nat cur) = Some x)
    by (intro x; exact (nth_error_assign_same _ x _ Hc)).
  destruct k; try discriminate Hk; injection Hk as <-;
    do 2 eexists;
    (split; [run_input; reflexivity|]);
    (split; [reflexivity|]);
    (split; [reflexivity|]);
    (split; [run_input; reflexivity|]);
    (split; [run_input; run_current Hc; reflexivity|]);
    (split; [reflexivity|]);
    (split; [intros []; reflexivity|]);
    run_input; reflexivity.
Qed.

(** X19. One call of [processInput] with one movement key (W, S, A, D) down, no
    latch set and [cameras[currentCamera]] in range, applies
    [ProcessKeyboard] of that direction with [deltaTime] twice to
    [cameras[currentCamera]] and changes nothing else: the four tests stand
    twice in the function, before and after the translation keys. *)
Theorem held_movement_key_moves_twice
    (k : Main.Key) (d : YawPitch.Camera_Movement) (g : Globals)
    (c : YawPitch.Camera F) :
  movement_of k = Some d -> unlatched g -> current g = Some c ->
  let step := YawPitch.ProcessKeyboard d (Main.deltaTime g) in
  Main.processInput (only k) g =
  Some (Main.set_cameras
          (Main.assign (Z.to_nat (Main.currentCamera g)) (step (step c))
             (Main.cameras g)) g).
Proof.
  intros Hk Hu Hc. apply unlatched_flags in Hu.
  destruct g as [cams cur n pos up zoom yaw pitch near far tb en lx ly fm o1 o2 o3
                   l1 l2 l3 dt wsc].
  unfold current in Hc. cbn in Hu, Hc.
  destruct Hu as (-> & -> & -> & -> & -> & -> & -> & ->).
  assert (Hc' : forall x, nth_error (Main.assign (Z.to_nat cur) x cams) (Z.to_nat cur) = Some x)
    by (intro x; exact (nth_error_assign_same _ x _ Hc)).
  destruct k; try discriminate Hk; injection Hk as <-; cbv zeta;
    run_input; run_current Hc; run_current Hc'; rewrite assign_assign; reflexivity.
Qed.

(** X20. [changeCamera], when index and counter agree with the vector of
    cameras: the index becomes [(currentCamera + 1) mod numberOfCameras], so
    it stays in range; the cameras are untouched; [k] calls move the index
    to [(currentCamera + k) mod numberOfCameras], and [numberOfCameras]
    calls bring it back. *)
Theorem changeCamera_cycles (g : Globals) :
  in_bounds g ->
  let n := Main.numberOfCameras g in
  in_bounds (Main.changeCamera g) /\
  Main.currentCamera (Main.changeCamera g) = ((Main.currentCamera g + 1) mod n)%Z /\
  Main.cameras (Main.changeCamera g) = Main.cameras g /\
  (forall k,
     Main.currentCamera (Nat.iter k (@Main.changeCamera F) g) =
     ((Main.currentCamera g + Z.of_nat k) mod n)%Z) /\
  Main.currentCamera (Nat.iter (Z.to_nat n) (@Main.changeCamera F) g) =
    Main.currentCamera g.
Proof.
  intros Hg n. destruct (changeCamera_spec Hg) as (S1 & S2 & S3 & _).
  split; [exact S1|]. split; [exact S2|]. split; [exact S3|].
  split; [intro k; apply (changeCamera_iter k Hg)|].
  destruct (changeCamera_iter (Z.to_nat n) Hg) as (_ & _ & _ & H). rewrite H.
  destruct Hg as (Hn & Hc & Hb). fold n in Hc, Hb.
  rewrite Z2Nat.id by lia. fold n.
  replace (Main.currentCamera g + n)%Z with (Main.currentCamera g + 1 * n)%Z by lia.
  rewrite Z.mod_add by lia. apply Z.mod_small. lia.
Qed.

(** X21. When index and counter agree with the vector of cameras and the counter
    can still be incremented, no handler indexes [cameras] past its end.
    [createCamera] appends the camera of the default configuration and keeps
    the agreement and the current camera.  [processInput], for every state
    of the keys, returns, keeps the agreement and adds at most one camera.
    The two mouse callbacks return, keep the agreement and the number of
    cameras. *)
Theorem input_handlers_stay_in_bounds (g : Globals) :
  in_bounds g -> (Main.numberOfCameras g + 1 < 4294967296)%Z ->
  (in_bounds (Main.createCamera g) /\
   Main.cameras (Main.createCamera g) =
     Main.cameras g ++
     [YawPitchConstructor.new_Camera (Main.position g) (Main.up g) (Main.yaw g)
        (Main.pitch g) (Main.zoom g) (Main.near g) (Main.far g)] /\
   current (Main.createCamera g) = current g) /\
  (forall key, exists g',
     Main.processInput key g = Some g' /\ in_bounds g' /\
     (length (Main.cameras g) <= length (Main.cameras g') <= length (Main.cameras g) + 1)%nat) /\
  (forall xpos ypos, exists g',
     Main.mouse_callback xpos ypos g = Some g' /\ in_bounds g' /\
     length (Main.cameras g') = length (Main.cameras g)) /\
  (forall xoffset yoffset, exists g',
     Main.scroll_callback xoffset yoffset g = Some g' /\ in_bounds g' /\
     length (Main.cameras g') = length (Main.cameras g)).
Proof.
  intros Hb Hlt. split; [|split; [|split]].
  - destruct (createCamera_spec Hb Hlt) as (S1 & _ & _ & S4 & S5). auto.
  - intro key. destruct (processInput_in_bounds key Hb Hlt) as (g' & H1 & H2 & H3).
    exists g'. auto.
  - intros xpos ypos.
    destruct (mouse_callback_in_bounds xpos ypos Hb) as (g' & c & H1 & H2 & _ & _ & _ & _ & _ & H3).
    exists g'. split; [exact H1|]. split; [exact H2|]. rewrite H3. apply length_assign.
  - intros xoffset yoffset. destruct (in_bounds_current Hb) as (c & Hc).
    unfold Main.scroll_callback. rewrite (on_current_Some _ _ Hc).
    eexists. split; [reflexivity|]. split.
    + apply in_bounds_set_cameras; [apply length_assign | exact Hb].
    + cbn. apply length_assign.
Qed.
End MainScenarios.

(** X23. The camera the constructor of the vector version builds is idle and its
    right and up are derived from its front, and it stays as built under
    every run of frames: the position is [position], the front is
    [normalize front], right and up are derived from it, the options are the
    arguments and the defaults of the constructor. *)
Theorem constructed_camera_rests
    {F D : Type} {A : Arith F D} {T : Trig F}
    (position up front : vec3 F) (zoom near far : F) (ts : list F) :
  let c := new_Camera position up front zoom near far in
  idle c /\ basis_ok c /\
  Position (run ts c) = position /\ Front (run ts c) = normalize front /\
  Right (run ts c) = normalize (cross (normalize front) up) /\
  Up (run ts c) = normalize (cross (Right (run ts c)) (normalize front)) /\
  options_of (run ts c) = (up, SPEED, SENSITIVITY, zoom, near, far, false) /\
  idle (run ts c).
Proof.
  intros c.
  pose proof (new_Camera_idle position up front zoom near far) as Hi. fold c in Hi.
  destruct (run_idle ts Hi) as (Hi' & HP & HF & HU & HR & _).
  split; [exact Hi|]. split; [apply new_Camera_basis|].
  split; [rewrite HP; reflexivity|]. split; [rewrite HF; reflexivity|].
  split; [rewrite HR; reflexivity|]. split; [rewrite HU, HR; reflexivity|].
  split; [|exact Hi'].
  clear -Hi. induction ts as [| t ts IH] using rev_ind; [reflexivity|].
  rewrite run_snoc, frame_options. exact IH.
Qed.

(** ** Runs of a translation *)

Section TranslationRuns.
Context {F D : Type} {A : Arith F D} {T : Trig F}.

Lemma enqueue_call_other_lanes k x (c c' : Camera F) j :
  enqueue_call k x c c' -> j <> k -> lane j c' = lane j c.
Proof. destruct 1; destruct j; intros Hj; try reflexivity; congruence. Qed.

Lemma lanes_after_step k t (c : Camera F) :
  (forall j, j <> k -> lane_idle j c) ->
  forall j, j <> k -> lane_idle j (Process k (set_currTime t c)).
Proof.
  intros H j Hj. apply lane_idle_other; [congruence|].
  apply lane_idle_ext with (c := c); [apply lane_set_currTime | auto].
Qed.

Lemma fetchTranslation_dequeue (c : Camera F) t rest :
  tr_Ended (currTranslation c) = true -> translationQueue c = t :: rest ->
  fetchTranslation c =
  Some (set_currTranslation
          (Build_translation (Position c) (tr_Position t) (currTime c)
             (fadd (tr_FinalTime t) (currTime c)) false)
          (set_translationQueue rest c)).
Proof. intros He Hq. unfold fetchTranslation. rewrite He, Hq. reflexivity. Qed.

Lemma fetchTranslation_active (c : Camera F) :
  tr_Ended (currTranslation c) = false -> fetchTranslation c = Some c.
Proof. intros He. unfold fetchTranslation. rewrite He. reflexivity. Qed.

(** One translation step on a command in the slot. *)
Lemma stepTranslation_slot (c : Camera F) start P t0 t1 :
  currTranslation c = Build_translation start P t0 t1 false ->
  let p := percentage_of (currTime c) t0 t1 in
  translationQueue (stepTranslation c) = translationQueue c /\
  currTranslation (stepTranslation c) = Build_translation start P t0 t1 (reached p) /\
  Position (stepTranslation c) = interpolate start P (capped p).
Proof.
  intros Hc p. unfold stepTranslation, capped. rewrite Hc.
  cbn [tr_InicialTime tr_FinalTime tr_InicialPosition tr_Position]. fold p.
  destruct (reached p); cam_simpl; repeat split; try reflexivity. exact Hc.
Qed.

Lemma translating_frame q start P t0 t1 t (c : Camera F) :
  translating q start P t0 t1 c ->
  let p := percentage_of t t0 t1 in
  (forall j, j <> KTranslation -> lane_idle j (frame t c)) /\
  translationQueue (frame t c) = q /\
  currTranslation (frame t c) = Build_translation start P t0 t1 (reached p) /\
  Position (frame t c) = interpolate start P (capped p).
Proof.
  intros (Hl & Hq & Hc) p.
  rewrite (frame_only_lane (k := KTranslation) t Hl). cbn [Process].
  pose proof (lanes_after_step t Hl) as Hl'. cbn [Process] in Hl'.
  assert (Hq0 : translationQueue (set_currTime t c) = q) by exact Hq.
  assert (Ht : currTime (set_currTime t c) = t) by reflexivity.
  assert (Hc0 : currTranslation (set_currTime t c) = Build_translation start P t0 t1 false)
    by exact Hc.
  revert Hl' Hq0 Ht Hc0. generalize (set_currTime t c). clear c Hl Hq Hc.
  intros c Hl Hq Ht Hc.
  assert (He : tr_Ended (currTranslation c) = false) by (rewrite Hc; reflexivity).
  unfold processTranslation in *. rewrite (fetchTranslation_active c He) in *.
  destruct (stepTranslation_slot c Hc) as (Q1 & Q2 & Q3). rewrite Ht in Q2, Q3.
  split; [exact Hl|]. split; [congruence|]. split; assumption.
Qed.

Lemma arrived_next P0 t rest tnow (c : Camera F) :
  arrived (t :: rest) P0 c ->
  let t1 := fadd (tr_FinalTime t) tnow in
  let p := percentage_of tnow tnow t1 in
  (forall j, j <> KTranslation -> lane_idle j (frame tnow c)) /\
  translationQueue (frame tnow c) = rest /\
  currTranslation (frame tnow c) =
    Build_translation P0 (tr_Position t) tnow t1 (reached p) /\
  Position (frame tnow c) = interpolate P0 (tr_Position t) (capped p).
Proof.
  intros (Hl & Hq & He & HP) t1 p.
  rewrite (frame_only_lane (k := KTranslation) tnow Hl). cbn [Process].
  pose proof (lanes_after_step tnow Hl) as Hl'. cbn [Process] in Hl'.
  assert (He0 : tr_Ended (currTranslation (set_currTime tnow c)) = true) by exact He.
  assert (Hq0 : translationQueue (set_currTime tnow c) = t :: rest) by exact Hq.
  assert (HP0 : Position (set_currTime tnow c) = P0) by exact HP.
  assert (Ht : currTime (set_currTime tnow c) = tnow) by reflexivity.
  revert Hl' He0 Hq0 HP0 Ht. generalize (set_currTime tnow c). clear c Hl Hq He HP.
  intros c Hl He Hq HP Ht.
  unfold processTranslation in *. rewrite (fetchTranslation_dequeue c He Hq) in *.
  rewrite HP, Ht in *. fold t1 in Hl |- *.
  set (c1 := set_currTranslation (Build_translation P0 (tr_Position t) tnow t1 false)
               (set_translationQueue rest c)) in *.
  assert (Hc : currTranslation c1 = Build_translation P0 (tr_Position t) tnow t1 false)
    by reflexivity.
  assert (Hq1 : translationQueue c1 = rest) by reflexivity.
  assert (Ht1 : currTime c1 = tnow) by exact Ht.
  destruct (stepTranslation_slot c1 Hc) as (Q1 & Q2 & Q3). rewrite Ht1 in Q2, Q3.
  split; [exact Hl|]. split; [congruence|]. split; assumption.
Qed.

(** After a frame the command is still in the slot, or the camera has
    arrived. *)
Lemma slot_cases q start P t0 t1 (p : F) (c : Camera F) :
  (forall j, j <> KTranslation -> lane_idle j c) ->
  translationQueue c = q ->
  currTranslation c = Build_translation start P t0 t1 (reached p) ->
  Position c = interpolate start P (capped p) ->
  (reached p = true -> arrived q (interpolate start P fone) c) /\
  (reached p = false -> translating q start P t0 t1 c).
Proof.
  intros Hl Hq Hc HP. unfold capped in HP. split; intros Hp; rewrite Hp in *.
  - split; [exact Hl|]. split; [exact Hq|]. rewrite Hc. split; [reflexivity | exact HP].
  - split; [exact Hl|]. split; [exact Hq | exact Hc].
Qed.

Lemma arrived_idle P (c : Camera F) : arrived [] P c -> idle c.
Proof.
  intros (Hl & Hq & He & _) k.
  destruct k; try (apply Hl; discriminate).
  split; cbn; [exact He | rewrite Hq; reflexivity].
Qed.

Lemma arrived_frame P t (c : Camera F) : arrived [] P c -> arrived [] P (frame t c).
Proof.
  intros H. pose proof (arrived_idle H) as Hi. rewrite (frame_idle t Hi).
  destruct H as (Hl & Hq & He & HP).
  split; [|repeat split; assumption].
  intros j Hj. apply lane_idle_ext with (c := c); [apply lane_set_currTime | auto].
Qed.

Lemma moving_run start P t0 t1 ts (c : Camera F) :
  translating [] start P t0 t1 c \/ arrived [] (interpolate start P fone) c ->
  translating [] start P t0 t1 (run ts c) \/
  arrived [] (interpolate start P fone) (run ts c).
Proof.
  intros H. induction ts as [| t ts IH] using rev_ind; [exact H|].
  rewrite run_snoc. destruct IH as [IH | IH].
  - destruct (translating_frame t IH) as (Hl & Hq & Hc & HP).
    destruct (slot_cases _ Hl Hq Hc HP) as [H1 H2].
    destruct (reached (percentage_of t t0 t1)); [right | left]; auto.
  - right. apply arrived_frame, IH.
Qed.

Lemma enqueued_arrived (c : Camera F) P d :
  idle c ->
  arrived (translationQueue (Translate P d c)) (Position c) (Translate P d c).
Proof.
  intros Hi. split; [|split; [reflexivity | split; [|reflexivity]]].
  - intros j Hj. apply lane_idle_ext with (c := c); [|apply Hi].
    exact (enqueue_call_other_lanes (enq_Translate P d c) Hj).
  - exact (proj1 (Hi KTranslation)).
Qed.

Lemma idle_translationQueue (c : Camera F) : idle c -> translationQueue c = [].
Proof.
  intros Hi. destruct (Hi KTranslation) as [_ Hq]. cbn in Hq.
  exact (map_eq_nil_inv _ _ Hq).
Qed.
End TranslationRuns.

(** X4. A run of frames on an idle vector camera after [Translate(P, d)], in
    the arithmetic of the camera.  When the run starts at the clock sample
    [t0] and ends with a sample at which the percentage tests [>= 1], the
    camera is idle again and stands at [start + 1 * (P - start)] as its
    arithmetic computes it, [start] being the position before the run; the
    samples in between are free, and the position stays under every later
    run. *)
Theorem translate_run_reaches_target
    {F D : Type} {A : Arith F D} {T : Trig F}
    (c : Camera F) (P : vec3 F) (d t0 te : F) (ts : list F) :
  idle c ->
  reached (percentage_of te t0 (fadd d t0)) = true ->
  let c' := run (t0 :: ts ++ [te]) (Translate P d c) in
  let final := interpolate (Position c) P fone in
  idle c' /\ Position c' = final /\
  (forall more, Position (run more c') = final).
Proof.
  intros Hi Hte. cbv zeta. rewrite run_cons, run_snoc.
  pose proof (enqueued_arrived P d Hi) as Ha.
  unfold Translate in Ha at 1. cbn [translationQueue set_translationQueue] in Ha.
  rewrite (idle_translationQueue Hi) in Ha. cbn [app] in Ha.
  destruct (arrived_next t0 Ha) as (Hl & Hq & Hc & HP).
  cbn [tr_FinalTime tr_Position] in Hc, HP.
  destruct (slot_cases _ Hl Hq Hc HP) as [H1 H2]. clear Hl Hq Hc HP Ha.
  assert (Hs : translating [] (Position c) P t0 (fadd d t0) (frame t0 (Translate P d c)) \/
               arrived [] (interpolate (Position c) P fone) (frame t0 (Translate P d c))).
  { destruct (reached (percentage_of t0 t0 (fadd d t0))); [right | left]; auto. }
  clear H1 H2.
  revert Hs. generalize (frame t0 (Translate P d c)). intros c1 Hs.
  assert (Hend : arrived [] (interpolate (Position c) P fone) (frame te (run ts c1))).
  { destruct (moving_run ts Hs) as [H | H].
    - destruct (translating_frame te H) as (Hl & Hq & Hc & HP).
      apply (slot_cases _ Hl Hq Hc HP). exact Hte.
    - apply arrived_frame, H. }
  revert Hend. generalize (frame te (run ts c1)). intros c' Hend.
  pose proof (arrived_idle Hend) as Hi'.
  split; [exact Hi'|]. split; [apply Hend|].
  intros more. destruct (run_idle more Hi') as (_ & HP & _). rewrite HP. apply Hend.
Qed.

(** X5. Two translations queued on an idle vector camera, [Translate(P, d1)]
    then [Translate(Q, d2)], in the arithmetic of the camera.  When the
    first is dequeued at the sample [t0] (the percentage tests below 1
    there) and the percentage tests [>= 1] at the next sample [t1], the
    camera then stands at [first = start + 1 * (P - start)] with the slot
    [Ended] and the second command still in the queue, as it was pushed.
    The frame of the next sample [t2] dequeues it: it starts from [first]
    at the time [t2], not [t1], ends at [d2 + t2], and that frame puts the
    camera at the interpolation for the percentage of [t2] itself. *)
Theorem queued_translation_starts_a_frame_late
    {F D : Type} {A : Arith F D} {T : Trig F}
    (c : Camera F) (P Q : vec3 F) (d1 d2 t0 t1 t2 : F) :
  idle c ->
  reached (percentage_of t0 t0 (fadd d1 t0)) = false ->
  reached (percentage_of t1 t0 (fadd d1 t0)) = true ->
  let ca := run [t0; t1] (Translate Q d2 (Translate P d1 c)) in
  let cb := frame t2 ca in
  let first := interpolate (Position c) P fone in
  let p := percentage_of t2 t2 (fadd d2 t2) in
  (Position ca = first /\ tr_Ended (currTranslation ca) = true /\
   translationQueue ca = [Build_translation vzero Q fzero d2 false]) /\
  (translationQueue cb = [] /\
   currTranslation cb = Build_translation first Q t2 (fadd d2 t2) (reached p) /\
   Position cb = interpolate first Q (capped p)).
Proof.
  intros Hi Ht0 Ht1. cbv zeta. rewrite !run_cons, !run_nil.
  assert (Ha : arrived [Build_translation vzero P fzero d1 false;
                        Build_translation vzero Q fzero d2 false] (Position c)
                 (Translate Q d2 (Translate P d1 c))).
  { pose proof (enqueued_arrived P d1 Hi) as H1.
    destruct H1 as (Hl & Hq & He & HP).
    split; [|split; [|split; [exact He | exact HP]]].
    - intros j Hj. apply lane_idle_ext with (c := Translate P d1 c); [|apply Hl, Hj].
      exact (enqueue_call_other_lanes (enq_Translate Q d2 (Translate P d1 c)) Hj).
    - unfold Translate. cbn [translationQueue set_translationQueue].
      rewrite (idle_translationQueue Hi). reflexivity. }
  destruct (arrived_next t0 Ha) as (Hl & Hq & Hc & HP).
  cbn [tr_FinalTime tr_Position] in Hc, HP.
  destruct (slot_cases _ Hl Hq Hc HP) as [_ Hs]. specialize (Hs Ht0).
  clear Hl Hq Hc HP Ha.
  revert Hs. generalize (frame t0 (Translate Q d2 (Translate P d1 c))). intros c1 Hs.
  destruct (translating_frame t1 Hs) as (Hl & Hq & Hc & HP).
  destruct (slot_cases _ Hl Hq Hc HP) as [Hb _]. specialize (Hb Ht1).
  clear Hl Hq Hc HP Hs.
  revert Hb. generalize (frame t1 c1). intros ca Hb.
  split; [destruct Hb as (_ & Hbq & Hbe & HbP); auto|].
  destruct (arrived_next t2 Hb) as (_ & Hq & Hc & HP).
  cbn [tr_FinalTime tr_Position] in Hc, HP.
  split; [exact Hq|]. split; [exact Hc | exact HP].
Qed.

(** ** Runs of a look-at command *)

Section LookAtRuns.
Context {F D : Type} {A : Arith F D} {T : Trig F}.

Lemma stepLookAt_slot (c : Camera F) P f0 nf t0 t1 :
  currLookAt c = Build_lookAt P f0 nf t0 t1 false ->
  let p := percentage_of (currTime c) t0 t1 in
  let c' := stepLookAt c in
  lookAtQueue c' = lookAtQueue c /\ Position c' = Position c /\
  WorldUp c' = WorldUp c /\
  currLookAt c' = Build_lookAt P f0 nf t0 t1 (reached p) /\
  Front c' = normalize (interpolate f0 nf (capped p)) /\
  Right c' = normalize (cross (Front c') (WorldUp c)) /\
  Up c' = normalize (cross (Right c') (Front c')).
Proof.
  intros Hc p. cbv zeta. unfold stepLookAt, capped, updateCameraVectors. rewrite Hc.
  cbn [la_InicialTime la_FinalTime la_InicialFront la_FinalFront]. fold p.
  destruct (reached p); cam_simpl; repeat split; try reflexivity. exact Hc.
Qed.

Lemma looking_frame P f0 nf t0 t1 P0 W t (c : Camera F) :
  looking P f0 nf t0 t1 P0 W c ->
  let p := percentage_of t t0 t1 in
  let f := normalize (interpolate f0 nf (capped p)) in
  (reached p = true -> aimed f P0 W (frame t c)) /\
  (reached p = false -> looking P f0 nf t0 t1 P0 W (frame t c)).
Proof.
  intros (Hl & Hq & HP & HW & Hc) p f.
  rewrite (frame_only_lane (k := KLookAt) t Hl). cbn [Process].
  pose proof (lanes_after_step t Hl) as Hl'. cbn [Process] in Hl'.
  assert (Hq0 : lookAtQueue (set_currTime t c) = []) by exact Hq.
  assert (Ht : currTime (set_currTime t c) = t) by reflexivity.
  assert (HP0 : Position (set_currTime t c) = P0) by exact HP.
  assert (HW0 : WorldUp (set_currTime t c) = W) by exact HW.
  assert (Hc0 : currLookAt (set_currTime t c) = Build_lookAt P f0 nf t0 t1 false)
    by exact Hc.
  revert Hl' Hq0 Ht HP0 HW0 Hc0. generalize (set_currTime t c). clear c Hl Hq HP HW Hc.
  intros c Hl Hq Ht HP HW Hc.
  assert (Hf : fetchLookAt c = inl c).
  { unfold fetchLookAt. rewrite Hc. reflexivity. }
  unfold ProcessLookAt in *. rewrite Hf in *.
  destruct (stepLookAt_slot c Hc) as (Q1 & Q2 & Q3 & Q4 & Q5 & Q6 & Q7).
  rewrite Ht in Q4, Q5. fold p in Q4, Q5. fold f in Q5.
  split; intros Hp; rewrite Hp in Q4.
  - split; [exact Hl|]. split; [congruence|]. split; [congruence|]. split; [congruence|].
    rewrite Q4. split; [reflexivity|]. split; [exact Q5|].
    split; [rewrite Q6, Q5, HW; reflexivity | rewrite Q7, Q5; reflexivity].
  - split; [exact Hl|]. split; [congruence|]. split; [congruence|].
    split; [congruence | exact Q4].
Qed.

Lemma aimed_idle f P0 W (c : Camera F) : aimed f P0 W c -> idle c.
Proof.
  intros (Hl & Hq & _ & _ & He & _) k.
  destruct k; try (apply Hl; discriminate).
  split; cbn; [exact He | rewrite Hq; reflexivity].
Qed.

Lemma aimed_frame f P0 W t (c : Camera F) : aimed f P0 W c -> aimed f P0 W (frame t c).
Proof.
  intros H. pose proof (aimed_idle H) as Hi. rewrite (frame_idle t Hi).
  destruct H as (Hl & Hq & HP & HW & He & HF & HR & HU).
  split; [|repeat split; assumption].
  intros j Hj. apply lane_idle_ext with (c := c); [apply lane_set_currTime | auto].
Qed.

Lemma looking_run P f0 nf t0 t1 P0 W ts (c : Camera F) :
  let f := normalize (interpolate f0 nf fone) in
  looking P f0 nf t0 t1 P0 W c \/ aimed f P0 W c ->
  looking P f0 nf t0 t1 P0 W (run ts c) \/ aimed f P0 W (run ts c).
Proof.
  intros f H. induction ts as [| t ts IH] using rev_ind; [exact H|].
  rewrite run_snoc. destruct IH as [IH | IH].
  - destruct (looking_frame t IH) as [H1 H2]. unfold capped in H1.
    destruct (reached (percentage_of t t0 t1)); [right | left]; auto.
  - right. apply aimed_frame, IH.
Qed.

Lemma looking_start P d t0 (c : Camera F) :
  idle c -> veqb (Position c) P = false ->
  exists c0,
    looking P (Front c) (normalize (vsub P (Position c))) t0 (fadd d t0)
      (Position c) (WorldUp c) c0 /\
    currTime c0 = t0 /\
    frame t0 (LookAt P d c) = stepLookAt c0.
Proof.
  intros Hi Hne.
  assert (Hq : lookAtQueue c = []).
  { destruct (Hi KLookAt) as [_ Hq]. cbn in Hq. exact (map_eq_nil_inv _ _ Hq). }
  assert (He : la_Ended (currLookAt c) = true) by exact (proj1 (Hi KLookAt)).
  assert (Hl : forall j, j <> KLookAt -> lane_idle j (LookAt P d c)).
  { intros j Hj. apply lane_idle_ext with (c := c); [|apply Hi].
    exact (enqueue_call_other_lanes (enq_LookAt P d c) Hj). }
  rewrite (frame_only_lane (k := KLookAt) t0 Hl). cbn [Process].
  unfold ProcessLookAt, fetchLookAt, LookAt. cam_simpl. rewrite He, Hq. cbn [app].
  cam_simpl. rewrite Hne.
  eexists. split; [|split; [|reflexivity]]; [|reflexivity].
  split; [|repeat split; reflexivity].
  intros j Hj. apply lane_idle_ext with (c := c); [|apply Hi].
  destruct j; try reflexivity. congruence.
Qed.
End LookAtRuns.

(** X10. A run of frames on an idle vector camera after [LookAt(P, d)], in the
    arithmetic of the camera, when the position is not [P] for the [==] of
    the source.  When the run starts at the clock sample [t0] and ends with
    a sample at which the percentage tests [>= 1], the camera is idle
    again, it has not moved, its front is the normalised
    [Front + 1 * (normalize(P - Position) - Front)] as its arithmetic
    computes it from the front before the run, right is
    [normalize(front x WorldUp)] and up [normalize(right x front)]; the
    front stays under every later run. *)
Theorem lookAt_run_aims_at_target
    {F D : Type} {A : Arith F D} {T : Trig F}
    (c : Camera F) (P : vec3 F) (d t0 te : F) (ts : list F) :
  idle c -> veqb (Position c) P = false ->
  reached (percentage_of te t0 (fadd d t0)) = true ->
  let c' := run (t0 :: ts ++ [te]) (LookAt P d c) in
  let final :=
    normalize (interpolate (Front c) (normalize (vsub P (Position c))) fone) in
  idle c' /\ Position c' = Position c /\ Front c' = final /\
  Right c' = normalize (cross final (WorldUp c)) /\
  Up c' = normalize (cross (Right c') final) /\
  (forall more, Front (run more c') = final).
Proof.
  intros Hi Hne Hte. cbv zeta. rewrite run_cons, run_snoc.
  destruct (looking_start P d t0 Hi Hne) as (c0 & Hs & Ht0 & E). rewrite E. clear E.
  set (nf := normalize (vsub P (Position c))) in *.
  assert (H1 : looking P (Front c) nf t0 (fadd d t0) (Position c) (WorldUp c) (stepLookAt c0) \/
               aimed (normalize (interpolate (Front c) nf fone)) (Position c) (WorldUp c)
                 (stepLookAt c0)).
  { destruct Hs as (Hl & Hq & HP & HW & Hc).
    destruct (stepLookAt_slot c0 Hc) as (Q1 & Q2 & Q3 & Q4 & Q5 & Q6 & Q7).
    assert (Hl' : forall j, j <> KLookAt -> lane_idle j (stepLookAt c0)).
    { assert (Hf : ProcessLookAt c0 = stepLookAt c0).
      { unfold ProcessLookAt, fetchLookAt. rewrite Hc. reflexivity. }
      intros j Hj. rewrite <- Hf.
      apply (lane_idle_other (k := KLookAt)); [congruence | apply Hl, Hj]. }
    unfold capped in Q5.
    destruct (reached (percentage_of (currTime c0) t0 (fadd d t0))).
    - right. split; [exact Hl'|]. split; [congruence|]. split; [congruence|].
      split; [congruence|]. rewrite Q4. split; [reflexivity|]. split; [exact Q5|].
      split; [rewrite Q6, Q5, HW; reflexivity | rewrite Q7, Q5; reflexivity].
    - left. split; [exact Hl'|]. split; [congruence|]. split; [congruence|].
      split; [congruence | exact Q4]. }
  clear Hs Ht0. revert H1. generalize (stepLookAt c0). clear c0. intros c1 H1.
  assert (Hend : aimed (normalize (interpolate (Front c) nf fone)) (Position c) (WorldUp c)
                   (frame te (run ts c1))).
  { destruct (looking_run ts H1) as [H | H].
    - destruct (looking_frame te H) as [H2 _]. specialize (H2 Hte).
      unfold capped in H2. rewrite Hte in H2. exact H2.
    - apply aimed_frame, H. }
  revert Hend. generalize (frame te (run ts c1)). intros c' Hend.
  pose proof (aimed_idle Hend) as Hi'.
  destruct Hend as (_ & _ & HP & HW & _ & HF & HR & HU).
  split; [exact Hi'|]. split; [exact HP|]. split; [exact HF|].
  split; [exact HR|]. split; [exact HU|].
  intros more. destruct (run_idle more Hi') as (_ & _ & HF' & _). rewrite HF'. exact HF.
Qed.

(** ** The rotation about a point *)

Section RotationAboutPoint.
Context {F D : Type} {A : Arith F D} {T : Trig F}.

Lemma rp_matrix_row (r : rotationRP F) (angle : F) (axis : vec3 F) (v : vec4 F) :
  xyz (vec4_mul_mat4 v (rp_matrix r angle axis)) =
  xyz (vec4_mul_mat4 v (glm_rotate mat4_identity angle axis)).
Proof. reflexivity. Qed.
End RotationAboutPoint.


(** ** The order of binary32 *)

Lemma SFcompare_antisym x y : SFcompare y x = option_map CompOpp (SFcompare x y).
Proof.
  destruct x as [s1 | s1 | | s1 m1 e1], y as [s2 | s2 | | s2 m2 e2];
    try reflexivity; try (destruct s1; reflexivity); try (destruct s2; reflexivity);
    try (destruct s1, s2; reflexivity).
  cbn [SFcompare option_map].
  change (Pos.compare_cont Eq m2 m1) with (m2 ?= m1)%positive.
  change (Pos.compare_cont Eq m1 m2) with (m1 ?= m2)%positive.
  rewrite (Z.compare_antisym e1 e2), (Pos.compare_antisym m1 m2).
  destruct s1, s2; try reflexivity;
    destruct (e1 ?= e2)%Z; cbn; try reflexivity;
    destruct (m1 ?= m2)%positive; reflexivity.
Qed.

Lemma SFcompare_total x y :
  is_nan x = false -> is_nan y = false -> exists o, SFcompare x y = Some o.
Proof.
  destruct x, y; cbn; intros Hx Hy; try discriminate; eauto.
Qed.

Lemma SFltb_SFleb x y : SFltb x y = true -> SFleb x y = true.
Proof. unfold SFltb, SFleb. destruct (SFcompare x y) as [[]|]; auto. Qed.

Lemma SFltb_false_SFleb x y :
  is_nan x = false -> is_nan y = false -> SFltb x y = false -> SFleb y x = true.
Proof.
  intros Hx Hy. unfold SFltb, SFleb. rewrite (SFcompare_antisym x y).
  destruct (SFcompare_total x y Hx Hy) as (o & ->). destruct o; cbn; auto.
Qed.

(** ** The limits of pitch and zoom in binary32 *)

(** The two tests of [ProcessMouseMovement] on a pitch [p]. *)
Lemma pitch_clamp32 (p : spec_float) :
  let p1 := if SFltb (b32_of_Z 89) p then b32_of_Z 89 else p in
  let p' := if SFltb p1 (b32_of_Z (-89)) then b32_of_Z (-89) else p1 in
  p' = (if SFltb (b32_of_Z 89) p then b32_of_Z 89
        else if SFltb p (b32_of_Z (-89)) then b32_of_Z (-89) else p) /\
  SFltb (b32_of_Z 89) p' = false /\ SFltb p' (b32_of_Z (-89)) = false /\
  is_nan p' = is_nan p /\
  (is_nan p = false ->
     SFleb (b32_of_Z (-89)) p' = true /\ SFleb p' (b32_of_Z 89) = true).
Proof.
  cbv zeta. destruct (SFltb (b32_of_Z 89) p) eqn:E1.
  - change (SFltb (b32_of_Z 89) (b32_of_Z (-89))) with false. cbv iota.
    split; [reflexivity|]. split; [reflexivity|]. split; [reflexivity|].
    split; [|intros _; split; reflexivity].
    destruct p; try reflexivity. discriminate.
  - destruct (SFltb p (b32_of_Z (-89))) eqn:E2.
    + split; [reflexivity|]. split; [reflexivity|]. split; [reflexivity|].
      split; [|intros _; split; reflexivity].
      destruct p; try reflexivity. discriminate.
    + split; [reflexivity|]. split; [exact E1|]. split; [exact E2|].
      split; [reflexivity|]. intros Hn. split.
      * apply SFltb_false_SFleb; [exact Hn | reflexivity | exact E2].
      * apply SFltb_false_SFleb; [reflexivity | exact Hn | exact E1].
Qed.

(** The last two tests of [ProcessMouseScroll] on a zoom [z]. *)
Lemma zoom_clamp32 (z : spec_float) :
  let z2 := if SFleb z (b32_of_Z 1) then b32_of_Z 1 else z in
  let z' := if SFleb (b32_of_Z 45) z2 then b32_of_Z 45 else z2 in
  z' = (if SFleb z (b32_of_Z 1) then b32_of_Z 1
        else if SFleb (b32_of_Z 45) z then b32_of_Z 45 else z) /\
  SFltb z' (b32_of_Z 1) = false /\ SFltb (b32_of_Z 45) z' = false /\
  is_nan z' = is_nan z /\
  (is_nan z = false ->
     SFleb (b32_of_Z 1) z' = true /\ SFleb z' (b32_of_Z 45) = true).
Proof.
  cbv zeta. destruct (SFleb z (b32_of_Z 1)) eqn:E1.
  - change (SFleb (b32_of_Z 45) (b32_of_Z 1)) with false. cbv iota.
    split; [reflexivity|]. split; [reflexivity|]. split; [reflexivity|].
    split; [|intros _; split; reflexivity].
    destruct z; try reflexivity. discriminate.
  - destruct (SFleb (b32_of_Z 45) z) eqn:E2.
    + split; [reflexivity|]. split; [reflexivity|]. split; [reflexivity|].
      split; [|intros _; split; reflexivity].
      destruct z; try reflexivity. discriminate.
    + split; [reflexivity|].
      assert (L1 : SFltb z (b32_of_Z 1) = false).
      { destruct (SFltb z (b32_of_Z 1)) eqn:E; [|reflexivity].
        apply SFltb_SFleb in E. congruence. }
      assert (L2 : SFltb (b32_of_Z 45) z = false).
      { destruct (SFltb (b32_of_Z 45) z) eqn:E; [|reflexivity].
        apply SFltb_SFleb in E. congruence. }
      split; [exact L1|]. split; [exact L2|]. split; [reflexivity|].
      intros Hn. split.
      * apply SFltb_false_SFleb; [exact Hn | reflexivity | exact L1].
      * apply SFltb_false_SFleb; [reflexivity | exact Hn | exact L2].
Qed.

(** X15. [ProcessMouseMovement] with the pitch constraint, in binary32.  The
    yaw is the old one plus [xoffset * MouseSensitivity], not reduced to a
    range.  With [p] the old pitch plus [yoffset * MouseSensitivity], the
    new pitch is 89 when [p > 89], -89 when [p < -89], and [p] otherwise:
    it never tests above 89 or below -89; it is a NaN exactly when [p] is
    one, and otherwise it tests within [-89, 89].  Position and zoom are
    kept.  Without the constraint the pitch is [p]. *)
Theorem mouse_movement_keeps_the_pitch_in_range (TD : TrigD spec_float)
    (xoffset yoffset : spec_float) (c : YawPitch.Camera spec_float) :
  let c' := YawPitch.ProcessMouseMovement xoffset yoffset true c in
  let p := fadd (YawPitch.Pitch c) (fmul yoffset (YawPitch.MouseSensitivity c)) in
  YawPitch.Yaw c' =
    fadd (YawPitch.Yaw c) (fmul xoffset (YawPitch.MouseSensitivity c)) /\
  YawPitch.Pitch c' =
    (if fltb (b32_of_Z 89) p then b32_of_Z 89
     else if fltb p (b32_of_Z (-89)) then b32_of_Z (-89) else p) /\
  fltb (b32_of_Z 89) (YawPitch.Pitch c') = false /\
  fltb (YawPitch.Pitch c') (b32_of_Z (-89)) = false /\
  is_nan (YawPitch.Pitch c') = is_nan p /\
  (is_nan p = false ->
     fleb (b32_of_Z (-89)) (YawPitch.Pitch c') = true /\
     fleb (YawPitch.Pitch c') (b32_of_Z 89) = true) /\
  YawPitch.Position c' = YawPitch.Position c /\
  YawPitch.Zoom c' = YawPitch.Zoom c /\
  YawPitch.ProcessMouseMovement xoffset yoffset false c =
    YawPitch.updateCameraVectors
      (YawPitch.set_angles
         (fadd (YawPitch.Yaw c) (fmul xoffset (YawPitch.MouseSensitivity c))) p c).
Proof.
  intros c' p.
  destruct (pitch_clamp32 p) as (H1 & H2 & H3 & H4 & H5).
  split; [reflexivity|]. split; [exact H1|]. split; [exact H2|].
  split; [exact H3|]. split; [exact H4|]. split; [exact H5|].
  repeat split; reflexivity.
Qed.

(** X16. [ProcessMouseScroll] in binary32.  With [z1] the zoom less [yoffset]
    when the zoom tests within [1, 45], and the zoom itself otherwise, the
    new zoom is 1 when [z1 <= 1], 45 when [z1 >= 45], and [z1] otherwise: it
    never tests below 1 or above 45; it is a NaN exactly when [z1] is one
    (so a NaN zoom stays one, and a NaN offset makes one of a zoom that
    tests within the range), and otherwise it tests within [1, 45].
    Position, front, yaw and pitch are kept. *)
Theorem mouse_scroll_keeps_the_zoom_in_range
    (yoffset : spec_float) (c : YawPitch.Camera spec_float) :
  let c' := YawPitch.ProcessMouseScroll yoffset c in
  let z := YawPitch.Zoom c in
  let z1 := if fleb (b32_of_Z 1) z && fleb z (b32_of_Z 45) then fsub z yoffset else z in
  YawPitch.Zoom c' =
    (if fleb z1 (b32_of_Z 1) then b32_of_Z 1
     else if fleb (b32_of_Z 45) z1 then b32_of_Z 45 else z1) /\
  fltb (YawPitch.Zoom c') (b32_of_Z 1) = false /\
  fltb (b32_of_Z 45) (YawPitch.Zoom c') = false /\
  is_nan (YawPitch.Zoom c') = is_nan z1 /\
  (is_nan z1 = false ->
     fleb (b32_of_Z 1) (YawPitch.Zoom c') = true /\
     fleb (YawPitch.Zoom c') (b32_of_Z 45) = true) /\
  (is_nan z = true -> is_nan (YawPitch.Zoom c') = true) /\
  (is_nan yoffset = true ->
     fleb (b32_of_Z 1) z && fleb z (b32_of_Z 45) = true ->
     is_nan (YawPitch.Zoom c') = true) /\
  YawPitch.Position c' = YawPitch.Position c /\
  YawPitch.Front c' = YawPitch.Front c /\
  YawPitch.Yaw c' = YawPitch.Yaw c /\ YawPitch.Pitch c' = YawPitch.Pitch c.
Proof.
  intros c' z z1.
  destruct (zoom_clamp32 z1) as (H1 & H2 & H3 & H4 & H5).
  split; [exact H1|]. split; [exact H2|]. split; [exact H3|].
  split; [exact H4|]. split; [exact H5|].
  split.
  { intros Hz. transitivity (is_nan z1); [exact H4|].
    subst z1. destruct z; try discriminate. reflexivity. }
  split.
  { intros Hy Hz. transitivity (is_nan z1); [exact H4|].
    subst z1. rewrite Hz. destruct yoffset; try discriminate.
    destruct z; reflexivity. }
  repeat split; reflexivity.
Qed.

(** ** The pointer callbacks *)

Section MainLimits.
Context {TD : TrigD spec_float}.

Lemma current_assign (g : Main.Globals spec_float) (c c' : YawPitch.Camera spec_float) :
  current g = Some c ->
  current (Main.set_cameras
             (Main.assign (Z.to_nat (Main.currentCamera g)) c' (Main.cameras g)) g) =
  Some c'.
Proof. intros H. unfold current. cbn. apply (nth_error_assign_same _ _ _ H). Qed.

Lemma on_current_None f (g : Main.Globals spec_float) :
  current g = None -> Main.on_current f g = None.
Proof. unfold current, Main.on_current. intros ->. reflexivity. Qed.
End MainLimits.

(** X22. The two pointer callbacks of [main.cpp], in binary32 and binary64.
    When [cameras[currentCamera]] exists, [mouse_callback] succeeds, stores
    the pointer position rounded to [float], clears [firstMouse], and
    replaces the current camera by [ProcessMouseMovement] of the offsets
    [float(xpos - lastX)] and [float(lastY - ypos)], where on the first call
    [lastX] and [lastY] are the rounded position itself: the new pitch never
    tests outside [-89, 89], and tests inside unless it is a NaN;
    [scroll_callback] replaces the current camera by [ProcessMouseScroll]
    of the rounded [yoffset], whose zoom never tests outside [1, 45].  When
    the camera does not exist, both are out-of-range accesses.  The offset
    of a first call is not always zero: at [xpos = 400.1] it is about
    [-6.1e-6], and with the sensitivity 0.1 it moves an angle of 0 to about
    [-6.1e-7]. *)
Theorem mouse_callbacks_respect_the_limits (TD : TrigD spec_float)
    (xpos ypos : spec_float) (g : Main.Globals spec_float) :
  match current g with
  | Some c =>
      let x0 := if Main.firstMouse g then narrow xpos else Main.lastX g in
      let y0 := if Main.firstMouse g then narrow ypos else Main.lastY g in
      let xoffset := narrow (dsub xpos (widen x0)) in
      let yoffset := narrow (dsub (widen y0) ypos) in
      let p := fadd (YawPitch.Pitch c) (fmul yoffset (YawPitch.MouseSensitivity c)) in
      let z := YawPitch.Zoom c in
      let z1 :=
        if fleb (b32_of_Z 1) z && fleb z (b32_of_Z 45)
        then fsub z (narrow ypos) else z in
      (exists g' c',
         Main.mouse_callback xpos ypos g = Some g' /\ current g' = Some c' /\
         c' = YawPitch.ProcessMouseMovement xoffset yoffset true c /\
         Main.firstMouse g' = false /\
         Main.lastX g' = narrow xpos /\ Main.lastY g' = narrow ypos /\
         YawPitch.Yaw c' =
           fadd (YawPitch.Yaw c) (fmul xoffset (YawPitch.MouseSensitivity c)) /\
         fltb (b32_of_Z 89) (YawPitch.Pitch c') = false /\
         fltb (YawPitch.Pitch c') (b32_of_Z (-89)) = false /\
         (is_nan p = false ->
            fleb (b32_of_Z (-89)) (YawPitch.Pitch c') = true /\
            fleb (YawPitch.Pitch c') (b32_of_Z 89) = true)) /\
      (exists g' c',
         Main.scroll_callback xpos ypos g = Some g' /\ current g' = Some c' /\
         c' = YawPitch.ProcessMouseScroll (narrow ypos) c /\
         fltb (YawPitch.Zoom c') (b32_of_Z 1) = false /\
         fltb (b32_of_Z 45) (YawPitch.Zoom c') = false /\
         (is_nan z1 = false ->
            fleb (b32_of_Z 1) (YawPitch.Zoom c') = true /\
            fleb (YawPitch.Zoom c') (b32_of_Z 45) = true))
  | None =>
      Main.mouse_callback xpos ypos g = None /\
      Main.scroll_callback xpos ypos g = None
  end /\
  (let xpos := b64_lit 4001 10 in
   let xoffset := narrow (dsub xpos (widen (narrow xpos : spec_float))) in
   xoffset = S754_finite true 13421773 (-41) /\
   fadd (b32_of_Z 0) (fmul xoffset (b32_lit 1 10)) = S754_finite true 10737419 (-44)).
Proof.
  split; [|vm_compute; split; reflexivity].
  destruct (current g) as [c|] eqn:Hc.
  - cbv zeta. split.
    + unfold Main.mouse_callback. cbv zeta.
      destruct (Main.firstMouse g) eqn:Hfm;
        (erewrite on_current_Some by exact Hc);
        (eexists; eexists; split; [reflexivity|]);
        (split; [apply current_assign with (c := c); exact Hc|]);
        (split; [reflexivity|]); (split; [try reflexivity; exact Hfm|]);
        (split; [reflexivity|]); (split; [reflexivity|]);
        (split; [reflexivity|]);
        match goal with |- context [YawPitch.ProcessMouseMovement ?x ?y true c] =>
          destruct (pitch_clamp32
                      (fadd (YawPitch.Pitch c) (fmul y (YawPitch.MouseSensitivity c))))
            as (_ & H2 & H3 & _ & H5)
        end;
        (split; [exact H2|]); (split; [exact H3 | exact H5]).
    + unfold Main.scroll_callback. rewrite (on_current_Some _ _ Hc).
      eexists. eexists. split; [reflexivity|].
      split; [apply current_assign with (c := c); exact Hc|]. split; [reflexivity|].
      match goal with |- context [is_nan ?z1 = false -> _] =>
        destruct (zoom_clamp32 z1) as (_ & H2 & H3 & _ & H5)
      end.
      split; [exact H2|]. split; [exact H3 | exact H5].
  - split.
    + unfold Main.mouse_callback. cbv zeta. apply on_current_None.
      destruct (Main.firstMouse g); exact Hc.
    + apply on_current_None, Hc.
Qed.

(** ** The theorems above at concrete cameras *)

Section Instances.
Local Open Scope R_scope.

Lemma idle_camera_is_only_clocked_witness :
  Position (run [0; 4] cameraR) = Position cameraR.
Proof.
  destruct (idle_camera_is_only_clocked [0; 4] cameraR_idle) as (_ & H & _). exact H.
Defined.

Lemma intake_only_appends_and_commutes_witness :
  Position (Translate (V3 5 5 5) 8 cameraR) = Position cameraR.
Proof.
  destruct (intake_only_appends_and_commutes (enq_Translate (V3 5 5 5) 8 cameraR))
    as ((_ & _ & _ & _ & H & _) & _).
  exact H.
Defined.

Lemma last_position_writer_wins_witness :
  let c := set_currRA (roll_cmd (V3 0 5 3) (V3 0 1 0)) cameraR in
  Position (frame 1 c) = ra_InicialPosition (currRA c).
Proof.
  intro c. destruct (last_position_writer_wins 1 c) as (H & _).
  apply H. reflexivity.
Defined.

Lemma frames_keep_options_and_separate_lanes_witness :
  Front (frame 0 cameraR) = Front cameraR.
Proof.
  destruct (frames_keep_options_and_separate_lanes 0 cameraR) as (_ & H & _).
  destruct (H (cameraR_idle KRP) (cameraR_idle KRA) (cameraR_idle KLookAt)) as (HF & _).
  exact HF.
Defined.

Lemma initial_in_bounds : in_bounds (@Main.initial R R RArith RTrigD).
Proof. split; [reflexivity|]. split; cbn; lia. Qed.

Lemma changeCamera_cycles_witness :
  Main.currentCamera (Main.changeCamera (@Main.initial R R RArith RTrigD)) =
  ((0 + 1) mod 1)%Z.
Proof.
  destruct (changeCamera_cycles initial_in_bounds) as (_ & H & _). exact H.
Defined.

Lemma input_handlers_stay_in_bounds_witness :
  exists g', Main.processInput (only Main.KEY_ENTER) (@Main.initial R R RArith RTrigD)
             = Some g' /\ in_bounds g'.
Proof.
  assert (Hlt : (Main.numberOfCameras (@Main.initial R R RArith RTrigD) + 1 < 4294967296)%Z)
    by (cbn; lia).
  destruct (input_handlers_stay_in_bounds initial_in_bounds Hlt) as (_ & H & _).
  destruct (H (only Main.KEY_ENTER)) as (g' & H1 & H2 & _).
  exists g'. split; assumption.
Defined.

Lemma initial_unlatched : unlatched (@Main.initial R R RArith RTrigD).
Proof. intros []; reflexivity. Qed.

Lemma command_keys_fire_once_on_release_witness :
  exists g1 g2,
    Main.processInput (only Main.KEY_Q) (@Main.initial R R RArith RTrigD) = Some g1 /\
    Main.processInput no_key g1 = Some g2 /\ unlatched g2.
Proof.
  destruct (@command_keys_fire_once_on_release R R RArith RTrigD Main.KEY_Q _
              Main.initial _ eq_refl initial_unlatched eq_refl)
    as (g1 & g2 & H1 & _ & _ & _ & H2 & _ & H3 & _).
  exists g1, g2. repeat split; assumption.
Defined.

Lemma held_movement_key_moves_twice_witness :
  exists c,
    Main.processInput (only Main.KEY_W) (@Main.initial R R RArith RTrigD) =
    Some (Main.set_cameras
            [YawPitch.ProcessKeyboard YawPitch.FORWARD 0
               (YawPitch.ProcessKeyboard YawPitch.FORWARD 0 c)]
            Main.initial).
Proof.
  eexists.
  exact (@held_movement_key_moves_twice R R RArith RTrigD Main.KEY_W YawPitch.FORWARD
           Main.initial _ eq_refl initial_unlatched eq_refl).
Defined.

Lemma Reqb_false x y : x <> y -> Reqb x y = false.
Proof. intros H. unfold Reqb. destruct (Req_dec_T x y); [contradiction | reflexivity]. Qed.

Lemma cameraR_off_555 : veqb (Position cameraR) (V3 5 5 5) = false.
Proof.
  rewrite (proj1 cameraR_pose). unfold veqb. cbn [vx vy vz]. R_arith.
  rewrite (@Reqb_false 0 5) by lra. reflexivity.
Qed.

Lemma reached_at_end (d t0 : R) : 0 < d -> reached (percentage_of (t0 + d) t0 (fadd d t0)) = true.
Proof.
  intros Hd. apply reached_R. rewrite percentage_of_R. R_arith.
  replace (t0 + d - t0) with d by ring. replace (d + t0 - t0) with d by ring.
  unfold Rdiv. rewrite Rinv_r by lra. lra.
Qed.

Lemma not_reached_at_start (d t0 : R) :
  0 < d -> reached (percentage_of t0 t0 (fadd d t0)) = false.
Proof.
  intros Hd. apply not_reached_R. rewrite percentage_of_R. R_arith.
  replace (t0 - t0) with 0 by ring. unfold Rdiv. rewrite Rmult_0_l. lra.
Qed.

Lemma translate_run_reaches_target_witness :
  Position (run (0 :: [4] ++ [0 + 8]) (Translate (V3 5 5 5) 8 cameraR)) =
  interpolate (Position cameraR) (V3 5 5 5) fone.
Proof.
  assert (H1 : (0 < 8)%R) by lra.
  destruct (@translate_run_reaches_target R R RArith RTrig cameraR (V3 5 5 5) 8 0 (0 + 8) [4]
              cameraR_idle
              (reached_at_end 0 H1)) as (_ & H & _).
  exact H.
Defined.

Lemma queued_translation_starts_a_frame_late_witness :
  currTranslation
    (frame 9 (run [0; 0 + 8]
                (Translate (V3 0 10 10) 5 (Translate (V3 5 5 5) 8 cameraR)))) =
  Build_translation (interpolate (Position cameraR) (V3 5 5 5) fone) (V3 0 10 10)
    9 (fadd 5 9) (reached (percentage_of 9 9 (fadd 5 9))).
Proof.
  assert (H1 : (0 < 8)%R) by lra.
  destruct (@queued_translation_starts_a_frame_late R R RArith RTrig cameraR
              (V3 5 5 5) (V3 0 10 10) 8 5 0 (0 + 8) 9 cameraR_idle
              (not_reached_at_start 0 H1) (reached_at_end 0 H1))
    as (_ & _ & H & _).
  exact H.
Defined.

Lemma lookAt_run_aims_at_target_witness :
  Front (run (0 :: [4] ++ [0 + 8]) (LookAt (V3 5 5 5) 8 cameraR)) =
  normalize (interpolate (Front cameraR)
               (normalize (vsub (V3 5 5 5) (Position cameraR))) fone).
Proof.
  assert (H1 : (0 < 8)%R) by lra.
  destruct (@lookAt_run_aims_at_target R R RArith RTrig cameraR (V3 5 5 5) 8 0 (0 + 8) [4]
              cameraR_idle cameraR_off_555
              (reached_at_end 0 H1)) as (_ & _ & H & _).
  exact H.
Defined.

End Instances.

